(** * Actor-critic training loop of [generalized_advantage_estimation.py]

    A shallow embedding of the rollout-and-update loop: tensors with their
    shapes and broadcasting, the two loss functions, the episode roller, the
    epoch orchestrator and the training driver.

    Numbers.  Python floats and tensor entries are modelled by exact rationals
    ([Q]); rounding, overflow and nan are outside the model.  Two rationals
    are compared with [==] ([Qeq]).

    Collaborators.  The Gym environment, the random source behind
    [Categorical] and parameter initialisation, autograd and Adam are
    interfaces (type classes); every theorem holds for all their
    implementations.

    Effects.  The program runs in a monad of state, exceptions and
    divergence.  The state (the world) holds the environment, the random
    source, the two modules with their gradient buffers and optimizers,
    standard output, and a trace of the calls made on the collaborators.
    [while True] has no bound in the source: the loop takes a bound on its
    iterations (fuel) and diverges when it runs out; what it returns does not
    depend on the bound. *)

From Stdlib Require Import String Ascii.
From Stdlib Require Import QArith ZArith NArith List Bool Arith Lia Lqa.
From Stdlib Require Import Qround Qabs DecimalString.
From Stdlib Require DecimalPos DecimalN.
Import ListNotations.

Local Open Scope Q_scope.

(** ** Exceptions *)

Inductive exn : Type :=
| RuntimeError (msg : string)     (* raised by torch on shape errors *)
| ExternalError (msg : string).   (* anything a collaborator raises *)

(** ** Tensors

    A tensor is its shape and its entries in row-major order, as
    [torch.Tensor] stores a contiguous tensor. *)

Record tensor : Type := mkTensor { shape : list nat; data : list Q }.

Definition numel (s : list nat) : nat := fold_right Nat.mul 1%nat s.

(** A 0-dimensional tensor (what [Categorical.log_prob] and [mean] return). *)
Definition scalar_tensor (x : Q) : tensor := mkTensor [] [x].

(** [torch.as_tensor] of a flat Python list or a 1-D array. *)
Definition as_tensor (l : list Q) : tensor := mkTensor [length l] l.

Definition shape_eqb (a b : list nat) : bool :=
  if list_eq_dec Nat.eq_dec a b then true else false.

(** [torch.stack(ts)]: a new leading dimension; the list must be non-empty
    and all its tensors of one shape. *)
Definition torch_stack (ts : list tensor) : exn + tensor :=
  match ts with
  | [] => inl (RuntimeError "stack expects a non-empty TensorList")
  | t :: rest =>
      if forallb (fun u => shape_eqb (shape u) (shape t)) rest
      then inr (mkTensor (length ts :: shape t) (concat (map data ts)))
      else inl (RuntimeError "stack expects each tensor to be equal size")
  end.

(** Broadcasting.  Shapes are aligned at their last dimension; two aligned
    dimensions are compatible when they are equal or one of them is 1. *)
Fixpoint broadcast_aligned (a b : list nat) : option (list nat) :=
  match a, b with
  | [], _ => Some b
  | _, [] => Some a
  | x :: a', y :: b' =>
      match broadcast_aligned a' b' with
      | None => None
      | Some r =>
          if (x =? y)%nat then Some (x :: r)
          else if (x =? 1)%nat then Some (y :: r)
          else if (y =? 1)%nat then Some (x :: r)
          else None
      end
  end.

Definition broadcast_shapes (a b : list nat) : option (list nat) :=
  option_map (@rev nat) (broadcast_aligned (rev a) (rev b)).

(** A shape with fewer dimensions than the target gets leading 1s. *)
Definition pad_shape (target s : list nat) : list nat :=
  repeat 1%nat (length target - length s) ++ s.

Fixpoint chunks (size count : nat) (d : list Q) : list (list Q) :=
  match count with
  | O => []
  | S c => firstn size d :: chunks size c (skipn size d)
  end.

(** [expand s t d]: the entries of a tensor of shape [s] and entries [d]
    after expansion to shape [t] (a dimension of size 1 is repeated). *)
Fixpoint expand (s t : list nat) (d : list Q) {struct s} : list Q :=
  match s, t with
  | x :: s', y :: t' =>
      let blocks := map (expand s' t') (chunks (numel s') x d) in
      if (x =? y)%nat then concat blocks
      else concat (repeat (hd [] blocks) y)
  | _, _ => d
  end.

Fixpoint map2 {A B C} (f : A -> B -> C) (l : list A) (m : list B) : list C :=
  match l, m with
  | a :: l', b :: m' => f a b :: map2 f l' m'
  | _, _ => []
  end.

Definition broadcast_op (f : Q -> Q -> Q) (a b : tensor) : exn + tensor :=
  match broadcast_shapes (shape a) (shape b) with
  | None =>
      inl (RuntimeError "The size of tensor a must match the size of tensor b")
  | Some s =>
      inr (mkTensor s
             (map2 f (expand (pad_shape s (shape a)) s (data a))
                     (expand (pad_shape s (shape b)) s (data b))))
  end.

Definition tensor_sub : tensor -> tensor -> exn + tensor := broadcast_op Qminus.
Definition tensor_mul : tensor -> tensor -> exn + tensor := broadcast_op Qmult.

(** [t ** 2] and unary minus, entry by entry. *)
Definition tensor_square (t : tensor) : tensor :=
  mkTensor (shape t) (map (fun x => x ^ 2) (data t)).

Definition tensor_neg (t : tensor) : tensor :=
  mkTensor (shape t) (map Qopp (data t)).

(** Python's [sum]: starts from 0 and adds from the left. *)
Definition py_sum (l : list Q) : Q := fold_left Qplus l 0.

Definition Qlen {A} (l : list A) : Q := inject_Z (Z.of_nat (length l)).

(** [t.mean()]: a 0-dimensional tensor, the sum of all entries over their
    number.  On a tensor without entries torch gives nan, which the rationals
    do not have ([/ 0] is 0 there): this definition stands for [mean] on
    tensors with an entry only.  A tensor without entries comes from an empty
    list of returns or from estimates without entries; the statements on the
    value of a mean exclude both. *)
Definition tensor_mean (t : tensor) : tensor :=
  scalar_tensor (py_sum (data t) / Qlen (data t)).

(** ** Loss calculators *)

Definition bind_exn {A B} (x : exn + A) (f : A -> exn + B) : exn + B :=
  match x with
  | inl e => inl e
  | inr a => f a
  end.

(** [calculate_value_fn_loss]:
      value_estimates = torch.stack(epoch_state_value_estimates)
      returns = torch.as_tensor(epoch_action_returns)
      return ((value_estimates - returns)**2).mean() *)
Definition calculate_value_fn_loss
    (epoch_action_returns : list Q)
    (epoch_state_value_estimates : list tensor) : exn + tensor :=
  bind_exn (torch_stack epoch_state_value_estimates) (fun value_estimates =>
  let returns := as_tensor epoch_action_returns in
  bind_exn (tensor_sub value_estimates returns) (fun diff =>
  inr (tensor_mean (tensor_square diff)))).

(** [calculate_policy_fn_loss]:
      return -(epoch_log_probability_actions * epoch_action_rewards).mean() *)
Definition calculate_policy_fn_loss
    (epoch_log_probability_actions epoch_action_rewards : tensor)
    : exn + tensor :=
  bind_exn (tensor_mul epoch_log_probability_actions epoch_action_rewards)
    (fun prod => inr (tensor_neg (tensor_mean prod))).

(** ** The function approximators

    [create_model] builds [nn.Sequential(Linear(n, 32), ReLU(), Linear(32, k))].
    A [Linear] layer is its two sizes and its parameters; [weight j i] is the
    entry of row [j] (an output) and column [i] (an input). *)

Definition parameters : Type := (nat -> nat -> Q) * (nat -> Q).

Record Linear : Type := mkLinear {
  in_features : nat;
  out_features : nat;
  weight : nat -> nat -> Q;
  bias : nat -> Q
}.

Record Sequential : Type := mkSequential { layer1 : Linear; layer2 : Linear }.

Definition dot (row : nat -> Q) (x : list Q) : Q :=
  py_sum (map (fun ix => row (fst ix) * snd ix) (combine (seq 0 (length x)) x)).

(** [Linear.forward] on a 1-D input: [x @ W.T + b]; torch raises when the
    input length is not [in_features]. *)
Definition linear_forward (l : Linear) (x : list Q) : exn + list Q :=
  if (length x =? in_features l)%nat
  then inr (map (fun j => dot (weight l j) x + bias l j)
              (seq 0 (out_features l)))
  else inl (RuntimeError "mat1 and mat2 shapes cannot be multiplied").

Definition relu (x : list Q) : list Q :=
  map (fun v => if Qle_bool 0 v then v else 0) x.

(** Calling the module on [torch.as_tensor(observation)], the observation
    being a flat vector: the result is a 1-D tensor of [out_features]
    entries. *)
Definition forward (m : Sequential) (observation : list Q) : exn + tensor :=
  bind_exn (linear_forward (layer1 m) observation) (fun h =>
  bind_exn (linear_forward (layer2 m) (relu h)) (fun out =>
  inr (as_tensor out))).

Definition get_parameters (m : Sequential) : parameters * parameters :=
  ((weight (layer1 m), bias (layer1 m)), (weight (layer2 m), bias (layer2 m))).

(** An optimizer step changes the values of the parameters, never the sizes. *)
Definition set_parameters (m : Sequential) (p : parameters * parameters)
    : Sequential :=
  mkSequential
    (mkLinear (in_features (layer1 m)) (out_features (layer1 m))
       (fst (fst p)) (snd (fst p)))
    (mkLinear (in_features (layer2 m)) (out_features (layer2 m))
       (fst (snd p)) (snd (snd p))).

(** ** Collaborators *)

(** The Gym environment: [gym.make], [env.seed], [env.reset], [env.step]
    (its [info] is dropped by the program), [env.observation_space.shape[0]]
    and [env.action_space.n]. *)
Class Gym (E : Type) : Type := {
  gym_make : string -> E;
  env_seed : E -> Z -> E;
  env_reset : E -> exn + (list Q * E);
  env_step : E -> nat -> exn + (list Q * Q * bool * E);
  observation_space_shape0 : E -> nat;
  action_space_n : E -> nat
}.

(** torch: the global random source [R] ([torch.manual_seed], the
    initialisation of a [Linear] layer, [Categorical.sample]); the log
    probability of an action under [Categorical(logits=...)]; autograd
    (the gradient [G] of a loss with respect to a module's parameters; the
    tape is not modelled, the gradient is an uninterpreted function of the
    loss and the module) and Adam with its state [A]. *)
Class Torch (R G A : Type) : Type := {
  manual_seed : Z -> R;
  init_parameters : nat -> nat -> R -> parameters * R;
  categorical_sample : list Q -> R -> exn + (nat * R);
  categorical_log_prob : list Q -> nat -> Q;
  autograd : tensor -> Sequential -> G;
  accumulate : option G -> G -> G;
  Adam : Sequential -> Q -> A;
  adam_update : A -> Sequential -> option G -> A * (parameters * parameters)
}.

Inductive role : Type := Policy | Value.

(** What the program did to its collaborators, oldest first. *)
Inductive event : Type :=
| Reset
| Step (action : nat) (reward : Q) (done : bool)
| Backward (r : role) (loss : tensor)
| OptimizerStep (r : role)
| ZeroGrad (r : role).

Section Program.

Context {E R G A : Type} `{Gym E} `{Torch R G A}.

(** A module with its gradient buffers ([None] once cleared) and the state of
    the optimizer built on its parameters.  The module object is shared by
    the program and its optimizer. *)
Record learner : Type := mkLearner {
  module : Sequential;
  grad : option G;
  optimizer : A
}.

Record world : Type := mkWorld {
  w_env : E;
  w_rng : R;
  w_policy : learner;
  w_value : learner;
  w_stdout : string;
  w_trace : list event
}.

Definition set_env (e : E) (w : world) : world :=
  mkWorld e (w_rng w) (w_policy w) (w_value w) (w_stdout w) (w_trace w).
Definition set_rng (r : R) (w : world) : world :=
  mkWorld (w_env w) r (w_policy w) (w_value w) (w_stdout w) (w_trace w).
Definition set_stdout (s : string) (w : world) : world :=
  mkWorld (w_env w) (w_rng w) (w_policy w) (w_value w) s (w_trace w).
Definition log (ev : event) (w : world) : world :=
  mkWorld (w_env w) (w_rng w) (w_policy w) (w_value w) (w_stdout w)
    (w_trace w ++ [ev]).

Definition get_learner (r : role) (w : world) : learner :=
  match r with Policy => w_policy w | Value => w_value w end.
Definition set_learner (r : role) (l : learner) (w : world) : world :=
  match r with
  | Policy => mkWorld (w_env w) (w_rng w) l (w_value w) (w_stdout w) (w_trace w)
  | Value => mkWorld (w_env w) (w_rng w) (w_policy w) l (w_stdout w) (w_trace w)
  end.

(** ** The monad of the program: state, exceptions, divergence *)

Inductive outcome (T : Type) : Type :=
| Returned (a : T) (w : world)
| Raised (e : exn) (w : world)
| Diverged.
Arguments Returned {T} a w.
Arguments Raised {T} e w.
Arguments Diverged {T}.

Definition M (T : Type) : Type := world -> outcome T.

Definition ret {T} (a : T) : M T := fun w => Returned a w.

Definition bind {T U} (c : M T) (k : T -> M U) : M U :=
  fun w =>
    match c w with
    | Returned a w' => k a w'
    | Raised e w' => Raised e w'
    | Diverged => Diverged
    end.

Definition lift {T} (x : exn + T) : M T :=
  fun w => match x with inl e => Raised e w | inr a => Returned a w end.

Definition modify (f : world -> world) : M unit := fun w => Returned tt (f w).

Definition gets {T} (f : world -> T) : M T := fun w => Returned (f w) w.

Definition diverge {T} : M T := fun _ => Diverged.

Notation "x <- c ;; k" := (bind c (fun x => k))
  (at level 61, c at next level, right associativity).
Notation "' p <- c ;; k" := (bind c (fun x => let 'p := x in k))
  (at level 61, p pattern, c at next level, right associativity).
Notation "c ;; k" := (bind c (fun _ => k))
  (at level 61, right associativity).

(** ** Calls on the collaborators *)

(** [env.reset()] *)
Definition reset : M (list Q) := fun w =>
  match env_reset (w_env w) with
  | inl e => Raised e w
  | inr (observation, env') => Returned observation (log Reset (set_env env' w))
  end.

(** [env.step(action)] *)
Definition step (action : nat) : M (list Q * Q * bool) := fun w =>
  match env_step (w_env w) action with
  | inl e => Raised e w
  | inr (observation, reward, done, env') =>
      Returned (observation, reward, done)
        (log (Step action reward done) (set_env env' w))
  end.

(** [loss.backward()]: the gradient is added to the buffers of the module
    the loss was computed from. *)
Definition backward (r : role) (loss : tensor) : M unit := fun w =>
  let l := get_learner r w in
  let g := accumulate (grad l) (autograd loss (module l)) in
  Returned tt
    (log (Backward r loss)
       (set_learner r (mkLearner (module l) (Some g) (optimizer l)) w)).

(** [optimizer.step()] *)
Definition optimizer_step (r : role) : M unit := fun w =>
  let l := get_learner r w in
  let (o, p) := adam_update (optimizer l) (module l) (grad l) in
  Returned tt
    (log (OptimizerStep r)
       (set_learner r (mkLearner (set_parameters (module l) p) (grad l) o) w)).

(** [optimizer.zero_grad()] *)
Definition zero_grad (r : role) : M unit := fun w =>
  let l := get_learner r w in
  Returned tt
    (log (ZeroGrad r)
       (set_learner r (mkLearner (module l) None (optimizer l)) w)).

Definition newline : string := String "010" "".

(** [print(s)] *)
Definition print (s : string) : M unit :=
  modify (fun w => set_stdout (w_stdout w ++ s ++ newline) w).

(** ** Distribution sampler *)

Record Categorical : Type := mkCategorical { logits : list Q }.

(** [get_policy] *)
Definition get_policy (model : Sequential) (observation : list Q)
    : M Categorical :=
  logits <- lift (forward model observation) ;;
  ret (mkCategorical (data logits)).

Definition sample (policy : Categorical) : M nat := fun w =>
  match categorical_sample (logits policy) (w_rng w) with
  | inl e => Raised e w
  | inr (action, rng') => Returned action (set_rng rng' w)
  end.

(** [get_action]: the action and its log probability, a 0-dimensional
    tensor. *)
Definition get_action (policy : Categorical) : M (nat * tensor) :=
  action <- sample policy ;;
  let action_int := action in
  let log_probability_action :=
    scalar_tensor (categorical_log_prob (logits policy) action) in
  ret (action_int, log_probability_action).

(** ** Episode roller *)

(** The three lists of [run_one_episode]. *)
Record metrics : Type := mkMetrics {
  rewards : list Q;
  state_value_estimates : list tensor;
  log_probability_actions : list tensor
}.

(** The body of [while True], up to the test of [done]. *)
Definition timestep (policy_function_model value_function_model : Sequential)
    (observation : list Q) (m : metrics) : M (list Q * metrics * bool) :=
  state_value_estimate <- lift (forward value_function_model observation) ;;
  let state_value_estimates :=
    state_value_estimates m ++ [state_value_estimate] in
  policy <- get_policy policy_function_model observation ;;
  '(action, log_probability_action) <- get_action policy ;;
  '(observation, reward, done) <- step action ;;
  let rewards := rewards m ++ [reward] in
  let log_probability_actions :=
    log_probability_actions m ++ [log_probability_action] in
  ret (observation,
       mkMetrics rewards state_value_estimates log_probability_actions,
       done).

(** [while True: ...; if done == True: break].  The loop has no bound of its
    own; [fuel] bounds the iterations and the loop diverges when it runs
    out. *)
Fixpoint while_true (fuel : nat)
    (policy_function_model value_function_model : Sequential)
    (observation : list Q) (m : metrics) : M metrics :=
  match fuel with
  | O => diverge
  | S fuel' =>
      '(observation, m, done) <-
        timestep policy_function_model value_function_model observation m ;;
      if done then ret m
      else while_true fuel' policy_function_model value_function_model
             observation m
  end.

(** [run_one_episode] *)
Definition run_one_episode (fuel : nat)
    (policy_function_model value_function_model : Sequential)
    : M (list Q * list tensor * list tensor * Q) :=
  observation <- reset ;;
  m <- while_true fuel policy_function_model value_function_model
         observation (mkMetrics [] [] []) ;;
  let episode_return := py_sum (rewards m) in
  let total_timesteps := length (rewards m) in
  let action_returns := repeat episode_return total_timesteps in
  ret (action_returns, log_probability_actions m, state_value_estimates m,
       episode_return).

(** ** Epoch orchestrator *)

Record batch : Type := mkBatch {
  epoch_action_returns : list Q;
  epoch_log_probability_actions : list tensor;
  epoch_state_value_estimates : list tensor;
  epoch_episode_returns : list Q
}.

(** [for _ in range(n): ...] of [train_one_epoch]. *)
Fixpoint run_episodes (n fuel : nat)
    (policy_function_model value_function_model : Sequential) (b : batch)
    : M batch :=
  match n with
  | O => ret b
  | S n' =>
      '(action_returns, log_probability_actions, state_value_estimates,
        episode_return) <-
        run_one_episode fuel policy_function_model value_function_model ;;
      run_episodes n' fuel policy_function_model value_function_model
        (mkBatch
           (epoch_action_returns b ++ action_returns)
           (epoch_log_probability_actions b ++ log_probability_actions)
           (epoch_state_value_estimates b ++ state_value_estimates)
           (epoch_episode_returns b ++ [episode_return]))
  end.

(** [np.mean] of a list. *)
Definition np_mean (l : list Q) : Q := py_sum l / Qlen l.

(** [train_one_epoch].  Its five arguments are references to the
    environment, the two modules and the two optimizers held by the world. *)
Definition train_one_epoch (fuel : nat) : M Q :=
  policy_function_model <- gets (fun w => module (w_policy w)) ;;
  value_function_model <- gets (fun w => module (w_value w)) ;;
  b <- run_episodes 200 fuel policy_function_model value_function_model
         (mkBatch [] [] [] []) ;;
  stacked <- lift (torch_stack (epoch_log_probability_actions b)) ;;
  policy_function_loss <-
    lift (calculate_policy_fn_loss stacked
            (as_tensor (epoch_action_returns b))) ;;
  value_function_loss <-
    lift (calculate_value_fn_loss (epoch_action_returns b)
            (epoch_state_value_estimates b)) ;;
  backward Value value_function_loss ;;
  optimizer_step Value ;;
  backward Policy policy_function_loss ;;
  optimizer_step Policy ;;
  zero_grad Value ;;
  zero_grad Policy ;;
  ret (np_mean (epoch_episode_returns b)).

(** ** Training driver *)

Local Open Scope string_scope.

Definition decimal (n : N) : string := NilZero.string_of_uint (N.to_uint n).

Fixpoint replicate (n : nat) (c : ascii) : string :=
  match n with
  | O => ""
  | S n' => String c (replicate n' c)
  end.

(** Right justification in a field of [width] characters; a longer string
    is left as it is. *)
Definition pad_left (c : ascii) (width : nat) (s : string) : string :=
  replicate (width - String.length s) c ++ s.

(** [%3d] of a non-negative integer. *)
Definition format_3d (n : nat) : string :=
  pad_left " " 3 (decimal (N.of_nat n)).

(** Rounding to the nearest integer, ties to the even one, as the
    conversion of a float to decimal digits does. *)
Definition round_half_even (x : Q) : Z :=
  let f := Qfloor x in
  match Qcompare (x - inject_Z f) (1 # 2) with
  | Lt => f
  | Gt => (f + 1)%Z
  | Eq => if Z.even f then f else (f + 1)%Z
  end.

(** [%.3f]: the sign, the integer part, a point and three decimals of the
    multiple of one thousandth nearest to the number.  Python rounds the
    double it holds, this definition the rational: the two print the same
    digits unless the rational lies half-way between two multiples of one
    thousandth (as 1/400 does), where they may differ by one in the last
    decimal.  A mean of 200 returns that are whole numbers is a multiple of
    1/200 and never lies half-way. *)
Definition format_3f (x : Q) : string :=
  let thousandths := Z.to_N (round_half_even (Qabs x * 1000)) in
  (if Qle_bool 0 x then "" else "-")
  ++ decimal (thousandths / 1000) ++ "."
  ++ pad_left "0" 3 (decimal (thousandths mod 1000)).

Definition tab : string := String "009" "".

(** ['epoch: %3d \t return: %.3f' % (epoch, average_return)] *)
Definition format_report (epoch : nat) (average_return : Q) : string :=
  "epoch: " ++ format_3d epoch ++ " " ++ tab ++ " return: "
  ++ format_3f average_return.

(** [nn.Linear(in_features, out_features)]; its parameters are drawn from the
    global random source. *)
Definition new_linear (n_in n_out : nat) : M Linear := fun w =>
  let (p, rng') := init_parameters n_in n_out (w_rng w) in
  Returned (mkLinear n_in n_out (fst p) (snd p)) (set_rng rng' w).

(** [create_model] *)
Definition create_model (number_observation_features number_outputs : nat)
    : M Sequential :=
  let hidden_layer_features := 32%nat in
  l1 <- new_linear number_observation_features hidden_layer_features ;;
  l2 <- new_linear hidden_layer_features number_outputs ;;
  ret (mkSequential l1 l2).

(** [for epoch in range(epochs): ...], from [epoch] on, [count] epochs left. *)
Fixpoint epoch_loop (fuel epoch count : nat) : M unit :=
  match count with
  | O => ret tt
  | S count' =>
      average_return <- train_one_epoch fuel ;;
      print (format_report epoch average_return) ;;
      epoch_loop fuel (S epoch) count'
  end.

(** [train] *)
Definition train (fuel epochs : nat) : M unit :=
  modify (set_env (gym_make "CartPole-v0")) ;;
  modify (set_rng (manual_seed 0)) ;;
  modify (fun w => set_env (env_seed (w_env w) 0) w) ;;
  number_observation_features <-
    gets (fun w => observation_space_shape0 (w_env w)) ;;
  number_actions <- gets (fun w => action_space_n (w_env w)) ;;
  policy_function_model <-
    create_model number_observation_features number_actions ;;
  value_function_model <- create_model number_observation_features 1 ;;
  modify (set_learner Policy
            (mkLearner policy_function_model None
               (Adam policy_function_model (1 # 100)))) ;;
  modify (set_learner Value
            (mkLearner value_function_model None
               (Adam value_function_model (1 # 100)))) ;;
  epoch_loop fuel 0 epochs.

End Program.

Arguments Returned {E R G A T} a w.
Arguments Raised {E R G A T} e w.
Arguments Diverged {E R G A T}.
Arguments train_one_epoch : simpl never.
Arguments format_report : simpl never.

Notation "x <- c ;; k" := (bind c (fun x => k))
  (at level 61, c at next level, right associativity).
Notation "' p <- c ;; k" := (bind c (fun x => let 'p := x in k))
  (at level 61, p pattern, c at next level, right associativity).
Notation "c ;; k" := (bind c (fun _ => k))
  (at level 61, right associativity).

(** ** Vocabulary of the statements *)

(** The sum of a list, as mathematics writes it. *)
Fixpoint Qsum (l : list Q) : Q :=
  match l with
  | [] => 0
  | x :: l' => x + Qsum l'
  end.

(** The arithmetic mean of a non-empty list. *)
Definition Qmean (l : list Q) : Q := Qsum l / Qlen l.

Definition is_step (ev : event) : bool :=
  match ev with Step _ _ _ => true | _ => false end.

Definition is_reset (ev : event) : bool :=
  match ev with Reset => true | _ => false end.

Definition is_env_event (ev : event) : bool := is_step ev || is_reset ev.

(** The rewards the environment paid, read off a trace. *)
Definition rewards_of (tr : list event) : list Q :=
  flat_map (fun ev => match ev with Step _ r _ => [r] | _ => [] end) tr.

(** What [run_one_episode] returns. *)
Definition episode : Type := (list Q * list tensor * list tensor * Q)%type.

Definition ep_action_returns (ep : episode) : list Q := fst (fst (fst ep)).
Definition ep_log_probabilities (ep : episode) : list tensor :=
  snd (fst (fst ep)).
Definition ep_value_estimates (ep : episode) : list tensor := snd (fst ep).
Definition ep_return (ep : episode) : Q := snd ep.

(** The entry of a 0-dimensional tensor. *)
Definition item (t : tensor) : Q := hd 0 (data t).

(** The reports of the epochs [k], [k+1], ... with the means [means], one
    line each. *)
Fixpoint report (k : nat) (means : list Q) : string :=
  match means with
  | [] => ""
  | mean :: means' =>
      (format_report k mean ++ newline ++ report (S k) means')%string
  end.

Fixpoint count_char (c : ascii) (s : string) : nat :=
  match s with
  | EmptyString => 0
  | String c' s' => (if Ascii.eqb c c' then 1 else 0) + count_char c s'
  end.

(** Reading a decimal numeral: the value of a digit, and of a string of
    digits read from the left. *)
Definition digit_value (c : ascii) : option N :=
  (if Ascii.eqb c "0" then Some 0
   else if Ascii.eqb c "1" then Some 1
   else if Ascii.eqb c "2" then Some 2
   else if Ascii.eqb c "3" then Some 3
   else if Ascii.eqb c "4" then Some 4
   else if Ascii.eqb c "5" then Some 5
   else if Ascii.eqb c "6" then Some 6
   else if Ascii.eqb c "7" then Some 7
   else if Ascii.eqb c "8" then Some 8
   else if Ascii.eqb c "9" then Some 9
   else None)%N.

Fixpoint read_digits (acc : N) (s : string) : option N :=
  match s with
  | EmptyString => Some acc
  | String c s' =>
      match digit_value c with
      | Some d => read_digits (10 * acc + d)%N s'
      | None => None
      end
  end.

(** The number a non-empty string of digits denotes. *)
Definition read_numeral (s : string) : option N :=
  match s with
  | EmptyString => None
  | _ => read_digits 0 s
  end.

(** A numeral of several digits does not start with a zero. *)
Definition no_leading_zero (s : string) : bool :=
  match s with
  | String c (String _ _) => negb (Ascii.eqb c "0")
  | _ => true
  end.

(** The rational that an integer part [i] and three decimals [f] denote. *)
Definition three_decimals (i f : N) : Q :=
  inject_Z (Z.of_N i) + inject_Z (Z.of_N f) / 1000.

Definition role_eqb (a b : role) : bool :=
  match a, b with
  | Policy, Policy | Value, Value => true
  | _, _ => false
  end.

(** The losses whose [backward] was called for the module [r], read off a
    trace. *)
Definition backpropagated (r : role) (tr : list event) : list tensor :=
  flat_map
    (fun ev =>
       match ev with
       | Backward r' loss => if role_eqb r r' then [loss] else []
       | _ => []
       end)
    tr.

(** The policy loss as the specification words it: the negated mean of log
    probability times (return minus the critic's estimate). *)
Definition policy_loss_with_baseline (log_probs returns estimates : list Q)
    : Q :=
  - Qmean (map2 Qmult log_probs (map2 Qminus returns estimates)).

Section Vocabulary.

Context {E R G A : Type} `{Gym E} `{Torch R G A}.

(** Episodes run one after the other, each from the world the previous one
    left. *)
Inductive episodes_chain (fuel : nat) (pm vm : Sequential)
    : @world E R G A -> list episode -> @world E R G A -> Prop :=
| chain_nil : forall w, episodes_chain fuel pm vm w [] w
| chain_cons : forall w w1 w2 ep eps,
    run_one_episode fuel pm vm w = Returned ep w1 ->
    episodes_chain fuel pm vm w1 eps w2 ->
    episodes_chain fuel pm vm w (ep :: eps) w2.

(** The batch an epoch has after the episodes [eps], starting from [b]. *)
Definition extend_batch (b : batch) (eps : list episode) : batch :=
  mkBatch
    (epoch_action_returns b ++ concat (map ep_action_returns eps))
    (epoch_log_probability_actions b ++ concat (map ep_log_probabilities eps))
    (epoch_state_value_estimates b ++ concat (map ep_value_estimates eps))
    (epoch_episode_returns b ++ map ep_return eps).

(** The lists of [m'] are those of [m] with one more entry per step of the
    trace [tr]: the rewards of [tr], 0-dimensional log probabilities [lq],
    and value estimates [vq], 1-D tensors of as many entries as the module
    [vm] has outputs. *)
Definition grown (vm : Sequential) (m m' : metrics) (tr : list event) : Prop :=
  exists vq lq,
    rewards m' = rewards m ++ rewards_of tr /\
    state_value_estimates m' = state_value_estimates m ++ map as_tensor vq /\
    log_probability_actions m' =
      log_probability_actions m ++ map scalar_tensor lq /\
    length vq = length tr /\ length lq = length tr /\
    length (rewards_of tr) = length tr /\
    forallb is_step tr = true /\
    Forall (fun o => length o = out_features (layer2 vm)) vq.

Definition outcome_trace {T} (o : outcome (E:=E) (R:=R) (G:=G) (A:=A) T)
    : list event :=
  match o with
  | Returned _ w | Raised _ w => w_trace w
  | Diverged => []
  end.

(** The world [train] has built when it enters its loop: the environment
    made and seeded, the random source seeded, the two modules created in
    the order of the source and an Adam optimizer on each. *)
Definition initialised (w : @world E R G A) : @world E R G A :=
  let env := env_seed (gym_make "CartPole-v0") 0 in
  let n := observation_space_shape0 env in
  let k := action_space_n env in
  let i1 := init_parameters n 32 (manual_seed 0) in
  let i2 := init_parameters 32 k (snd i1) in
  let i3 := init_parameters n 32 (snd i2) in
  let i4 := init_parameters 32 1 (snd i3) in
  let pm :=
    mkSequential (mkLinear n 32 (fst (fst i1)) (snd (fst i1)))
                 (mkLinear 32 k (fst (fst i2)) (snd (fst i2))) in
  let vm :=
    mkSequential (mkLinear n 32 (fst (fst i3)) (snd (fst i3)))
                 (mkLinear 32 1 (fst (fst i4)) (snd (fst i4))) in
  mkWorld env (snd i4)
    (mkLearner pm None (Adam pm (1 # 100)))
    (mkLearner vm None (Adam vm (1 # 100)))
    (w_stdout w) (w_trace w).

(** Epochs run one after the other from epoch number [k] on, each followed
    by the print of its report. *)
Inductive epochs_chain (fuel : nat)
    : nat -> @world E R G A -> list Q -> @world E R G A -> Prop :=
| epochs_nil : forall k w, epochs_chain fuel k w [] w
| epochs_cons : forall k w w1 w2 mean means,
    train_one_epoch fuel w = Returned mean w1 ->
    epochs_chain fuel (S k)
      (set_stdout (w_stdout w1 ++ format_report k mean ++ newline)%string w1)
      means w2 ->
    epochs_chain fuel k w (mean :: means) w2.








(** What [train_one_epoch] does with the batch of its 200 episodes: the two
    losses, the update, the mean it returns. *)
Definition epoch_update (b : batch) : M (E:=E) (R:=R) (G:=G) (A:=A) Q :=
  stacked <- lift (torch_stack (epoch_log_probability_actions b)) ;;
  policy_function_loss <-
    lift (calculate_policy_fn_loss stacked
            (as_tensor (epoch_action_returns b))) ;;
  value_function_loss <-
    lift (calculate_value_fn_loss (epoch_action_returns b)
            (epoch_state_value_estimates b)) ;;
  backward Value value_function_loss ;;
  optimizer_step Value ;;
  backward Policy policy_function_loss ;;
  optimizer_step Policy ;;
  zero_grad Value ;;
  zero_grad Policy ;;
  ret (np_mean (epoch_episode_returns b)).

(** The six calls of the update step of [train_one_epoch], in the order of
    the source. *)
Definition update_events (value_loss policy_loss : tensor) : list event :=
  [Backward Value value_loss; OptimizerStep Value;
   Backward Policy policy_loss; OptimizerStep Policy;
   ZeroGrad Value; ZeroGrad Policy].

(** A learner after [loss.backward()], [optimizer.step()] and, later,
    [optimizer.zero_grad()]: the step has seen the gradient of [loss] added
    to what the buffers held, and the buffers are cleared. *)
Definition learner_after_update (l : learner (G:=G) (A:=A)) (loss : tensor)
    : learner (G:=G) (A:=A) :=
  let g := accumulate (grad l) (autograd loss (module l)) in
  mkLearner
    (set_parameters (module l)
       (snd (adam_update (optimizer l) (module l) (Some g))))
    None
    (fst (adam_update (optimizer l) (module l) (Some g))).

(** The batch of an epoch: 0-dimensional log probabilities [lq] and value
    estimates [vq] of as many entries as [vm] has outputs, one of each per
    return, and at least one per episode. *)
Definition batch_of (vm : Sequential) (eps : list episode)
    (lq : list Q) (vq : list (list Q)) : Prop :=
  concat (map ep_log_probabilities eps) = map scalar_tensor lq /\
  concat (map ep_value_estimates eps) = map as_tensor vq /\
  Forall (fun o => length o = out_features (layer2 vm)) vq /\
  length lq = length (concat (map ep_action_returns eps)) /\
  length vq = length (concat (map ep_action_returns eps)) /\
  (length eps <= length lq)%nat.

End Vocabulary.

(** ** Small instances of the collaborators

    Used to run the program on concrete inputs.

    [Toy]: the environment pays reward 1 at every step and reports [done] at
    its [horizon]-th step; sampling picks action 0 and advances the random
    source, and raises when there is no action to pick; the log probability
    is the stand-in [-1]; a gradient is the loss it came from; Adam counts
    its steps and moves the output bias of the module by the gradient; all
    parameters are integers.

    [Faulty]: an environment that raises at a chosen reset or step. *)
Module Toy.

Record env : Type := mkEnv { elapsed : nat; horizon : nat; seeded : Z }.

#[global] Instance gym : Gym env := {|
  gym_make := fun _ => mkEnv 0 1 0;
  env_seed := fun e s => mkEnv (elapsed e) (horizon e) s;
  env_reset := fun e => inr ([0], mkEnv 0 (horizon e) (seeded e));
  env_step := fun e _ =>
    let n := S (elapsed e) in
    inr ([inject_Z (Z.of_nat n)], 1, (horizon e <=? n)%nat,
         mkEnv n (horizon e) (seeded e));
  observation_space_shape0 := fun _ => 1%nat;
  action_space_n := fun _ => 2%nat
|}.

#[global] Instance torch : Torch nat Q nat := {|
  manual_seed := fun s => Z.to_nat s;
  init_parameters := fun _ _ r => ((fun _ _ => 0, fun _ => 1), S r);
  categorical_sample := fun logits r =>
    match logits with
    | [] => inl (RuntimeError "cannot sample from an empty distribution")
    | _ => inr (0%nat, S r)
    end;
  categorical_log_prob := fun _ _ => - (1);
  autograd := fun loss _ => hd 0 (data loss);
  accumulate := fun old g =>
    match old with None => g | Some g0 => Qred (g0 + g) end;
  Adam := fun _ _ => 0%nat;
  adam_update := fun o m g =>
    (S o,
     (fst (get_parameters m),
      (weight (layer2 m),
       fun j => match g with
                | None => bias (layer2 m) j
                | Some d => Qred (bias (layer2 m) j - d)
                end)))
|}.

(** A module with constant output [c] on inputs of length [n]. *)
Definition constant_module (n k : nat) (c : Q) : Sequential :=
  mkSequential (mkLinear n 32 (fun _ _ => 0) (fun _ => 0))
               (mkLinear 32 k (fun _ _ => 0) (fun _ => c)).

(** A world with episodes of [h] steps and a critic that always says [v]. *)
Definition start (h : nat) (v : Q) : @world env nat Q nat :=
  mkWorld (mkEnv 0 h 0) 0%nat
    (mkLearner (constant_module 1 2 0) None 0%nat)
    (mkLearner (constant_module 1 1 v) None 0%nat)
    "" [].


Definition policy_module : Sequential := constant_module 1 2 0.
Definition value_module : Sequential := constant_module 1 1 3.

Definition shape_error : exn :=
  RuntimeError "mat1 and mat2 shapes cannot be multiplied".
Definition empty_error : exn :=
  RuntimeError "cannot sample from an empty distribution".

(** What the two modules give on the first observation. *)
Definition value_estimate : tensor :=
  Eval vm_compute in
    match forward value_module [0] with inr v => v | inl _ => as_tensor [] end.

Definition policy_logits : tensor :=
  Eval vm_compute in
    match forward policy_module [0] with inr v => v | inl _ => as_tensor [] end.

(** One pass through the loop body, in an episode of three steps. *)
Definition step_metrics : metrics :=
  Eval vm_compute in
    match timestep policy_module value_module [0] (mkMetrics [] [] [])
            (start 3 3) with
    | Returned (_, m, _) _ => m
    | _ => mkMetrics [] [] []
    end.

Definition step_world : @world env nat Q nat :=
  Eval vm_compute in
    match timestep policy_module value_module [0] (mkMetrics [] [] [])
            (start 3 3) with
    | Returned _ w => w
    | _ => start 3 3
    end.

(** One episode of three steps. *)
Definition episode_result : episode :=
  Eval vm_compute in
    match run_one_episode 5 policy_module value_module (start 3 3) with
    | Returned ep _ => ep
    | _ => ([], [], [], 0)
    end.

Definition episode_world : @world env nat Q nat :=
  Eval vm_compute in
    match run_one_episode 5 policy_module value_module (start 3 3) with
    | Returned _ w => w
    | _ => start 3 3
    end.

(** One epoch of 200 episodes of one step. *)
Definition epoch_batch : batch :=
  Eval vm_compute in
    match run_episodes 200 1 policy_module value_module
            (mkBatch [] [] [] []) (start 1 3) with
    | Returned b _ => b
    | _ => mkBatch [] [] [] []
    end.

Definition episodes_world : @world env nat Q nat :=
  Eval vm_compute in
    match run_episodes 200 1 policy_module value_module
            (mkBatch [] [] [] []) (start 1 3) with
    | Returned _ w => w
    | _ => start 1 3
    end.

Definition epoch_mean : Q :=
  Eval vm_compute in
    match train_one_epoch 1 (start 1 3) with
    | Returned mean _ => mean
    | _ => 0
    end.

Definition epoch_world : @world env nat Q nat :=
  Eval vm_compute in
    match train_one_epoch 1 (start 1 3) with
    | Returned _ w => w
    | _ => start 1 3
    end.

(** Two epochs of [train]. *)
Definition train_world : @world env nat Q nat :=
  Eval vm_compute in
    match train 1 2 (start 1 3) with
    | Returned _ w => w
    | _ => start 1 3
    end.

End Toy.

Module Faulty.

Record env : Type := mkEnv {
  resets : nat;          (* resets so far *)
  elapsed : nat;         (* steps since the last reset *)
  steps : nat;           (* steps so far *)
  horizon : nat;
  reset_fails_at : nat;  (* the reset that raises *)
  step_fails_at : nat    (* the step that raises *)
}.

#[global] Instance gym : Gym env := {|
  gym_make := fun _ => mkEnv 0 0 0 1 2 1000;
  env_seed := fun e _ => e;
  env_reset := fun e =>
    if (resets e =? reset_fails_at e)%nat
    then inl (ExternalError "reset failed")
    else inr ([0], mkEnv (S (resets e)) 0 (steps e) (horizon e)
                     (reset_fails_at e) (step_fails_at e));
  env_step := fun e _ =>
    if (steps e =? step_fails_at e)%nat
    then inl (ExternalError "step failed")
    else inr ([0], 1, (horizon e <=? S (elapsed e))%nat,
              mkEnv (resets e) (S (elapsed e)) (S (steps e)) (horizon e)
                (reset_fails_at e) (step_fails_at e));
  observation_space_shape0 := fun _ => 1%nat;
  action_space_n := fun _ => 2%nat
|}.

Definition reset_error : exn := ExternalError "reset failed".
Definition step_error : exn := ExternalError "step failed".

(** A world whose environment has episodes of [h] steps and raises at reset
    number [r] and at step number [s], counted from 0. *)
Definition start (h r s : nat) : @world env nat Q nat :=
  mkWorld (mkEnv 0 0 0 h r s) 0%nat
    (mkLearner Toy.policy_module None 0%nat)
    (mkLearner Toy.value_module None 0%nat)
    "" [].

(** An episode of two steps whose second step raises. *)
Definition first_step_metrics : metrics :=
  Eval vm_compute in
    match timestep Toy.policy_module Toy.value_module [0] (mkMetrics [] [] [])
            (start 2 1000 1) with
    | Returned (_, m, _) _ => m
    | _ => mkMetrics [] [] []
    end.

Definition first_step_world : @world env nat Q nat :=
  Eval vm_compute in
    match timestep Toy.policy_module Toy.value_module [0] (mkMetrics [] [] [])
            (start 2 1000 1) with
    | Returned _ w => w
    | _ => start 2 1000 1
    end.

Definition second_step_world : @world env nat Q nat :=
  Eval vm_compute in
    match while_true 1 Toy.policy_module Toy.value_module [0]
            first_step_metrics first_step_world with
    | Raised _ w => w
    | _ => first_step_world
    end.

(** An episode whose first step raises, after its reset. *)
Definition reset_world : @world env nat Q nat :=
  Eval vm_compute in
    match reset (start 1 1000 0) with
    | Returned _ w => w
    | _ => start 1 1000 0
    end.

Definition failed_step_world : @world env nat Q nat :=
  Eval vm_compute in
    match while_true 1 Toy.policy_module Toy.value_module [0]
            (mkMetrics [] [] []) reset_world with
    | Raised _ w => w
    | _ => reset_world
    end.

(** Two episodes, then a reset that raises. *)
Definition two_episodes_batch : batch :=
  Eval vm_compute in
    match run_episodes 2 1 Toy.policy_module Toy.value_module
            (mkBatch [] [] [] []) (start 1 2 1000) with
    | Returned b _ => b
    | _ => mkBatch [] [] [] []
    end.

Definition two_episodes_world : @world env nat Q nat :=
  Eval vm_compute in
    match run_episodes 2 1 Toy.policy_module Toy.value_module
            (mkBatch [] [] [] []) (start 1 2 1000) with
    | Returned _ w => w
    | _ => start 1 2 1000
    end.

(** The world in which the first epoch of [train] raises. *)
Definition train_raised_world : @world env nat Q nat :=
  Eval vm_compute in
    match train_one_epoch 1 (initialised (start 1 2 1000)) with
    | Raised _ w => w
    | _ => start 1 2 1000
    end.

End Faulty.

(** ** The script *)

Section Script.

Context {E R G A : Type} `{Gym E} `{Torch R G A}.

(** The script: [if __name__ == '__main__': train()], with the default
    [epochs=30]. *)
Definition main (fuel : nat) : M (E:=E) (R:=R) (G:=G) (A:=A) unit :=
  train fuel 30.

End Script.

(** ** Vocabulary of the further properties *)

(** One recorded timestep of an episode: the observation the two modules
    were called on, what they gave, and the call on the environment. *)
Record transition : Type := mkTransition {
  t_observation : list Q;
  t_estimate : tensor;
  t_log_probability : tensor;
  t_action : nat;
  t_reward : Q;
  t_done : bool
}.

Definition t_event (t : transition) : event :=
  Step (t_action t) (t_reward t) (t_done t).

Section Rollouts.

Context {E R G A : Type} `{Gym E} `{Torch R G A}.

(** The timestep [t], taken with the environment in state [e] and the random
    source in state [r]: the estimate is the critic's output on the
    observation of [t], the action is sampled from the policy's logits on
    the same observation, the log probability is that of this action under
    these logits, and the environment, stepped with this action, answers
    with the next observation [obs'], the reward and the flag of [t]. *)
Definition transition_ok (pm vm : Sequential) (t : transition)
    (e : E) (r : R) (obs' : list Q) (e' : E) (r' : R) : Prop :=
  exists lg,
    forward vm (t_observation t) = inr (t_estimate t) /\
    forward pm (t_observation t) = inr lg /\
    categorical_sample (data lg) r = inr (t_action t, r') /\
    t_log_probability t =
      scalar_tensor (categorical_log_prob (data lg) (t_action t)) /\
    env_step e (t_action t) = inr (obs', t_reward t, t_done t, e').

(** A rollout from the observation [obs]: timesteps taken one after the
    other, each on the observation the step before it returned, up to and
    including the first one that reports done. *)
Inductive rollout (pm vm : Sequential)
    : list Q -> E -> R -> list transition -> E -> R -> Prop :=
| rollout_last : forall t e r obs' e' r',
    transition_ok pm vm t e r obs' e' r' ->
    t_done t = true ->
    rollout pm vm (t_observation t) e r [t] e' r'
| rollout_next : forall t ts e r obs' e' r' e'' r'',
    transition_ok pm vm t e r obs' e' r' ->
    t_done t = false ->
    rollout pm vm obs' e' r' ts e'' r'' ->
    rollout pm vm (t_observation t) e r (t :: ts) e'' r''.

(** The metrics of [run_one_episode] after the timesteps [ts]. *)
Definition record_all (m : metrics) (ts : list transition) : metrics :=
  mkMetrics (rewards m ++ map t_reward ts)
    (state_value_estimates m ++ map t_estimate ts)
    (log_probability_actions m ++ map t_log_probability ts).

(** What [run_one_episode] returns after the timesteps [ts]. *)
Definition episode_of (ts : list transition) : episode :=
  (repeat (py_sum (map t_reward ts)) (length ts),
   map t_log_probability ts, map t_estimate ts,
   py_sum (map t_reward ts)).

(** The world after an episode: the environment and the random source as the
    rollout left them, the calls of the episode added to the trace, all the
    rest as it was. *)
Definition after_episode (w : @world E R G A) (e : E) (r : R)
    (ts : list transition) : @world E R G A :=
  mkWorld e r (w_policy w) (w_value w) (w_stdout w)
    (w_trace w ++ Reset :: map t_event ts).

(** [w'] differs from [w] at most in the environment, the random source and
    calls on the environment added to the trace. *)
Definition environment_calls_only (w w' : @world E R G A) : Prop :=
  w_policy w' = w_policy w /\ w_value w' = w_value w /\
  w_stdout w' = w_stdout w /\
  exists tr, w_trace w' = w_trace w ++ tr /\ forallb is_env_event tr = true.

End Rollouts.

Definition is_backward (r : role) (ev : event) : bool :=
  match ev with Backward r' _ => role_eqb r r' | _ => false end.

Definition is_optimizer_step (r : role) (ev : event) : bool :=
  match ev with OptimizerStep r' => role_eqb r r' | _ => false end.

Definition is_zero_grad (r : role) (ev : event) : bool :=
  match ev with ZeroGrad r' => role_eqb r r' | _ => false end.

(** How many events of a trace satisfy [p]. *)
Definition count_events (p : event -> bool) (tr : list event) : nat :=
  length (filter p tr).

Section Endings.

Context {E R G A : Type} `{Gym E} `{Torch R G A}.

(** The world a run ends in, returning or raising, satisfies [P]. *)
Definition ends_in {T} (P : @world E R G A -> Prop)
    (o : outcome (E:=E) (R:=R) (G:=G) (A:=A) T) : Prop :=
  match o with
  | Returned _ w' => P w'
  | Raised _ w' => P w'
  | Diverged => True
  end.

(** A computation that, however it ends, has changed nothing but the
    environment and the random source, and has added only calls on the
    environment to the trace. *)
Definition rollout_only {T} (c : M (E:=E) (R:=R) (G:=G) (A:=A) T) : Prop :=
  forall w, ends_in (environment_calls_only w) (c w).

End Endings.

(** ** Further instances and runs *)

(** [Endless]: an environment that never reports done. *)
Module Endless.

#[global] Instance gym : Gym nat := {|
  gym_make := fun _ => 0%nat;
  env_seed := fun e _ => e;
  env_reset := fun e => inr ([0], e);
  env_step := fun e _ => inr ([0], 1, false, S e);
  observation_space_shape0 := fun _ => 1%nat;
  action_space_n := fun _ => 2%nat
|}.

Definition start : @world nat nat Q nat :=
  mkWorld 0%nat 0%nat
    (mkLearner Toy.policy_module None 0%nat)
    (mkLearner Toy.value_module None 0%nat)
    "" [].

End Endless.

Module Runs.

(** The one timestep of an episode of [Toy.start 1 3]. *)
Definition only_step : transition :=
  mkTransition [0] Toy.value_estimate (scalar_tensor (- (1))) 0 1 true.

(** A world whose critic has two outputs. *)
Definition wide_critic_world : @world Toy.env nat Q nat :=
  mkWorld (Toy.mkEnv 0 1 0) 0%nat
    (mkLearner Toy.policy_module None 0%nat)
    (mkLearner (Toy.constant_module 1 2 3) None 0%nat)
    "" [].

(** The first epoch of [train]. *)
Definition first_epoch_mean : Q :=
  Eval vm_compute in
    match train_one_epoch 1 (initialised (Toy.start 1 3)) with
    | Returned mean _ => mean
    | _ => 0
    end.

Definition first_epoch_world : @world Toy.env nat Q nat :=
  Eval vm_compute in
    match train_one_epoch 1 (initialised (Toy.start 1 3)) with
    | Returned _ w => w
    | _ => Toy.start 1 3
    end.




(** A world of the [Toy] collaborators in which every episode has one step
    and both modules accept its observations. *)
Definition ready (w : @world Toy.env nat Q nat) : Prop :=
  Toy.horizon (w_env w) = 1%nat /\
  (in_features (layer1 (module (w_policy w))) = 1%nat /\
   out_features (layer1 (module (w_policy w)))
     = in_features (layer2 (module (w_policy w))) /\
   out_features (layer2 (module (w_policy w))) <> 0%nat) /\
  (in_features (layer1 (module (w_value w))) = 1%nat /\
   out_features (layer1 (module (w_value w)))
     = in_features (layer2 (module (w_value w))) /\
   out_features (layer2 (module (w_value w))) = 1%nat).

End Runs.

(** * Proofs *)

(** ** Arithmetic of sums *)

Lemma fold_left_Qplus_acc (l : list Q) (a : Q) :
  fold_left Qplus l a == a + Qsum l.
Proof.
  revert a; induction l as [|x l IH]; intros a; simpl.
  - ring.
  - rewrite IH. ring.
Qed.

Lemma py_sum_Qsum (l : list Q) : py_sum l == Qsum l.
Proof. unfold py_sum. rewrite fold_left_Qplus_acc. ring. Qed.

Lemma np_mean_Qmean (l : list Q) : np_mean l == Qmean l.
Proof. unfold np_mean, Qmean. rewrite py_sum_Qsum. reflexivity. Qed.

Lemma Qsum_app (l m : list Q) : Qsum (l ++ m) == Qsum l + Qsum m.
Proof. induction l as [|x l IH]; simpl; [ring | rewrite IH; ring]. Qed.

Lemma py_sum_snoc (l : list Q) (x : Q) : py_sum (l ++ [x]) = py_sum l + x.
Proof. unfold py_sum. rewrite fold_left_app. reflexivity. Qed.

(** ** The monad *)

Section MonadFacts.

Context {E R G A : Type} `{Gym E} `{Torch R G A}.

Lemma bind_Returned {T U} (c : M T) (k : T -> M U) (w w1 : @world E R G A) a :
  c w = Returned a w1 -> bind c k w = k a w1.
Proof. intros Hc; unfold bind; rewrite Hc; reflexivity. Qed.

Lemma bind_Raised {T U} (c : M T) (k : T -> M U) (w w1 : @world E R G A) e :
  c w = Raised e w1 -> bind c k w = Raised e w1.
Proof. intros Hc; unfold bind; rewrite Hc; reflexivity. Qed.


Lemma bind_inv {T U} (c : M T) (k : T -> M U) (w w2 : @world E R G A) b :
  bind c k w = Returned b w2 ->
  exists a w1, c w = Returned a w1 /\ k a w1 = Returned b w2.
Proof.
  unfold bind; intros Hb.
  destruct (c w) as [a w1|e w1|] eqn:Hc; try discriminate.
  exists a, w1; split; [reflexivity | exact Hb].
Qed.

Lemma bind_inv_Raised {T U} (c : M T) (k : T -> M U) (w w2 : @world E R G A) e :
  bind c k w = Raised e w2 ->
  c w = Raised e w2 \/
  exists a w1, c w = Returned a w1 /\ k a w1 = Raised e w2.
Proof.
  unfold bind; intros Hb.
  destruct (c w) as [a w1|e1 w1|] eqn:Hc; try discriminate.
  - right; exists a, w1; split; [reflexivity | exact Hb].
  - left; inversion Hb; subst; reflexivity.
Qed.

Lemma lift_inv {T} (x : exn + T) (w w1 : @world E R G A) a :
  lift x w = Returned a w1 -> x = inr a /\ w1 = w.
Proof.
  unfold lift; destruct x as [e|y]; intros Hl; inversion Hl; subst; auto.
Qed.

Lemma lift_run {T} (x : exn + T) (a : T) (w : @world E R G A) :
  x = inr a -> lift x w = Returned a w.
Proof. intros ->. reflexivity. Qed.

End MonadFacts.

(** ** The episode roller *)

Section EpisodeFacts.

Context {E R G A : Type} `{Gym E} `{Torch R G A}.

Implicit Types (w : @world E R G A) (m : metrics) (pm vm : Sequential).

(** One pass through the loop body that returns: what was called and what
    was recorded. *)
Lemma timestep_inv pm vm obs m w obs' m' done w' :
  timestep pm vm obs m w = Returned (obs', m', done) w' ->
  exists v lg a rng' r env',
    forward vm obs = inr v /\
    forward pm obs = inr lg /\
    categorical_sample (data lg) (w_rng w) = inr (a, rng') /\
    env_step (w_env w) a = inr (obs', r, done, env') /\
    m' = mkMetrics (rewards m ++ [r]) (state_value_estimates m ++ [v])
           (log_probability_actions m
            ++ [scalar_tensor (categorical_log_prob (data lg) a)]) /\
    w' = log (Step a r done) (set_env env' (set_rng rng' w)).
Proof.
  unfold timestep, get_policy, get_action, sample, step, bind, lift, ret.
  intros Ht.
  destruct (forward vm obs) as [e|v] eqn:Hv; try discriminate.
  destruct (forward pm obs) as [e|lg] eqn:Hp; try discriminate.
  simpl in Ht.
  destruct (categorical_sample (data lg) (w_rng w)) as [e|[a rng']] eqn:Hs;
    try discriminate.
  simpl in Ht.
  destruct (env_step (w_env w) a) as [e|[[[o r] d] env']] eqn:He;
    try discriminate.
  inversion Ht; subst.
  exists v, lg, a, rng', r, env'. repeat split; assumption.
Qed.

Lemma timestep_run pm vm obs m w v lg a rng' obs' r done env' :
  forward vm obs = inr v ->
  forward pm obs = inr lg ->
  categorical_sample (data lg) (w_rng w) = inr (a, rng') ->
  env_step (w_env w) a = inr (obs', r, done, env') ->
  timestep pm vm obs m w =
  Returned
    (obs',
     mkMetrics (rewards m ++ [r]) (state_value_estimates m ++ [v])
       (log_probability_actions m
        ++ [scalar_tensor (categorical_log_prob (data lg) a)]),
     done)
    (log (Step a r done) (set_env env' (set_rng rng' w))).
Proof.
  intros Hv Hp Hs He.
  unfold timestep, get_policy, get_action, sample, step, bind, lift, ret.
  rewrite Hv, Hp. simpl. rewrite Hs. simpl. rewrite He. reflexivity.
Qed.

Lemma forward_inv vm obs v :
  forward vm obs = inr v ->
  exists out, v = as_tensor out /\ length out = out_features (layer2 vm).
Proof.
  unfold forward, bind_exn, linear_forward. intros Hf.
  destruct (length obs =? in_features (layer1 vm))%nat; try discriminate.
  destruct (length _ =? in_features (layer2 vm))%nat; try discriminate.
  inversion Hf; subst. eexists; split; [reflexivity|].
  rewrite length_map, length_seq. reflexivity.
Qed.

Lemma forward_shape vm obs v :
  forward vm obs = inr v -> shape v = [out_features (layer2 vm)].
Proof.
  intros Hf. apply forward_inv in Hf. destruct Hf as (out & -> & Hl).
  simpl. rewrite Hl. reflexivity.
Qed.

Lemma rewards_of_app (tr1 tr2 : list event) :
  rewards_of (tr1 ++ tr2) = rewards_of tr1 ++ rewards_of tr2.
Proof. unfold rewards_of. apply flat_map_app. Qed.

Lemma grown_one vm m a r done out l :
  length out = out_features (layer2 vm) ->
  grown vm m
    (mkMetrics (rewards m ++ [r]) (state_value_estimates m ++ [as_tensor out])
       (log_probability_actions m ++ [scalar_tensor l]))
    [Step a r done].
Proof.
  intros Hv. exists [out], [l]. simpl.
  repeat split; auto.
Qed.

Lemma grown_cons vm m m1 m' a r done tr :
  grown vm m m1 [Step a r done] -> grown vm m1 m' tr ->
  grown vm m m' (Step a r done :: tr).
Proof.
  intros (vs1 & ls1 & Hr1 & Hv1 & Hl1 & Lv1 & Ll1 & Lr1 & _ & Fv1)
         (vs2 & ls2 & Hr2 & Hv2 & Hl2 & Lv2 & Ll2 & Lr2 & S2 & Fv2).
  exists (vs1 ++ vs2), (ls1 ++ ls2).
  change (Step a r done :: tr) with ([Step a r done] ++ tr).
  rewrite rewards_of_app, Hr2, Hr1, Hv2, Hv1, Hl2, Hl1.
  rewrite !map_app, !app_assoc, !length_app, Lv1, Lv2, Ll1, Ll2, Lr1, Lr2.
  repeat split; auto.
  apply Forall_app; auto.
Qed.

(** The loop, when it returns, has made at least one step; it touches the
    environment, the random source and the trace only. *)
Lemma while_true_inv fuel pm vm : forall obs m w m' w',
  while_true fuel pm vm obs m w = Returned m' w' ->
  exists tr,
    tr <> [] /\ w_trace w' = w_trace w ++ tr /\ grown vm m m' tr /\
    w_policy w' = w_policy w /\ w_value w' = w_value w /\
    w_stdout w' = w_stdout w.
Proof.
  induction fuel as [|fuel IH]; intros obs m w m' w' Hw; simpl in Hw.
  - discriminate.
  - apply bind_inv in Hw. destruct Hw as ([[obs1 m1] done] & w1 & Ht & Hk).
    apply timestep_inv in Ht.
    destruct Ht
      as (v & lg & a & rng' & r & env' & Hv & Hp & Hs & He & Hm & Hw1).
    assert (G1 : grown vm m m1 [Step a r done]).
    { apply forward_inv in Hv. destruct Hv as (out & -> & Hout).
      subst m1. apply grown_one. exact Hout. }
    destruct done.
    + inversion Hk; subst m' w'. exists [Step a r true].
      subst w1. simpl. repeat split; auto. discriminate.
    + apply IH in Hk. destruct Hk as (tr & _ & Htr & Gr & Hpo & Hva & Hso).
      exists (Step a r false :: tr). subst w1. simpl in *.
      rewrite Htr, <- app_assoc. simpl.
      repeat split; auto; try discriminate.
      eapply grown_cons; eauto.
Qed.

(** [run_one_episode], when it returns: one reset, then the steps of the
    loop; the returns are computed from the rewards of these steps. *)
Lemma run_one_episode_inv fuel pm vm w ep w' :
  run_one_episode fuel pm vm w = Returned ep w' ->
  exists m tr,
    tr <> [] /\ w_trace w' = w_trace w ++ Reset :: tr /\
    grown vm (mkMetrics [] [] []) m tr /\
    ep = (repeat (py_sum (rewards m)) (length (rewards m)),
          log_probability_actions m, state_value_estimates m,
          py_sum (rewards m)) /\
    w_policy w' = w_policy w /\ w_value w' = w_value w /\
    w_stdout w' = w_stdout w.
Proof.
  unfold run_one_episode. intros Hr.
  apply bind_inv in Hr. destruct Hr as (obs & w0 & Hreset & Hr).
  apply bind_inv in Hr. destruct Hr as (m & w1 & Hloop & Hr).
  inversion Hr; subst ep w1.
  unfold reset in Hreset.
  destruct (env_reset (w_env w)) as [e|[o env']]; try discriminate.
  inversion Hreset; subst obs w0.
  apply while_true_inv in Hloop.
  destruct Hloop as (tr & Hne & Htr & Gr & Hpo & Hva & Hso).
  exists m, tr. simpl in *. rewrite Htr, <- app_assoc. simpl.
  repeat split; auto.
Qed.

End EpisodeFacts.

Section EpisodeClaims.

Context {E R G A : Type} `{Gym E} `{Torch R G A}.

Implicit Types (w : @world E R G A) (m : metrics) (pm vm : Sequential).

(** More fuel does not change what the loop returns. *)
Lemma while_true_more_fuel fuel pm vm : forall obs m w m' w',
  while_true fuel pm vm obs m w = Returned m' w' ->
  while_true (S fuel) pm vm obs m w = Returned m' w'.
Proof.
  induction fuel as [|fuel IH]; intros obs m w m' w' Hw.
  - discriminate.
  - change (while_true (S fuel) pm vm obs m w) with
      (bind (timestep pm vm obs m)
         (fun x => let '(observation, m0, done) := x in
                   if done then ret m0
                   else while_true fuel pm vm observation m0) w) in Hw.
    change (while_true (S (S fuel)) pm vm obs m w) with
      (bind (timestep pm vm obs m)
         (fun x => let '(observation, m0, done) := x in
                   if done then ret m0
                   else while_true (S fuel) pm vm observation m0) w).
    apply bind_inv in Hw. destruct Hw as ([[obs1 m1] done] & w1 & Ht & Hk).
    rewrite (bind_Returned _ _ _ _ _ Ht).
    destruct done; [exact Hk | apply IH; exact Hk].
Qed.

Lemma run_one_episode_more_fuel fuel pm vm w ep w' :
  run_one_episode fuel pm vm w = Returned ep w' ->
  run_one_episode (S fuel) pm vm w = Returned ep w'.
Proof.
  unfold run_one_episode. intros Hr.
  apply bind_inv in Hr. destruct Hr as (obs & w0 & Hreset & Hr).
  apply bind_inv in Hr. destruct Hr as (m & w1 & Hloop & Hr).
  rewrite (bind_Returned _ _ _ _ _ Hreset).
  apply while_true_more_fuel in Hloop.
  rewrite (bind_Returned _ _ _ _ _ Hloop).
  exact Hr.
Qed.

(** What an episode returns does not depend on the bound on its loop. *)
Lemma run_one_episode_any_more_fuel fuel pm vm w ep w' (extra : nat) :
  run_one_episode fuel pm vm w = Returned ep w' ->
  run_one_episode (extra + fuel) pm vm w = Returned ep w'.
Proof.
  intros Hr. induction extra as [|extra IH]; [exact Hr|].
  apply run_one_episode_more_fuel. exact IH.
Qed.

(** An episode whose first step reports [done]. *)
Lemma run_one_episode_first_step_done fuel pm vm w
    obs env1 v lg a rng1 obs1 r env2 :
  env_reset (w_env w) = inr (obs, env1) ->
  forward vm obs = inr v ->
  forward pm obs = inr lg ->
  categorical_sample (data lg) (w_rng w) = inr (a, rng1) ->
  env_step env1 a = inr (obs1, r, true, env2) ->
  run_one_episode (S fuel) pm vm w =
  Returned
    ([0 + r], [scalar_tensor (categorical_log_prob (data lg) a)], [v], 0 + r)
    (log (Step a r true)
       (set_env env2 (set_rng rng1 (log Reset (set_env env1 w))))).
Proof.
  intros Hreset Hv Hp Hs He.
  unfold run_one_episode.
  assert (Hr : reset w = Returned obs (log Reset (set_env env1 w))).
  { unfold reset. rewrite Hreset. reflexivity. }
  rewrite (bind_Returned _ _ _ _ _ Hr).
  simpl while_true.
  erewrite bind_Returned.
  2:{ erewrite bind_Returned.
      2:{ apply timestep_run; simpl; eauto. }
      simpl. reflexivity. }
  reflexivity.
Qed.

(** C2.  Every episode the roller returns has made a non-empty sequence of
    steps; the per-timestep returns are as many as the steps, each of them is
    the reported episode return, and the episode return is the sum of all the
    rewards the environment paid in these steps.  A larger bound on the loop
    gives the same episode. *)
Theorem run_one_episode_broadcasts_return fuel pm vm w ep w' :
  run_one_episode fuel pm vm w = Returned ep w' ->
  (forall extra,
     run_one_episode (extra + fuel) pm vm w = Returned ep w') /\
  exists steps,
    w_trace w' = w_trace w ++ Reset :: steps /\
    forallb is_step steps = true /\
    rewards_of steps <> [] /\
    length (rewards_of steps) = length steps /\
    length (ep_action_returns ep) = length steps /\
    Forall (fun x => x = ep_return ep) (ep_action_returns ep) /\
    ep_return ep = py_sum (rewards_of steps) /\
    ep_return ep == Qsum (rewards_of steps).
Proof.
  intros Hr. split.
  { intros extra. apply run_one_episode_any_more_fuel. exact Hr. }
  apply run_one_episode_inv in Hr.
  destruct Hr as (m & tr & Hne & Htr & Gr & Hep & _).
  destruct Gr as (vs & ls & Hrw & _ & _ & _ & _ & Lr & St & _).
  simpl in Hrw. exists tr. subst ep.
  unfold ep_action_returns, ep_return; simpl. rewrite Hrw.
  repeat split; auto.
  - intros Hnil. apply Hne. apply length_zero_iff_nil.
    rewrite <- Lr, Hnil. reflexivity.
  - rewrite repeat_length. exact Lr.
  - apply Forall_forall. intros x Hx. apply repeat_spec in Hx. exact Hx.
  - apply py_sum_Qsum.
Qed.

(** C10.  Every episode the roller returns has at least one trajectory step
    and its three sequences have one length; each pass through the loop body
    adds exactly one entry to each of the three lists; and an environment
    that reports done on the very first step gives an episode of exactly one
    step. *)
Theorem run_one_episode_nonempty_equal_lengths fuel pm vm w :
  (forall ep w',
     run_one_episode fuel pm vm w = Returned ep w' ->
     (1 <= length (ep_action_returns ep))%nat /\
     length (ep_log_probabilities ep) = length (ep_action_returns ep) /\
     length (ep_value_estimates ep) = length (ep_action_returns ep)) /\
  (forall obs m obs' m' done w',
     timestep pm vm obs m w = Returned (obs', m', done) w' ->
     length (rewards m') = S (length (rewards m)) /\
     length (log_probability_actions m') =
       S (length (log_probability_actions m)) /\
     length (state_value_estimates m') =
       S (length (state_value_estimates m))) /\
  (forall obs env1 v lg a rng1 obs1 r env2,
     env_reset (w_env w) = inr (obs, env1) ->
     forward vm obs = inr v ->
     forward pm obs = inr lg ->
     categorical_sample (data lg) (w_rng w) = inr (a, rng1) ->
     env_step env1 a = inr (obs1, r, true, env2) ->
     exists w',
       run_one_episode (S fuel) pm vm w =
       Returned
         ([0 + r], [scalar_tensor (categorical_log_prob (data lg) a)], [v],
          0 + r) w').
Proof.
  split; [|split].
  - intros ep w' Hr. apply run_one_episode_inv in Hr.
    destruct Hr as (m & tr & Hne & _ & Gr & Hep & _).
    destruct Gr as (vs & ls & Hrw & Hvs & Hls & Lv & Ll & Lr & _).
    simpl in Hrw, Hvs, Hls. subst ep.
    unfold ep_action_returns, ep_log_probabilities, ep_value_estimates; simpl.
    rewrite repeat_length, Hrw, Hvs, Hls, !length_map, Lv, Ll, Lr.
    repeat split; auto.
    destruct tr; [contradiction | simpl; lia].
  - intros obs m obs' m' done w' Ht. apply timestep_inv in Ht.
    destruct Ht as (v & lg & a & rng' & r & env' & _ & _ & _ & _ & Hm & _).
    subst m'. simpl. rewrite !length_app. simpl. lia.
  - intros obs env1 v lg a rng1 obs1 r env2 Hreset Hv Hp Hs He.
    eexists. eapply run_one_episode_first_step_done; eauto.
Qed.

End EpisodeClaims.

(** ** Tensors and the loss calculators *)

Lemma map2_length {X Y Z} (f : X -> Y -> Z) (l : list X) (m : list Y) :
  length l = length m -> length (map2 f l m) = length l.
Proof.
  revert m; induction l as [|x l IH]; intros [|y m] Hl; simpl in *;
    try discriminate; auto.
Qed.

Lemma concat_singletons (d : list Q) : concat (map (fun x => [x]) d) = d.
Proof. induction d as [|x d IH]; simpl; [|rewrite IH]; reflexivity. Qed.

Lemma chunks_one (d : list Q) :
  chunks 1 (length d) d = map (fun x => [x]) d.
Proof. induction d as [|x d IH]; simpl; [|rewrite IH]; reflexivity. Qed.

(** A 1-D tensor needs no expansion to its own shape. *)
Lemma expand_vector (n : nat) (d : list Q) :
  length d = n -> expand [n] [n] d = d.
Proof.
  intros <-. simpl. rewrite Nat.eqb_refl, chunks_one, map_map. simpl.
  apply concat_singletons.
Qed.

Lemma broadcast_shapes_vector (n : nat) : broadcast_shapes [n] [n] = Some [n].
Proof. unfold broadcast_shapes. simpl. rewrite Nat.eqb_refl. reflexivity. Qed.

Lemma broadcast_op_vectors (f : Q -> Q -> Q) (l r : list Q) :
  length l = length r ->
  broadcast_op f (as_tensor l) (as_tensor r) =
  inr (mkTensor [length l] (map2 f l r)).
Proof.
  intros Hl. unfold broadcast_op, as_tensor. cbn [shape data].
  rewrite <- Hl, broadcast_shapes_vector.
  unfold pad_shape. cbn [length Nat.sub repeat app].
  rewrite !expand_vector by auto.
  reflexivity.
Qed.

(** Stacking 0-dimensional tensors gives the 1-D tensor of their entries. *)
Lemma torch_stack_scalars (l : list Q) :
  l <> [] -> torch_stack (map scalar_tensor l) = inr (as_tensor l).
Proof.
  destruct l as [|x l]; [congruence|]. intros _.
  unfold torch_stack. cbn [map].
  replace (forallb _ (map scalar_tensor l)) with true.
  - unfold as_tensor. cbn [shape]. f_equal. f_equal.
    + cbn [length]. rewrite length_map. reflexivity.
    + change (scalar_tensor x :: map scalar_tensor l)
        with (map scalar_tensor (x :: l)).
      rewrite map_map. exact (concat_singletons (x :: l)).
  - symmetry. apply forallb_forall. intros t Ht.
    apply in_map_iff in Ht. destruct Ht as (y & <- & _). reflexivity.
Qed.

(** The policy loss on two 1-D tensors of one length. *)
Lemma calculate_policy_fn_loss_vectors (lp rs : list Q) :
  length lp = length rs ->
  calculate_policy_fn_loss (as_tensor lp) (as_tensor rs) =
  inr (scalar_tensor
         (- (py_sum (map2 Qmult lp rs) / Qlen (map2 Qmult lp rs)))).
Proof.
  intros Hl. unfold calculate_policy_fn_loss, tensor_mul.
  rewrite broadcast_op_vectors by exact Hl. reflexivity.
Qed.


(** The policy loss of a non-empty batch, given as 1-D tensors or as the
    stacked 0-dimensional log probabilities of the epoch. *)
Lemma policy_loss_of_batch (lp rs : list Q) :
  lp <> [] -> length lp = length rs ->
  exists loss,
    calculate_policy_fn_loss (as_tensor lp) (as_tensor rs)
      = inr (scalar_tensor loss) /\
    bind_exn (torch_stack (map scalar_tensor lp))
      (fun stacked => calculate_policy_fn_loss stacked (as_tensor rs))
      = inr (scalar_tensor loss) /\
    loss == - (Qsum (map2 Qmult lp rs) / Qlen lp) /\
    loss == - Qmean (map2 Qmult lp rs).
Proof.
  intros Hne Hl.
  exists (- (py_sum (map2 Qmult lp rs) / Qlen (map2 Qmult lp rs))).
  assert (HN : Qlen (map2 Qmult lp rs) = Qlen lp).
  { unfold Qlen. rewrite map2_length by exact Hl. reflexivity. }
  repeat split.
  - apply calculate_policy_fn_loss_vectors; exact Hl.
  - rewrite torch_stack_scalars by exact Hne. cbn [bind_exn].
    apply calculate_policy_fn_loss_vectors; exact Hl.
  - rewrite HN, py_sum_Qsum. reflexivity.
  - unfold Qmean. rewrite py_sum_Qsum. reflexivity.
Qed.

(** C3.  On a non-empty batch of log probabilities and as many returns, the
    policy loss is the negated arithmetic mean, over all the timesteps of the
    batch, of log probability times return; this holds for the 1-D tensors
    the function is given and for the stacked 0-dimensional log probabilities
    the epoch passes.  For the batch of the single timestep with log
    probability -0.5 and return 2.0 the loss is 1. *)
Theorem calculate_policy_fn_loss_negated_mean (lp rs : list Q) :
  lp <> [] -> length lp = length rs ->
  exists loss,
    calculate_policy_fn_loss (as_tensor lp) (as_tensor rs)
      = inr (scalar_tensor loss) /\
    bind_exn (torch_stack (map scalar_tensor lp))
      (fun stacked => calculate_policy_fn_loss stacked (as_tensor rs))
      = inr (scalar_tensor loss) /\
    loss == - (Qsum (map2 Qmult lp rs) / Qlen lp) /\
    loss == - Qmean (map2 Qmult lp rs) /\
    calculate_policy_fn_loss (as_tensor [- (1 # 2)]) (as_tensor [2])
      = inr (scalar_tensor (- ((0 + - (1 # 2) * 2) / 1))) /\
    - ((0 + - (1 # 2) * 2) / 1) == 1.
Proof.
  intros Hne Hl.
  destruct (policy_loss_of_batch lp rs Hne Hl) as (loss & H1 & H2 & H3 & H4).
  exists loss. repeat split; assumption.
Qed.

(** *** Estimates of shape [1]: the broadcast of [N, 1] against [N] *)

Lemma map2_app {X Y Z} (f : X -> Y -> Z) (l1 l2 : list X) (m1 m2 : list Y) :
  length l1 = length m1 ->
  map2 f (l1 ++ l2) (m1 ++ m2) = map2 f l1 m1 ++ map2 f l2 m2.
Proof.
  revert m1; induction l1 as [|x l1 IH]; intros [|y m1] Hl; simpl in *;
    try discriminate; auto.
  rewrite IH by lia. reflexivity.
Qed.

Lemma map2_repeat_left (f : Q -> Q -> Q) (x : Q) (rs : list Q) :
  map2 f (repeat x (length rs)) rs = map (f x) rs.
Proof. induction rs as [|r rs IH]; simpl; [|rewrite IH]; reflexivity. Qed.

Lemma concat_repeat_singleton (x : Q) (n : nat) :
  concat (repeat [x] n) = repeat x n.
Proof. induction n as [|n IH]; simpl; [|rewrite IH]; reflexivity. Qed.

Lemma expand_one_to_n (x : Q) (n : nat) : expand [1%nat] [n] [x] = repeat x n.
Proof.
  destruct n as [|[|n]]; simpl; try reflexivity.
  rewrite concat_repeat_singleton. reflexivity.
Qed.

Lemma expand_cons (x y : nat) (s t : list nat) (d : list Q) :
  expand (x :: s) (y :: t) d =
  if (x =? y)%nat then concat (map (expand s t) (chunks (numel s) x d))
  else concat (repeat (hd [] (map (expand s t) (chunks (numel s) x d))) y).
Proof. reflexivity. Qed.

(** A column [N, 1] expanded to [N, n]: every entry repeated along its row. *)
Lemma expand_column (n : nat) (d : list Q) :
  expand [length d; 1%nat] [length d; n] d = flat_map (fun x => repeat x n) d.
Proof.
  rewrite expand_cons, Nat.eqb_refl.
  change (numel [1%nat]) with 1%nat. rewrite chunks_one, map_map.
  rewrite flat_map_concat_map. f_equal.
  apply map_ext. intros x. apply expand_one_to_n.
Qed.

(** A row [1, n] expanded to [N, n]: the row repeated [N] times. *)
Lemma expand_row (k : nat) (r : list Q) :
  expand [1%nat; length r] [k; length r] r = concat (repeat r k).
Proof.
  rewrite expand_cons. cbn [numel fold_right]. rewrite Nat.mul_1_r.
  cbn [chunks map hd]. rewrite firstn_all, expand_vector by reflexivity.
  destruct (Nat.eqb_spec 1 k) as [<-|_]; [simpl; rewrite app_nil_r|];
    reflexivity.
Qed.

Lemma broadcast_shapes_column_row (k n : nat) :
  broadcast_shapes [k; 1%nat] [n] = Some [k; n].
Proof.
  unfold broadcast_shapes. destruct n as [|[|n]]; reflexivity.
Qed.

Lemma all_pairs_data (f : Q -> Q -> Q) (vs rs : list Q) :
  map2 f (flat_map (fun x => repeat x (length rs)) vs)
         (concat (repeat rs (length vs)))
  = flat_map (fun v => map (f v) rs) vs.
Proof.
  induction vs as [|v vs IH]; simpl; [reflexivity|].
  rewrite map2_app by apply repeat_length.
  rewrite map2_repeat_left, IH. reflexivity.
Qed.

Lemma torch_stack_singletons (vs : list Q) :
  vs <> [] ->
  torch_stack (map (fun v => as_tensor [v]) vs) =
  inr (mkTensor [length vs; 1%nat] vs).
Proof.
  destruct vs as [|x vs]; [congruence|]. intros _.
  unfold torch_stack. cbn [map].
  replace (forallb _ (map _ vs)) with true.
  - f_equal. f_equal.
    + cbn [length]. rewrite length_map. reflexivity.
    + change (as_tensor [x] :: map (fun v => as_tensor [v]) vs)
        with (map (fun v => as_tensor [v]) (x :: vs)).
      rewrite map_map. exact (concat_singletons (x :: vs)).
  - symmetry. apply forallb_forall. intros t Ht.
    apply in_map_iff in Ht. destruct Ht as (y & <- & _). reflexivity.
Qed.

(** Subtracting [N] returns from [N] estimates of shape [1] gives the
    [N] x [N] table of the differences of every estimate with every return. *)
Lemma tensor_sub_column_row (vs rs : list Q) :
  tensor_sub (mkTensor [length vs; 1%nat] vs) (as_tensor rs) =
  inr (mkTensor [length vs; length rs]
         (flat_map (fun v => map (Qminus v) rs) vs)).
Proof.
  unfold tensor_sub, broadcast_op, as_tensor. cbn [shape data].
  rewrite broadcast_shapes_column_row.
  unfold pad_shape. cbn [length Nat.sub repeat app].
  rewrite expand_column, expand_row, all_pairs_data. reflexivity.
Qed.

(** The value loss on estimates of shape [1], as a module of one output
    gives them: the mean over all pairs of an estimate and a return. *)
Lemma calculate_value_fn_loss_all_pairs (rs vs : list Q) :
  vs <> [] ->
  exists loss,
    calculate_value_fn_loss rs (map (fun v => as_tensor [v]) vs)
      = inr (scalar_tensor loss) /\
    loss ==
      Qsum (flat_map (fun v => map (fun r => (v - r) ^ 2) rs) vs)
      / (Qlen vs * Qlen rs).
Proof.
  intros Hne. unfold calculate_value_fn_loss.
  rewrite torch_stack_singletons by exact Hne. cbn [bind_exn].
  rewrite tensor_sub_column_row. cbn [bind_exn].
  eexists; split; [reflexivity|].
  unfold tensor_square. cbn [data].
  rewrite py_sum_Qsum.
  assert (Hd : map (fun x => x ^ 2) (flat_map (fun v => map (Qminus v) rs) vs)
               = flat_map (fun v => map (fun r => (v - r) ^ 2) rs) vs).
  { rewrite !flat_map_concat_map, concat_map, map_map. f_equal.
    apply map_ext. intros v. rewrite map_map. reflexivity. }
  rewrite Hd.
  assert (HN : Qlen (flat_map (fun v => map (fun r => (v - r) ^ 2) rs) vs)
               == Qlen vs * Qlen rs).
  { unfold Qlen. rewrite <- inject_Z_mult, <- Nat2Z.inj_mul.
    assert (HL : length (flat_map (fun v => map (fun r => (v - r) ^ 2) rs) vs)
                 = (length vs * length rs)%nat).
    { clear. induction vs as [|v vs IH]; cbn [flat_map]; [reflexivity|].
      rewrite length_app, length_map, IH. reflexivity. }
    rewrite HL. reflexivity. }
  rewrite HN. reflexivity.
Qed.

(** C4.  At the estimates the critic gives -- a module of one output returns
    a tensor of shape [1] -- the value loss is not the mean squared error:
    for the estimates [1] and [2] against the returns 1 and 2, every estimate
    equal to its return, the code gives 2/4, not 0.  On 0-dimensional
    estimates the same call gives 0. *)
Theorem calculate_value_fn_loss_broadcasts_critic_estimates :
  forward (Toy.constant_module 1 1 1) [0] = inr (as_tensor [0 + 1]) /\
  forward (Toy.constant_module 1 1 2) [0] = inr (as_tensor [0 + 2]) /\
  calculate_value_fn_loss [1; 2] [as_tensor [1]; as_tensor [2]]
    = inr (scalar_tensor (2 # 4)) /\
  ~ (2 # 4) == 0 /\
  calculate_value_fn_loss [1; 2] [scalar_tensor 1; scalar_tensor 2]
    = inr (scalar_tensor (0 # 2)).
Proof.
  repeat split; try (vm_compute; reflexivity).
  intros Habs; discriminate Habs.
Qed.

(** ** The epoch orchestrator *)

Section EpochFacts.

Context {E R G A : Type} `{Gym E} `{Torch R G A}.

Implicit Types (w : @world E R G A) (pm vm : Sequential) (b : batch).

Lemma extend_batch_nil b : extend_batch b [] = b.
Proof.
  destruct b; unfold extend_batch; simpl. rewrite !app_nil_r. reflexivity.
Qed.

Lemma extend_batch_cons b (ep : episode) eps :
  extend_batch b (ep :: eps) =
  extend_batch
    (mkBatch (epoch_action_returns b ++ ep_action_returns ep)
       (epoch_log_probability_actions b ++ ep_log_probabilities ep)
       (epoch_state_value_estimates b ++ ep_value_estimates ep)
       (epoch_episode_returns b ++ [ep_return ep]))
    eps.
Proof.
  unfold extend_batch; simpl. rewrite <- !app_assoc. reflexivity.
Qed.

(** The [for] loop over the episodes returns exactly when the episodes, run
    one after the other, all return; its batch is their concatenation in
    episode order. *)
Lemma run_episodes_inv n fuel pm vm : forall b w b' w',
  run_episodes n fuel pm vm b w = Returned b' w' ->
  exists eps,
    episodes_chain fuel pm vm w eps w' /\ length eps = n /\
    b' = extend_batch b eps.
Proof.
  induction n as [|n IH]; intros b w b' w' Hr; simpl in Hr.
  - inversion Hr; subst. exists []. rewrite extend_batch_nil.
    repeat split; constructor.
  - apply bind_inv in Hr. destruct Hr as ([[[ar lps] svs] er] & w1 & He & Hk).
    apply IH in Hk. destruct Hk as (eps & Hc & Hl & Hb).
    exists ((ar, lps, svs, er) :: eps). split; [|split].
    + econstructor; eauto.
    + simpl; lia.
    + rewrite extend_batch_cons. exact Hb.
Qed.

Lemma run_episodes_run fuel pm vm : forall eps b w w',
  episodes_chain fuel pm vm w eps w' ->
  run_episodes (length eps) fuel pm vm b w = Returned (extend_batch b eps) w'.
Proof.
  induction eps as [|ep eps IH]; intros b w w' Hc; inversion Hc; subst.
  - rewrite extend_batch_nil. reflexivity.
  - simpl. erewrite bind_Returned by eassumption.
    destruct ep as [[[ar lps] svs] er].
    rewrite extend_batch_cons. apply IH. assumption.
Qed.

Lemma episodes_chain_functional fuel pm vm : forall eps1 w w1,
  episodes_chain fuel pm vm w eps1 w1 ->
  forall eps2 w2, episodes_chain fuel pm vm w eps2 w2 ->
  length eps1 = length eps2 -> eps1 = eps2 /\ w1 = w2.
Proof.
  induction 1 as [w|w wa wb ep eps He Hc IH]; intros eps2 w2 H2 Hl;
    inversion H2; subst; simpl in Hl; try discriminate.
  - auto.
  - match goal with
    | Hx : run_one_episode _ _ _ w = Returned _ _ |- _ =>
        rewrite He in Hx; inversion Hx; subst
    end.
    destruct (IH _ _ ltac:(eassumption) ltac:(lia)) as [-> ->]. auto.
Qed.

Lemma episode_facts fuel pm vm w ep w' :
  run_one_episode fuel pm vm w = Returned ep w' ->
  batch_of vm [ep]
    (map item (ep_log_probabilities ep)) (map data (ep_value_estimates ep)) /\
  exists tr,
    w_trace w' = w_trace w ++ Reset :: tr /\ forallb is_step tr = true /\
    w_policy w' = w_policy w /\ w_value w' = w_value w /\
    w_stdout w' = w_stdout w.
Proof.
  intros Hr. apply run_one_episode_inv in Hr.
  destruct Hr as (m & tr & Hne & Htr & Gr & Hep & Hpo & Hva & Hso).
  destruct Gr as (vq & lq & Hrw & Hvs & Hls & Lv & Ll & Lr & St & Fv).
  simpl in Hrw, Hvs, Hls. subst ep.
  unfold batch_of, ep_action_returns, ep_log_probabilities, ep_value_estimates.
  cbn [fst snd map concat]. rewrite !app_nil_r, Hls, Hvs, Hrw.
  rewrite !map_map. cbn [item scalar_tensor as_tensor data hd].
  rewrite !map_id, repeat_length, Lr.
  split.
  - repeat split; auto. simpl. destruct tr; [contradiction|].
    rewrite Ll; simpl; lia.
  - exists tr. repeat split; auto.
Qed.

Lemma batch_of_cons vm (ep : episode) eps lq1 vq1 lq2 vq2 :
  batch_of vm [ep] lq1 vq1 -> batch_of vm eps lq2 vq2 ->
  batch_of vm (ep :: eps) (lq1 ++ lq2) (vq1 ++ vq2).
Proof.
  unfold batch_of. cbn [map concat]. rewrite !app_nil_r.
  intros (Hl1 & Hv1 & Fv1 & Ll1 & Lv1 & N1) (Hl2 & Hv2 & Fv2 & Ll2 & Lv2 & N2).
  rewrite Hl1, Hl2, Hv1, Hv2, !map_app, !length_app, Ll1, Ll2, Lv1, Lv2.
  repeat split; auto.
  - apply Forall_app; auto.
  - simpl in N1 |- *. rewrite Ll1 in N1. rewrite Ll2 in N2. lia.
Qed.

(** Episodes run one after the other: their batch, what they did to the
    environment, and what they left alone. *)
Lemma chain_facts fuel pm vm w eps w' :
  episodes_chain fuel pm vm w eps w' ->
  (exists lq vq, batch_of vm eps lq vq) /\
  exists tr,
    w_trace w' = w_trace w ++ tr /\ forallb is_env_event tr = true /\
    length (filter is_reset tr) = length eps /\
    w_policy w' = w_policy w /\ w_value w' = w_value w /\
    w_stdout w' = w_stdout w.
Proof.
  induction 1 as [w|w w1 w2 ep eps He Hc IH].
  - split.
    + exists [], []. unfold batch_of. simpl. repeat split; auto.
    + exists []. rewrite app_nil_r. repeat split; auto.
  - apply episode_facts in He.
    destruct He as (B1 & tr1 & Htr1 & St1 & Hp1 & Hv1 & Hs1).
    destruct IH as ((lq & vq & B2) & tr2 & Htr2 & Ev2 & Nr2 & Hp2 & Hv2 & Hs2).
    split.
    + eexists; eexists. eapply batch_of_cons; eauto.
    + exists ((Reset :: tr1) ++ tr2).
      rewrite Htr2, Htr1, <- app_assoc.
      repeat split; try congruence.
      * rewrite forallb_app. simpl. rewrite Ev2, andb_true_r.
        rewrite forallb_forall in St1 |- *. intros ev Hev.
        unfold is_env_event. rewrite (St1 ev Hev). reflexivity.
      * rewrite filter_app, length_app, Nr2. simpl. f_equal.
        assert (Hz : filter is_reset tr1 = []).
        { clear - St1. induction tr1 as [|ev tr IH]; [reflexivity|].
          simpl in St1 |- *. apply andb_true_iff in St1.
          destruct St1 as [Hev Hrest].
          destruct ev; simpl in *; try discriminate. auto. }
        rewrite Hz. reflexivity.
Qed.

(** The six calls of the update step always return; their effect on the
    world. *)
Lemma update_step_run {T} (x : T) (vl pl : tensor) w1 :
  exists w',
    (backward Value vl ;; optimizer_step Value ;;
     backward Policy pl ;; optimizer_step Policy ;;
     zero_grad Value ;; zero_grad Policy ;; ret x) w1 = Returned x w' /\
    w_trace w' = w_trace w1 ++ update_events vl pl /\
    w_value w' = learner_after_update (w_value w1) vl /\
    w_policy w' = learner_after_update (w_policy w1) pl /\
    w_env w' = w_env w1 /\ w_rng w' = w_rng w1 /\ w_stdout w' = w_stdout w1.
Proof.
  unfold bind, backward, optimizer_step, zero_grad, ret,
    learner_after_update, update_events.
  cbn [get_learner set_learner log w_value w_policy w_env w_rng w_stdout
       w_trace module grad optimizer].
  destruct (adam_update (optimizer (w_value w1)) (module (w_value w1)) _)
    as [ov pv].
  cbn [get_learner set_learner log w_value w_policy w_env w_rng w_stdout
       w_trace module grad optimizer].
  destruct (adam_update (optimizer (w_policy w1)) (module (w_policy w1)) _)
    as [op pp].
  cbn [get_learner set_learner log w_value w_policy w_env w_rng w_stdout
       w_trace module grad optimizer fst snd].
  eexists. split; [reflexivity|].
  cbn [log w_value w_policy w_env w_rng w_stdout w_trace].
  rewrite <- !app_assoc. repeat split; reflexivity.
Qed.

(** An epoch that returns: the 200 episodes, the two losses computed from
    their concatenation, the update, the mean that is returned. *)
Lemma train_one_epoch_inv fuel w mean w' :
  train_one_epoch fuel w = Returned mean w' ->
  exists eps w1 stacked pl vl,
    episodes_chain fuel (module (w_policy w)) (module (w_value w)) w eps w1 /\
    length eps = 200%nat /\
    torch_stack (concat (map ep_log_probabilities eps)) = inr stacked /\
    calculate_policy_fn_loss stacked
      (as_tensor (concat (map ep_action_returns eps))) = inr pl /\
    calculate_value_fn_loss (concat (map ep_action_returns eps))
      (concat (map ep_value_estimates eps)) = inr vl /\
    mean = np_mean (map ep_return eps) /\
    w_trace w' = w_trace w1 ++ update_events vl pl /\
    w_value w' = learner_after_update (w_value w1) vl /\
    w_policy w' = learner_after_update (w_policy w1) pl /\
    w_env w' = w_env w1 /\ w_rng w' = w_rng w1 /\ w_stdout w' = w_stdout w1.
Proof.
  unfold train_one_epoch. intros Ht.
  apply bind_inv in Ht. destruct Ht as (pm & w0 & Hpm & Ht).
  inversion Hpm; subst pm w0; clear Hpm.
  apply bind_inv in Ht. destruct Ht as (vm & w0 & Hvm & Ht).
  inversion Hvm; subst vm w0; clear Hvm.
  apply bind_inv in Ht. destruct Ht as (b & w1 & Hb & Ht).
  apply run_episodes_inv in Hb. destruct Hb as (eps & Hc & Hl & Hb).
  apply bind_inv in Ht. destruct Ht as (stacked & w2 & Hs & Ht).
  apply lift_inv in Hs. destruct Hs as [Hs ->].
  apply bind_inv in Ht. destruct Ht as (pl & w2 & Hpl & Ht).
  apply lift_inv in Hpl. destruct Hpl as [Hpl ->].
  apply bind_inv in Ht. destruct Ht as (vl & w2 & Hvl & Ht).
  apply lift_inv in Hvl. destruct Hvl as [Hvl ->].
  destruct (update_step_run (np_mean (epoch_episode_returns b)) vl pl w1)
    as (w2 & Hu & Facts).
  rewrite Hu in Ht. inversion Ht; subst mean w2; clear Ht.
  subst b. cbn [extend_batch epoch_action_returns
                epoch_log_probability_actions epoch_state_value_estimates
                epoch_episode_returns app] in *.
  exists eps, w1, stacked, pl, vl. repeat split; tauto.
Qed.

Lemma singletons (vq : list (list Q)) :
  Forall (fun o => length o = 1%nat) vq ->
  map as_tensor vq = map (fun v => as_tensor [v]) (map (hd 0) vq).
Proof.
  induction 1 as [|o vq Ho _ IH]; [reflexivity|].
  destruct o as [|x [|y o]]; try discriminate. simpl. rewrite IH. reflexivity.
Qed.

(** The losses of a batch never raise when the critic has one output. *)
Lemma losses_of_batch vm eps lq vq :
  batch_of vm eps lq vq -> eps <> [] -> out_features (layer2 vm) = 1%nat ->
  exists pl vl,
    torch_stack (concat (map ep_log_probabilities eps)) = inr (as_tensor lq) /\
    calculate_policy_fn_loss (as_tensor lq)
      (as_tensor (concat (map ep_action_returns eps)))
      = inr (scalar_tensor pl) /\
    pl == - Qmean (map2 Qmult lq (concat (map ep_action_returns eps))) /\
    calculate_value_fn_loss (concat (map ep_action_returns eps))
      (concat (map ep_value_estimates eps)) = inr (scalar_tensor vl).
Proof.
  intros (Hl & Hv & Fv & Ll & Lv & N) Hne Hout.
  assert (Hlq : lq <> []).
  { destruct eps; [congruence|].
    destruct lq; [simpl in N; lia | discriminate]. }
  destruct (policy_loss_of_batch lq _ Hlq Ll)
    as (pl & Hpl & _ & _ & Hmean).
  rewrite Hout in Fv. rewrite Hv, (singletons _ Fv).
  destruct (calculate_value_fn_loss_all_pairs
              (concat (map ep_action_returns eps)) (map (hd 0) vq))
    as (vl & Hvl & _).
  { destruct vq; [|discriminate]. simpl in Lv. rewrite <- Lv in Ll.
    destruct lq; [congruence | discriminate]. }
  exists pl, vl. rewrite Hl. repeat split; auto.
  apply torch_stack_scalars; exact Hlq.
Qed.

(** When 200 episodes in a row return and the critic has one output, the
    epoch returns. *)
Lemma train_one_epoch_run fuel w eps w1 :
  episodes_chain fuel (module (w_policy w)) (module (w_value w)) w eps w1 ->
  length eps = 200%nat ->
  out_features (layer2 (module (w_value w))) = 1%nat ->
  exists w', train_one_epoch fuel w = Returned (np_mean (map ep_return eps)) w'.
Proof.
  intros Hc Hl Hout.
  destruct (chain_facts _ _ _ _ _ _ Hc) as ((lq & vq & B) & _).
  destruct (losses_of_batch _ _ _ _ B) as (pl & vl & Hs & Hpl & _ & Hvl);
    [destruct eps; [discriminate | congruence] | exact Hout |].
  assert (Hrun := run_episodes_run fuel _ _ _ (mkBatch [] [] [] []) _ _ Hc).
  rewrite Hl in Hrun.
  destruct (update_step_run (np_mean (map ep_return eps))
              (scalar_tensor vl) (scalar_tensor pl) w1) as (w' & Hu & _).
  exists w'.
  unfold train_one_epoch.
  erewrite bind_Returned by reflexivity.
  erewrite bind_Returned by reflexivity.
  erewrite bind_Returned by exact Hrun.
  erewrite bind_Returned by (apply lift_run; exact Hs).
  erewrite bind_Returned by (apply lift_run; exact Hpl).
  erewrite bind_Returned by (apply lift_run; exact Hvl).
  exact Hu.
Qed.

End EpochFacts.

(** ** Claims on the epoch *)

Section EpochClaims.

Context {E R G A : Type} `{Gym E} `{Torch R G A}.

Implicit Types (w : @world E R G A).

(** C5.  An epoch that returns has run exactly 200 episodes, one after the
    other (200 resets of the environment, nothing but environment calls
    before the update); its two losses are computed from the concatenation,
    in episode order, of the episodes' returns, log probabilities and value
    estimates; it returns the arithmetic mean of the 200 episode returns.
    Conversely, when 200 episodes in a row return and the critic has one
    output, the epoch returns that mean. *)
Theorem train_one_epoch_runs_200_episodes fuel w :
  (forall mean w',
     train_one_epoch fuel w = Returned mean w' ->
     exists eps w1 tr stacked pl vl,
       episodes_chain fuel (module (w_policy w)) (module (w_value w))
         w eps w1 /\
       length eps = 200%nat /\
       w_trace w1 = w_trace w ++ tr /\
       forallb is_env_event tr = true /\
       length (filter is_reset tr) = 200%nat /\
       torch_stack (concat (map ep_log_probabilities eps)) = inr stacked /\
       calculate_policy_fn_loss stacked
         (as_tensor (concat (map ep_action_returns eps))) = inr pl /\
       calculate_value_fn_loss (concat (map ep_action_returns eps))
         (concat (map ep_value_estimates eps)) = inr vl /\
       w_trace w' = w_trace w1 ++ update_events vl pl /\
       mean = np_mean (map ep_return eps) /\
       mean == Qsum (map ep_return eps) / 200) /\
  (forall eps w1,
     episodes_chain fuel (module (w_policy w)) (module (w_value w))
       w eps w1 ->
     length eps = 200%nat ->
     out_features (layer2 (module (w_value w))) = 1%nat ->
     exists w',
       train_one_epoch fuel w = Returned (np_mean (map ep_return eps)) w').
Proof.
  split.
  - intros mean w' Ht. apply train_one_epoch_inv in Ht.
    destruct Ht as (eps & w1 & stacked & pl & vl & Hc & Hl & Hs & Hpl & Hvl
                    & Hm & Htr & _).
    destruct (chain_facts _ _ _ _ _ _ Hc) as (_ & tr & Ht1 & Ev & Nr & _).
    exists eps, w1, tr, stacked, pl, vl.
    repeat split; auto; try congruence.
    subst mean. rewrite np_mean_Qmean. unfold Qmean, Qlen.
    rewrite length_map, Hl. reflexivity.
  - intros eps w1 Hc Hl Hout. eapply train_one_epoch_run; eauto.
Qed.


(** C1, as the code has it.  In an epoch that returns, the one loss
    backpropagated into the policy is the negated mean, over the timesteps
    of the batch, of log probability times episode return: it is computed
    from the log probabilities and the returns alone, the critic's estimates
    [vq] are not subtracted and do not occur in it. *)
Theorem train_one_epoch_policy_loss_without_baseline fuel w mean w' :
  train_one_epoch fuel w = Returned mean w' ->
  exists eps w1 lq vq pl,
    episodes_chain fuel (module (w_policy w)) (module (w_value w)) w eps w1 /\
    batch_of (module (w_value w)) eps lq vq /\
    (exists tr, w_trace w' = w_trace w ++ tr /\
                backpropagated Policy tr = [scalar_tensor pl]) /\
    pl == - Qmean (map2 Qmult lq (concat (map ep_action_returns eps))).
Proof.
  intros Ht. apply train_one_epoch_inv in Ht.
  destruct Ht as (eps & w1 & stacked & pl & vl & Hc & Hl & Hs & Hpl & Hvl
                  & Hm & Htr & _).
  destruct (chain_facts _ _ _ _ _ _ Hc)
    as ((lq & vq & B) & tr & Ht1 & Ev & _).
  assert (B' := B). destruct B' as (Hlq & _ & _ & Ll & _ & N).
  assert (Hne : lq <> []).
  { destruct lq; [simpl in N; lia | discriminate]. }
  rewrite Hlq, torch_stack_scalars in Hs by exact Hne.
  inversion Hs; subst stacked; clear Hs.
  destruct (policy_loss_of_batch lq _ Hne Ll)
    as (x & Hx & _ & _ & Hmean).
  rewrite Hx in Hpl. inversion Hpl; subst pl; clear Hpl.
  exists eps, w1, lq, vq, x.
  split; [exact Hc|]. split; [exact B|]. split; [|exact Hmean].
  exists (tr ++ update_events vl (scalar_tensor x)). split.
  - rewrite Htr, Ht1, app_assoc. reflexivity.
  - unfold backpropagated. rewrite flat_map_app.
    assert (Hz : forall l, forallb is_env_event l = true ->
                 flat_map (fun ev => match ev with
                                     | Backward r' loss =>
                                         if role_eqb Policy r' then [loss]
                                         else []
                                     | _ => []
                                     end) l = []).
    { clear. induction l as [|ev l IH]; [reflexivity|]. simpl.
      intros Hl. apply andb_true_iff in Hl. destruct Hl as [Hev Hl].
      destruct ev; simpl in *; try discriminate; auto. }
    rewrite (Hz tr Ev). reflexivity.
Qed.

(** The value loss of an epoch whose critic has one output -- the critic
    [train] creates -- is the mean, over all pairs of a timestep [i] and a
    timestep [j] of the batch, of the squared difference of the estimate at
    [i] and the return at [j]. *)
Lemma train_one_epoch_value_loss_all_pairs fuel w mean w' :
  train_one_epoch fuel w = Returned mean w' ->
  out_features (layer2 (module (w_value w))) = 1%nat ->
  exists eps w1 lq vq vl,
    episodes_chain fuel (module (w_policy w)) (module (w_value w)) w eps w1 /\
    batch_of (module (w_value w)) eps lq vq /\
    (exists tr, w_trace w' = w_trace w ++ tr /\
                backpropagated Value tr = [scalar_tensor vl]) /\
    vl ==
      Qsum (flat_map
              (fun v => map (fun r => (v - r) ^ 2)
                          (concat (map ep_action_returns eps)))
              (map (hd 0) vq))
      / (Qlen vq * Qlen (concat (map ep_action_returns eps))).
Proof.
  intros Ht Hout. apply train_one_epoch_inv in Ht.
  destruct Ht as (eps & w1 & stacked & pl & vl & Hc & Hl & Hs & Hpl & Hvl
                  & Hm & Htr & _).
  destruct (chain_facts _ _ _ _ _ _ Hc)
    as ((lq & vq & B) & tr & Ht1 & Ev & _).
  assert (B' := B). destruct B' as (_ & Hvq & Fv & Ll & Lv & N).
  assert (Hne : map (hd 0) vq <> []).
  { destruct vq; [|discriminate]. simpl in Lv. rewrite <- Lv in Ll.
    destruct lq; [simpl in N; lia | discriminate]. }
  rewrite Hout in Fv. rewrite Hvq, (singletons _ Fv) in Hvl.
  destruct (calculate_value_fn_loss_all_pairs
              (concat (map ep_action_returns eps)) (map (hd 0) vq) Hne)
    as (x & Hx & Hmean).
  rewrite Hx in Hvl. inversion Hvl; subst vl; clear Hvl.
  exists eps, w1, lq, vq, x.
  split; [exact Hc|]. split; [exact B|]. split.
  - exists (tr ++ update_events (scalar_tensor x) pl). split.
    + rewrite Htr, Ht1, app_assoc. reflexivity.
    + unfold backpropagated. rewrite flat_map_app.
      assert (Hz : forall l, forallb is_env_event l = true ->
                   flat_map (fun ev => match ev with
                                       | Backward r' loss =>
                                           if role_eqb Value r' then [loss]
                                           else []
                                       | _ => []
                                       end) l = []).
      { clear. induction l as [|ev l IH]; [reflexivity|]. simpl.
        intros Hl. apply andb_true_iff in Hl. destruct Hl as [Hev Hl].
        destruct ev; simpl in *; try discriminate; auto. }
      rewrite (Hz tr Ev). reflexivity.
  - rewrite Hmean. unfold Qlen at 1 3. rewrite length_map. reflexivity.
Qed.

End EpochClaims.

(** ** The training driver *)

Lemma string_app_assoc (a b c : string) :
  ((a ++ b) ++ c)%string = (a ++ (b ++ c))%string.
Proof. induction a as [|x a IH]; simpl; [|rewrite IH]; reflexivity. Qed.

Lemma string_app_nil_r (a : string) : (a ++ "")%string = a.
Proof. induction a as [|x a IH]; simpl; [|rewrite IH]; reflexivity. Qed.

Lemma count_char_app (c : ascii) (a b : string) :
  count_char c (a ++ b) = (count_char c a + count_char c b)%nat.
Proof. induction a as [|x a IH]; simpl; [|rewrite IH]; lia. Qed.

Lemma count_char_replicate (c x : ascii) (n : nat) :
  Ascii.eqb c x = false -> count_char c (replicate n x) = 0%nat.
Proof.
  intros Hx. induction n as [|n IH]; simpl; [|rewrite Hx, IH]; reflexivity.
Qed.

Lemma count_newline_digits (d : Decimal.uint) :
  count_char "010" (NilEmpty.string_of_uint d) = 0%nat.
Proof. induction d; simpl; auto. Qed.

Lemma count_newline_decimal (n : N) : count_char "010" (decimal n) = 0%nat.
Proof.
  unfold decimal, NilZero.string_of_uint.
  destruct (N.to_uint n); try apply count_newline_digits; reflexivity.
Qed.

Lemma count_newline_pad_left (c : ascii) (width : nat) (s : string) :
  Ascii.eqb "010" c = false -> count_char "010" s = 0%nat ->
  count_char "010" (pad_left c width s) = 0%nat.
Proof.
  intros Hc Hs. unfold pad_left.
  rewrite count_char_app, count_char_replicate, Hs by exact Hc. reflexivity.
Qed.

(** A report holds no line break. *)
Lemma count_newline_format_report (epoch : nat) (mean : Q) :
  count_char "010" (format_report epoch mean) = 0%nat.
Proof.
  unfold format_report, format_3d, format_3f.
  rewrite !count_char_app.
  rewrite !count_newline_pad_left, !count_newline_decimal
    by (try reflexivity; apply count_newline_decimal).
  destruct (Qle_bool 0 mean); reflexivity.
Qed.

Lemma count_newline_report (k : nat) (means : list Q) :
  count_char "010" (report k means) = length means.
Proof.
  revert k; induction means as [|m means IH]; intros k; cbn [report length];
    [reflexivity|].
  rewrite !count_char_app, count_newline_format_report, IH. reflexivity.
Qed.

(** *** The numbers of a report

    What a report shows is read back digit by digit: the epoch number, and
    the mean return to three decimals. *)

Lemma read_digits_string_of_uint (d : Decimal.uint) : forall acc,
  read_digits acc (NilEmpty.string_of_uint d) =
  Some (DecimalPos.Unsigned.of_lu (Decimal.rev d)
        + acc * 10 ^ DecimalPos.Unsigned.usize d)%N.
Proof.
  induction d; intros acc;
    [simpl; f_equal; lia | ..];
    cbn [NilEmpty.string_of_uint read_digits].
  all: match goal with |- context [digit_value ?c] =>
         let v := eval vm_compute in (digit_value c) in
         change (digit_value c) with v end.
  all: cbv iota; rewrite IHd; f_equal.
  all: match goal with
       | |- context [DecimalPos.Unsigned.of_lu (Decimal.rev (?D ?u))] =>
           change (Decimal.rev (D u)) with (Decimal.revapp u (D Decimal.Nil));
           rewrite (DecimalPos.Unsigned.of_lu_revapp u (D Decimal.Nil))
       end.
  all: cbn [DecimalPos.Unsigned.of_lu DecimalPos.Unsigned.usize];
    rewrite N.pow_succ_r'; ring.
Qed.

Lemma decimal_not_empty (n : N) : decimal n <> ""%string.
Proof.
  unfold decimal, NilZero.string_of_uint.
  destruct (N.to_uint n); simpl; discriminate.
Qed.

Lemma read_digits_of_uint (d : Decimal.uint) :
  read_digits 0 (NilZero.string_of_uint d) = Some (N.of_uint d).
Proof.
  assert (H : read_digits 0 (NilEmpty.string_of_uint d) = Some (N.of_uint d)).
  { rewrite read_digits_string_of_uint. f_equal.
    unfold N.of_uint. rewrite DecimalPos.Unsigned.of_uint_alt. ring. }
  destruct d; exact H.
Qed.

Lemma read_digits_decimal (n : N) : read_digits 0 (decimal n) = Some n.
Proof.
  unfold decimal. rewrite read_digits_of_uint.
  f_equal. apply DecimalN.Unsigned.of_to.
Qed.

Lemma read_numeral_decimal (n : N) : read_numeral (decimal n) = Some n.
Proof.
  pose proof (decimal_not_empty n) as H.
  pose proof (read_digits_decimal n) as R.
  unfold read_numeral. destruct (decimal n); [congruence | exact R].
Qed.

Lemma no_leading_zero_unorm (d : Decimal.uint) :
  no_leading_zero (NilZero.string_of_uint (Decimal.unorm d)) = true.
Proof.
  induction d; cbn [Decimal.unorm]; try exact IHd; try reflexivity;
    destruct d; reflexivity.
Qed.

Lemma no_leading_zero_decimal (n : N) : no_leading_zero (decimal n) = true.
Proof.
  unfold decimal.
  rewrite <- (DecimalN.Unsigned.of_to n) at 1.
  rewrite DecimalN.Unsigned.to_of. apply no_leading_zero_unorm.
Qed.

Lemma length_append (a b : string) :
  String.length (a ++ b) = (String.length a + String.length b)%nat.
Proof. induction a; simpl; auto. Qed.

Lemma length_replicate (n : nat) (c : ascii) :
  String.length (replicate n c) = n.
Proof. induction n; simpl; auto. Qed.

Lemma length_pad_left (c : ascii) (width : nat) (s : string) :
  (width <= String.length (pad_left c width s))%nat /\
  ((String.length s <= width)%nat ->
   String.length (pad_left c width s) = width).
Proof.
  unfold pad_left. rewrite length_append, length_replicate. lia.
Qed.

Lemma read_digits_leading_zeros (k : nat) (s : string) :
  read_digits 0 (replicate k "0" ++ s) = read_digits 0 s.
Proof. induction k; simpl; auto. Qed.

Lemma read_numeral_pad_zeros (width : nat) (n : N) :
  read_numeral (pad_left "0" width (decimal n)) = Some n.
Proof.
  pose proof (decimal_not_empty n) as H.
  assert (R : read_digits 0 (pad_left "0" width (decimal n)) = Some n).
  { unfold pad_left. rewrite read_digits_leading_zeros.
    apply read_digits_decimal. }
  unfold read_numeral.
  destruct (pad_left "0" width (decimal n)) eqn:E; [| exact R].
  exfalso. unfold pad_left in E.
  destruct (replicate (width - String.length (decimal n)) "0"); simpl in E;
    [congruence | discriminate].
Qed.

Lemma decimal_length_table :
  forallb (fun n => String.length (decimal (N.of_nat n)) <=? 3) (seq 0 1000)
  = true.
Proof. vm_compute. reflexivity. Qed.

Lemma decimal_length_below_1000 (n : N) :
  (n < 1000)%N -> (String.length (decimal n) <= 3)%nat.
Proof.
  intros H. pose proof decimal_length_table as T.
  rewrite forallb_forall in T.
  specialize (T (N.to_nat n)). rewrite N2Nat.id in T.
  apply Nat.leb_le, T, in_seq. lia.
Qed.

(** Rounding to the nearest integer moves a number by at most one half, keeps
    integers and keeps the sign. *)
Lemma round_half_even_error (y : Q) :
  Qabs (inject_Z (round_half_even y) - y) <= 1 # 2.
Proof.
  unfold round_half_even.
  pose proof (Qfloor_le y) as L. pose proof (Qlt_floor y) as U.
  set (f := Qfloor y) in *.
  assert (U' : y < inject_Z f + 1).
  { rewrite inject_Z_plus in U. exact U. }
  clear U. apply Qabs_Qle_condition.
  destruct (Qcompare (y - inject_Z f) (1 # 2)) eqn:C;
    [apply Qeq_alt in C; destruct (Z.even f)
    | apply Qlt_alt in C
    | apply Qgt_alt in C];
    rewrite ?inject_Z_plus; change (inject_Z 1) with 1;
    revert L U' C; generalize (inject_Z f); intros x L U' C; split; lra.
Qed.

Lemma round_half_even_integer (y : Q) (z : Z) :
  y == inject_Z z -> round_half_even y = z.
Proof.
  intros H. unfold round_half_even.
  assert (F : Qfloor y = z) by (rewrite H; apply Qfloor_Z).
  rewrite F.
  assert (C : Qcompare (y - inject_Z z) (1 # 2) = Lt).
  { apply -> Qlt_alt. rewrite H. generalize (inject_Z z). intros q. lra. }
  rewrite C. reflexivity.
Qed.

Lemma round_half_even_nonneg (y : Q) : 0 <= y -> (0 <= round_half_even y)%Z.
Proof.
  intros H. unfold round_half_even.
  assert (F : (0 <= Qfloor y)%Z).
  { change 0%Z with (Qfloor 0). apply Qfloor_resp_le, H. }
  destruct (Qcompare _ _); [destruct (Z.even _) | |]; lia.
Qed.

Lemma three_decimals_value (i f : N) :
  three_decimals i f == inject_Z (Z.of_N (1000 * i + f)) / 1000.
Proof.
  unfold three_decimals.
  rewrite N2Z.inj_add, N2Z.inj_mul, inject_Z_plus, inject_Z_mult.
  change (inject_Z (Z.of_N 1000)) with 1000. field.
Qed.

(** What [%3d] prints: the decimal numeral of the number, moved to the right of
    a field of three characters by blanks. *)
Lemma format_3d_reads (n : nat) :
  exists digits,
    format_3d n = (replicate (3 - String.length digits) " " ++ digits)%string /\
    read_numeral digits = Some (N.of_nat n) /\
    no_leading_zero digits = true /\
    (3 <= String.length (format_3d n))%nat.
Proof.
  exists (decimal (N.of_nat n)). split; [reflexivity |].
  split; [apply read_numeral_decimal |].
  split; [apply no_leading_zero_decimal |].
  apply length_pad_left.
Qed.

(** What [%.3f] prints: a sign for a negative number, the integer part, a
    point and exactly three decimals, which together denote the multiple of
    one thousandth nearest to the number. *)
Lemma format_3f_reads (x : Q) :
  exists int frac i f,
    format_3f x =
      ((if Qle_bool 0 x then "" else "-") ++ int ++ "." ++ frac)%string /\
    read_numeral int = Some i /\
    no_leading_zero int = true /\
    read_numeral frac = Some f /\
    String.length frac = 3%nat /\
    Qabs (three_decimals i f - Qabs x) <= 1 # 2000 /\
    (forall z : Z, Qabs x * 1000 == inject_Z z -> Z.of_N (1000 * i + f) = z).
Proof.
  set (t := Z.to_N (round_half_even (Qabs x * 1000))).
  assert (P : 0 <= Qabs x * 1000).
  { pose proof (Qabs_nonneg x). nra. }
  assert (T : Z.of_N t = round_half_even (Qabs x * 1000)).
  { unfold t. apply Z2N.id, round_half_even_nonneg, P. }
  assert (D : (1000 * (t / 1000) + t mod 1000 = t)%N).
  { symmetry. apply N.div_mod. discriminate. }
  assert (M : (t mod 1000 < 1000)%N) by (apply N.mod_lt; discriminate).
  exists (decimal (t / 1000)), (pad_left "0" 3 (decimal (t mod 1000))),
         (t / 1000)%N, (t mod 1000)%N.
  split; [reflexivity |].
  split; [apply read_numeral_decimal |].
  split; [apply no_leading_zero_decimal |].
  split; [apply read_numeral_pad_zeros |].
  split; [apply length_pad_left, decimal_length_below_1000, M |].
  split.
  - rewrite three_decimals_value, D, T.
    pose proof (round_half_even_error (Qabs x * 1000)) as R.
    apply Qabs_Qle_condition in R. apply Qabs_Qle_condition.
    revert R. generalize (inject_Z (round_half_even (Qabs x * 1000))).
    generalize (Qabs x). intros a r R.
    unfold Qdiv. change (/ 1000) with (1 # 1000). split; lra.
  - intros z Hz. rewrite D, T. apply round_half_even_integer, Hz.
Qed.

Section TrainFacts.

Context {E R G A : Type} `{Gym E} `{Torch R G A}.

Implicit Types (w : @world E R G A).

Lemma new_linear_run (n_in n_out : nat) w :
  new_linear n_in n_out w =
  Returned
    (mkLinear n_in n_out
       (fst (fst (init_parameters n_in n_out (w_rng w))))
       (snd (fst (init_parameters n_in n_out (w_rng w)))))
    (set_rng (snd (init_parameters n_in n_out (w_rng w))) w).
Proof.
  unfold new_linear. destruct (init_parameters n_in n_out (w_rng w)) as [p r].
  reflexivity.
Qed.

Lemma create_model_run (n k : nat) w :
  create_model n k w =
  Returned
    (mkSequential
       (mkLinear n 32
          (fst (fst (init_parameters n 32 (w_rng w))))
          (snd (fst (init_parameters n 32 (w_rng w)))))
       (mkLinear 32 k
          (fst (fst (init_parameters 32 k
                       (snd (init_parameters n 32 (w_rng w))))))
          (snd (fst (init_parameters 32 k
                       (snd (init_parameters n 32 (w_rng w))))))))
    (set_rng
       (snd (init_parameters 32 k (snd (init_parameters n 32 (w_rng w))))) w).
Proof.
  unfold create_model.
  erewrite bind_Returned by apply new_linear_run.
  erewrite bind_Returned by apply new_linear_run.
  reflexivity.
Qed.

Lemma train_unfold fuel epochs w :
  train fuel epochs w = epoch_loop fuel 0 epochs (initialised w).
Proof.
  unfold train.
  do 5 (erewrite bind_Returned by reflexivity).
  erewrite bind_Returned by apply create_model_run.
  erewrite bind_Returned by apply create_model_run.
  do 2 (erewrite bind_Returned by reflexivity).
  f_equal.
Qed.

Lemma train_one_epoch_stdout fuel w mean w' :
  train_one_epoch fuel w = Returned mean w' -> w_stdout w' = w_stdout w.
Proof.
  intros Ht. apply train_one_epoch_inv in Ht.
  destruct Ht as (eps & w1 & stacked & pl & vl & Hc & _ & _ & _ & _ & _ & _
                  & _ & _ & _ & _ & Hs).
  destruct (chain_facts _ _ _ _ _ _ Hc) as (_ & tr & _ & _ & _ & _ & _ & Hs1).
  congruence.
Qed.

Lemma epoch_loop_S fuel k count :
  epoch_loop fuel k (S count) =
  (average_return <- train_one_epoch fuel ;;
   print (format_report k average_return) ;;
   epoch_loop fuel (S k) count).
Proof. reflexivity. Qed.

Lemma epoch_loop_inv fuel : forall count k w w',
  epoch_loop fuel k count w = Returned tt w' ->
  exists means, epochs_chain fuel k w means w' /\ length means = count.
Proof.
  induction count as [|count IH]; intros k w w' He.
  - inversion He; subst. exists []. split; [constructor | reflexivity].
  - rewrite epoch_loop_S in He. apply bind_inv in He.
    destruct He as (mean & w1 & Ht & He).
    apply bind_inv in He. destruct He as ([] & w2 & Hp & He).
    inversion Hp; subst w2; clear Hp.
    apply IH in He. destruct He as (means & Hc & Hl).
    exists (mean :: means). split; [|simpl; lia].
    econstructor; eauto.
Qed.

Lemma epoch_loop_run fuel : forall means k w w',
  epochs_chain fuel k w means w' ->
  epoch_loop fuel k (length means) w = Returned tt w'.
Proof.
  induction means as [|mean means IH]; intros k w w' Hc; inversion Hc; subst.
  - reflexivity.
  - cbn [length]. rewrite epoch_loop_S.
    erewrite bind_Returned by eassumption.
    erewrite bind_Returned by reflexivity.
    apply IH. assumption.
Qed.

Lemma epochs_chain_stdout fuel k w means w' :
  epochs_chain fuel k w means w' ->
  w_stdout w' = (w_stdout w ++ report k means)%string.
Proof.
  induction 1 as [k w|k w w1 w2 mean means Ht Hc IH].
  - cbn [report]. rewrite string_app_nil_r. reflexivity.
  - rewrite IH. cbn [report set_stdout w_stdout].
    rewrite (train_one_epoch_stdout _ _ _ _ Ht).
    rewrite !string_app_assoc. reflexivity.
Qed.

(** The critic keeps its one output through every epoch of [train]: an
    optimizer step changes values, not sizes. *)
Lemma epochs_chain_critic_outputs fuel k w means w' :
  epochs_chain fuel k w means w' ->
  out_features (layer2 (module (w_value w')))
  = out_features (layer2 (module (w_value w))).
Proof.
  induction 1 as [k w|k w w1 w2 mean means Ht Hc IH]; [reflexivity|].
  rewrite IH. cbn [set_stdout w_value].
  apply train_one_epoch_inv in Ht.
  destruct Ht as (eps & wa & stacked & pl & vl & Hch & _ & _ & _ & _ & _ & _
                  & Hv & _).
  destruct (chain_facts _ _ _ _ _ _ Hch) as (_ & tr & _ & _ & _ & _ & Hva & _).
  rewrite Hv, Hva. reflexivity.
Qed.

Lemma train_critic_has_one_output fuel w means w' :
  epochs_chain fuel 0 (initialised w) means w' ->
  out_features (layer2 (module (w_value w'))) = 1%nat.
Proof.
  intros Hc. rewrite (epochs_chain_critic_outputs _ _ _ _ _ Hc). reflexivity.
Qed.

(** C8.  A run of [train] that returns has written, after what standard
    output held, one report per epoch: for the epochs 0, 1, ... in this
    order, the text [epoch: ], the epoch number right-justified in 3
    columns, a blank, a tab, the text [ return: ], the mean return of that
    epoch with three decimals, and a line break; a report holds no other
    line break, so the output has as many lines as epochs.  The epoch number
    is shown as its decimal numeral without leading zeros, after the blanks
    that fill three columns.  The mean return is shown as a minus sign when
    it is negative, the numeral of an integer part, a point and exactly
    three digits; read back, they are within half a thousandth of the mean,
    and they are the mean itself when it is a multiple of one thousandth.
    Conversely, when the epochs return one after the other, [train]
    returns. *)
Theorem train_reports_each_epoch fuel epochs w :
  (forall w',
     train fuel epochs w = Returned tt w' ->
     exists means,
       epochs_chain fuel 0 (initialised w) means w' /\
       length means = epochs /\
       w_stdout w' = (w_stdout w ++ report 0 means)%string /\
       count_char "010" (report 0 means) = epochs /\
       forall epoch mean,
         format_report epoch mean =
           ("epoch: " ++ format_3d epoch ++ " " ++ tab ++ " return: "
            ++ format_3f mean)%string /\
         count_char "010" (format_report epoch mean) = 0%nat /\
         (exists digits,
            format_3d epoch =
              (replicate (3 - String.length digits) " " ++ digits)%string /\
            read_numeral digits = Some (N.of_nat epoch) /\
            no_leading_zero digits = true /\
            (3 <= String.length (format_3d epoch))%nat) /\
         (exists int frac i f,
            format_3f mean =
              ((if Qle_bool 0 mean then "" else "-")
               ++ int ++ "." ++ frac)%string /\
            read_numeral int = Some i /\
            no_leading_zero int = true /\
            read_numeral frac = Some f /\
            String.length frac = 3%nat /\
            Qabs (three_decimals i f - Qabs mean) <= 1 # 2000 /\
            (forall z : Z,
               Qabs mean * 1000 == inject_Z z ->
               Z.of_N (1000 * i + f) = z))) /\
  (forall means w',
     epochs_chain fuel 0 (initialised w) means w' ->
     length means = epochs ->
     train fuel epochs w = Returned tt w').
Proof.
  split.
  - intros w' Ht. rewrite train_unfold in Ht.
    apply epoch_loop_inv in Ht. destruct Ht as (means & Hc & Hl).
    exists means.
    split; [exact Hc|]. split; [exact Hl|].
    split; [rewrite (epochs_chain_stdout _ _ _ _ _ Hc); reflexivity|].
    split; [rewrite count_newline_report; exact Hl|].
    intros epoch mean.
    split; [reflexivity|].
    split; [apply count_newline_format_report|].
    split; [apply format_3d_reads | apply format_3f_reads].
  - intros means w' Hc Hl. rewrite train_unfold, <- Hl.
    apply epoch_loop_run. exact Hc.
Qed.

End TrainFacts.

(** ** Exceptions *)

Section ErrorFacts.

Context {E R G A : Type} `{Gym E} `{Torch R G A}.

Implicit Types (w : @world E R G A) (pm vm : Sequential) (m : metrics).

Lemma run_episodes_Raised fuel pm vm e : forall eps w w1,
  episodes_chain fuel pm vm w eps w1 ->
  forall n b w',
    (length eps < n)%nat ->
    run_one_episode fuel pm vm w1 = Raised e w' ->
    run_episodes n fuel pm vm b w = Raised e w'.
Proof.
  induction 1 as [w|w wa wb ep eps He Hc IH]; intros n b w' Hn Hr;
    (destruct n as [|n]; [simpl in Hn; lia|]); cbn [run_episodes].
  - apply bind_Raised. exact Hr.
  - erewrite bind_Returned by exact He.
    destruct ep as [[[ar lps] svs] er].
    apply IH; [simpl in Hn; lia | exact Hr].
Qed.

Lemma train_one_epoch_Raised fuel w eps w1 e w' :
  episodes_chain fuel (module (w_policy w)) (module (w_value w)) w eps w1 ->
  (length eps < 200)%nat ->
  run_one_episode fuel (module (w_policy w)) (module (w_value w)) w1
    = Raised e w' ->
  train_one_epoch fuel w = Raised e w'.
Proof.
  intros Hc Hl Hr. unfold train_one_epoch.
  erewrite bind_Returned by reflexivity.
  erewrite bind_Returned by reflexivity.
  apply bind_Raised. eapply run_episodes_Raised; eauto.
Qed.

Lemma epoch_loop_Raised fuel e : forall means k w w1,
  epochs_chain fuel k w means w1 ->
  forall count w',
    (length means < count)%nat ->
    train_one_epoch fuel w1 = Raised e w' ->
    epoch_loop fuel k count w = Raised e w'.
Proof.
  induction 1 as [k w|k w wa wb mean means Ht Hc IH]; intros count w' Hn Hr;
    (destruct count as [|count]; [simpl in Hn; lia|]); rewrite epoch_loop_S.
  - apply bind_Raised. exact Hr.
  - erewrite bind_Returned by exact Ht.
    erewrite bind_Returned by reflexivity.
    apply IH; [simpl in Hn; lia | exact Hr].
Qed.

(** C7.  An exception [e] raised by the environment, by either module or by
    the sampler comes out of the loop body, of the loop, of the episode, of
    the epoch and of [train] as the same [e], with the world as it was when
    [e] was raised: nothing is caught, called again or written after it.  An
    episode that raises among the 200 makes the epoch raise, and an epoch
    that raises ends [train]. *)
Theorem exceptions_propagate_unmodified fuel pm vm (e : exn) :
  (forall w, env_reset (w_env w) = inl e ->
     run_one_episode fuel pm vm w = Raised e w) /\
  (forall w obs m, forward vm obs = inl e ->
     timestep pm vm obs m w = Raised e w) /\
  (forall w obs m v, forward vm obs = inr v -> forward pm obs = inl e ->
     timestep pm vm obs m w = Raised e w) /\
  (forall w obs m v lg,
     forward vm obs = inr v -> forward pm obs = inr lg ->
     categorical_sample (data lg) (w_rng w) = inl e ->
     timestep pm vm obs m w = Raised e w) /\
  (forall w obs m v lg a rng',
     forward vm obs = inr v -> forward pm obs = inr lg ->
     categorical_sample (data lg) (w_rng w) = inr (a, rng') ->
     env_step (w_env w) a = inl e ->
     timestep pm vm obs m w = Raised e (set_rng rng' w)) /\
  (forall w obs m w',
     timestep pm vm obs m w = Raised e w' ->
     while_true (S fuel) pm vm obs m w = Raised e w') /\
  (forall w obs m obs1 m1 w1 w',
     timestep pm vm obs m w = Returned (obs1, m1, false) w1 ->
     while_true fuel pm vm obs1 m1 w1 = Raised e w' ->
     while_true (S fuel) pm vm obs m w = Raised e w') /\
  (forall w obs w0 w',
     reset w = Returned obs w0 ->
     while_true fuel pm vm obs (mkMetrics [] [] []) w0 = Raised e w' ->
     run_one_episode fuel pm vm w = Raised e w') /\
  (forall w eps w1 w',
     pm = module (w_policy w) -> vm = module (w_value w) ->
     episodes_chain fuel pm vm w eps w1 -> (length eps < 200)%nat ->
     run_one_episode fuel pm vm w1 = Raised e w' ->
     train_one_epoch fuel w = Raised e w') /\
  (forall epochs w means w1 w',
     epochs_chain fuel 0 (initialised w) means w1 ->
     (length means < epochs)%nat ->
     train_one_epoch fuel w1 = Raised e w' ->
     train fuel epochs w = Raised e w').
Proof.
  repeat apply conj.
  - intros w He. unfold run_one_episode. apply bind_Raised.
    unfold reset. rewrite He. reflexivity.
  - intros w obs m Hv. unfold timestep. apply bind_Raised.
    unfold lift. rewrite Hv. reflexivity.
  - intros w obs m v Hv Hp. unfold timestep.
    erewrite bind_Returned by (apply lift_run; exact Hv).
    apply bind_Raised. unfold get_policy. apply bind_Raised.
    unfold lift. rewrite Hp. reflexivity.
  - intros w obs m v lg Hv Hp Hs. unfold timestep.
    erewrite bind_Returned by (apply lift_run; exact Hv).
    erewrite bind_Returned
      by (unfold get_policy; erewrite bind_Returned
            by (apply lift_run; exact Hp); reflexivity).
    apply bind_Raised. unfold get_action. apply bind_Raised.
    unfold sample. cbn [logits]. rewrite Hs. reflexivity.
  - intros w obs m v lg a rng' Hv Hp Hs He. unfold timestep.
    erewrite bind_Returned by (apply lift_run; exact Hv).
    erewrite bind_Returned
      by (unfold get_policy; erewrite bind_Returned
            by (apply lift_run; exact Hp); reflexivity).
    erewrite bind_Returned
      by (unfold get_action; erewrite bind_Returned
            by (unfold sample; cbn [logits]; rewrite Hs; reflexivity);
          reflexivity).
    apply bind_Raised. unfold step. cbn [set_rng w_env]. rewrite He.
    reflexivity.
  - intros w obs m w' Ht. cbn [while_true]. apply bind_Raised. exact Ht.
  - intros w obs m obs1 m1 w1 w' Ht Hw. cbn [while_true].
    erewrite bind_Returned by exact Ht. exact Hw.
  - intros w obs w0 w' Hr Hw. unfold run_one_episode.
    erewrite bind_Returned by exact Hr. apply bind_Raised. exact Hw.
  - intros w eps w1 w' -> -> Hc Hl Hr.
    eapply train_one_epoch_Raised; eauto.
  - intros epochs w means w1 w' Hc Hl Hr. rewrite train_unfold.
    eapply epoch_loop_Raised; eauto.
Qed.

End ErrorFacts.

(** ** Two runs *)

Section TwoRuns.

Context {E R G A : Type} `{Gym E} `{Torch R G A}.

Implicit Types (w : @world E R G A) (pm vm : Sequential) (m : metrics).











Lemma train_one_epoch_bind fuel w :
  train_one_epoch fuel w =
  bind (run_episodes 200 fuel (module (w_policy w)) (module (w_value w))
          (mkBatch [] [] [] []))
       epoch_update w.
Proof.
  unfold train_one_epoch.
  erewrite bind_Returned by reflexivity.
  erewrite bind_Returned by reflexivity.
  reflexivity.
Qed.









End TwoRuns.

(** * Concrete runs *)

Lemma toy_episode_run :
  run_one_episode 5 Toy.policy_module Toy.value_module (Toy.start 3 3)
  = Returned Toy.episode_result Toy.episode_world.
Proof. vm_compute. reflexivity. Defined.

Lemma toy_episodes_run :
  run_episodes 200 1 Toy.policy_module Toy.value_module (mkBatch [] [] [] [])
    (Toy.start 1 3)
  = Returned Toy.epoch_batch Toy.episodes_world.
Proof. vm_compute. reflexivity. Defined.

Lemma toy_epoch_run :
  train_one_epoch 1 (Toy.start 1 3) = Returned Toy.epoch_mean Toy.epoch_world.
Proof. vm_compute. reflexivity. Defined.

Lemma toy_train_run :
  train 1 2 (Toy.start 1 3) = Returned tt Toy.train_world.
Proof. vm_compute. reflexivity. Defined.

(** What two epochs of [train] write. *)
Example toy_train_output :
  w_stdout Toy.train_world =
  ("epoch:   0 " ++ tab ++ " return: 1.000" ++ newline
   ++ "epoch:   1 " ++ tab ++ " return: 1.000" ++ newline)%string.
Proof. vm_compute. reflexivity. Qed.

(** Witness of C2: an episode of three steps with reward 1 each. *)
Lemma run_one_episode_broadcasts_return_witness :
  run_one_episode 5 Toy.policy_module Toy.value_module (Toy.start 3 3)
    = Returned Toy.episode_result Toy.episode_world /\
  (forall extra,
     run_one_episode (extra + 5) Toy.policy_module Toy.value_module
       (Toy.start 3 3)
     = Returned Toy.episode_result Toy.episode_world) /\
  exists steps,
    w_trace Toy.episode_world = w_trace (Toy.start 3 3) ++ Reset :: steps /\
    forallb is_step steps = true /\
    rewards_of steps <> [] /\
    length (rewards_of steps) = length steps /\
    length (ep_action_returns Toy.episode_result) = length steps /\
    Forall (fun x => x = ep_return Toy.episode_result)
      (ep_action_returns Toy.episode_result) /\
    ep_return Toy.episode_result = py_sum (rewards_of steps) /\
    ep_return Toy.episode_result == Qsum (rewards_of steps).
Proof.
  split; [exact toy_episode_run|].
  exact (run_one_episode_broadcasts_return 5 Toy.policy_module
           Toy.value_module (Toy.start 3 3) Toy.episode_result
           Toy.episode_world toy_episode_run).
Defined.

Example toy_episode_returns :
  ep_action_returns Toy.episode_result = [3; 3; 3] /\
  ep_return Toy.episode_result = 3.
Proof. split; reflexivity. Qed.

(** Witness of C10: an episode of three steps, one pass through the loop
    body, and an episode whose first step reports done. *)
Lemma run_one_episode_nonempty_equal_lengths_witness :
  (run_one_episode 5 Toy.policy_module Toy.value_module (Toy.start 3 3)
     = Returned Toy.episode_result Toy.episode_world /\
   (1 <= length (ep_action_returns Toy.episode_result))%nat /\
   length (ep_log_probabilities Toy.episode_result)
     = length (ep_action_returns Toy.episode_result) /\
   length (ep_value_estimates Toy.episode_result)
     = length (ep_action_returns Toy.episode_result)) /\
  (timestep Toy.policy_module Toy.value_module [0] (mkMetrics [] [] [])
     (Toy.start 3 3)
     = Returned ([1], Toy.step_metrics, false) Toy.step_world /\
   length (rewards Toy.step_metrics) = 1%nat /\
   length (log_probability_actions Toy.step_metrics) = 1%nat /\
   length (state_value_estimates Toy.step_metrics) = 1%nat) /\
  (env_step (Toy.mkEnv 0 1 0) 0 = inr ([1], 1, true, Toy.mkEnv 1 1 0) /\
   exists w',
     run_one_episode 2 Toy.policy_module Toy.value_module (Toy.start 1 3)
     = Returned
         ([0 + 1],
          [scalar_tensor (categorical_log_prob (data Toy.policy_logits) 0)],
          [Toy.value_estimate], 0 + 1) w').
Proof.
  assert (Hstep :
    timestep Toy.policy_module Toy.value_module [0] (mkMetrics [] [] [])
      (Toy.start 3 3)
    = Returned ([1], Toy.step_metrics, false) Toy.step_world)
    by (vm_compute; reflexivity).
  assert (Hdone :
    env_step (Toy.mkEnv 0 1 0) 0 = inr ([1], 1, true, Toy.mkEnv 1 1 0))
    by (vm_compute; reflexivity).
  destruct (run_one_episode_nonempty_equal_lengths 5 Toy.policy_module
              Toy.value_module (Toy.start 3 3)) as (P1 & P2 & _).
  destruct (run_one_episode_nonempty_equal_lengths 1 Toy.policy_module
              Toy.value_module (Toy.start 1 3)) as (_ & _ & P3).
  split; [|split].
  - split; [exact toy_episode_run|].
    exact (P1 _ _ toy_episode_run).
  - split; [exact Hstep|]. exact (P2 _ _ _ _ _ _ Hstep).
  - split; [exact Hdone|].
    apply (P3 [0] (Toy.mkEnv 0 1 0) Toy.value_estimate Toy.policy_logits
             0%nat 1%nat [1] 1 (Toy.mkEnv 1 1 0));
      try (vm_compute; reflexivity).
Defined.

(** Witness of C3: two timesteps. *)
Lemma calculate_policy_fn_loss_negated_mean_witness :
  [- (1 # 2); 3] <> [] /\
  length [- (1 # 2); 3] = length [2; 4] /\
  exists loss,
    calculate_policy_fn_loss (as_tensor [- (1 # 2); 3]) (as_tensor [2; 4])
      = inr (scalar_tensor loss) /\
    loss == - Qmean (map2 Qmult [- (1 # 2); 3] [2; 4]) /\
    loss == - (11 # 2).
Proof.
  assert (Hne : [- (1 # 2); 3] <> []) by discriminate.
  assert (Hl : length [- (1 # 2); 3] = length [2; 4]) by reflexivity.
  split; [exact Hne|]. split; [exact Hl|].
  destruct (calculate_policy_fn_loss_negated_mean
              [- (1 # 2); 3] [2; 4] Hne Hl)
    as (loss & H1 & _ & _ & H4 & _).
  exists loss. split; [exact H1|]. split; [exact H4|].
  rewrite H4. vm_compute. reflexivity.
Defined.

(** Witness of C5: an epoch of 200 episodes of one step. *)
Lemma train_one_epoch_runs_200_episodes_witness :
  (train_one_epoch 1 (Toy.start 1 3) = Returned Toy.epoch_mean Toy.epoch_world
   /\ exists eps w1 tr,
        episodes_chain 1 Toy.policy_module Toy.value_module (Toy.start 1 3)
          eps w1 /\
        length eps = 200%nat /\
        w_trace w1 = w_trace (Toy.start 1 3) ++ tr /\
        length (filter is_reset tr) = 200%nat /\
        Toy.epoch_mean = np_mean (map ep_return eps) /\
        Toy.epoch_mean == Qsum (map ep_return eps) / 200) /\
  (exists eps w1 w',
     episodes_chain 1 Toy.policy_module Toy.value_module (Toy.start 1 3)
       eps w1 /\
     length eps = 200%nat /\
     train_one_epoch 1 (Toy.start 1 3)
       = Returned (np_mean (map ep_return eps)) w').
Proof.
  destruct (train_one_epoch_runs_200_episodes 1 (Toy.start 1 3))
    as (P1 & P2).
  destruct (P1 _ _ toy_epoch_run)
    as (eps & w1 & tr & stacked & pl & vl & Hc & Hl & Ht & _ & Hr & _ & _ & _
        & _ & Hm & Hq).
  split.
  - split; [exact toy_epoch_run|].
    exists eps, w1, tr. repeat split; assumption.
  - destruct (P2 eps w1 Hc Hl ltac:(reflexivity)) as (w' & Hw).
    exists eps, w1, w'. repeat split; assumption.
Defined.


Example toy_epoch_update_calls :
  skipn 400 (w_trace Toy.epoch_world) =
  [Backward Value (scalar_tensor (160000 # 40000)); OptimizerStep Value;
   Backward Policy (scalar_tensor (200 # 200)); OptimizerStep Policy;
   ZeroGrad Value; ZeroGrad Policy].
Proof. vm_compute. reflexivity. Qed.

(** Witness of C1 as amended: the same epoch. *)
Lemma train_one_epoch_policy_loss_without_baseline_witness :
  train_one_epoch 1 (Toy.start 1 3) = Returned Toy.epoch_mean Toy.epoch_world
  /\ exists eps w1 lq vq pl,
       episodes_chain 1 Toy.policy_module Toy.value_module (Toy.start 1 3)
         eps w1 /\
       batch_of Toy.value_module eps lq vq /\
       (exists tr, w_trace Toy.epoch_world = w_trace (Toy.start 1 3) ++ tr /\
                   backpropagated Policy tr = [scalar_tensor pl]) /\
       pl == - Qmean (map2 Qmult lq (concat (map ep_action_returns eps))).
Proof.
  split; [exact toy_epoch_run|].
  exact (train_one_epoch_policy_loss_without_baseline 1 (Toy.start 1 3)
           Toy.epoch_mean Toy.epoch_world toy_epoch_run).
Defined.

(** Counterexample to C1 as stated.  In the epoch of 200 episodes of one
    step with reward 1, log probability -1 and a critic that says 3, the
    loss backpropagated into the policy is 1, the negated mean of log
    probability times return; with the critic's estimate subtracted from the
    returns it would be -2. *)
Lemma policy_loss_ignores_critic :
  run_episodes 200 1 Toy.policy_module Toy.value_module (mkBatch [] [] [] [])
    (Toy.start 1 3)
    = Returned Toy.epoch_batch Toy.episodes_world /\
  exists pl,
    backpropagated Policy (outcome_trace (train_one_epoch 1 (Toy.start 1 3)))
      = [pl] /\
    item pl == 1 /\
    policy_loss_with_baseline
      (map item (epoch_log_probability_actions Toy.epoch_batch))
      (epoch_action_returns Toy.epoch_batch)
      (map item (epoch_state_value_estimates Toy.epoch_batch)) == - (2) /\
    ~ item pl ==
      policy_loss_with_baseline
        (map item (epoch_log_probability_actions Toy.epoch_batch))
        (epoch_action_returns Toy.epoch_batch)
        (map item (epoch_state_value_estimates Toy.epoch_batch)).
Proof.
  split; [exact toy_episodes_run|].
  exists (scalar_tensor (200 # 200)).
  split; [vm_compute; reflexivity|].
  split; [vm_compute; reflexivity|].
  split; [vm_compute; reflexivity|].
  vm_compute. intros Habs. discriminate Habs.
Qed.

(** Witness of C8: two epochs; the report of epoch 1 with the mean 1. *)
Lemma train_reports_each_epoch_witness :
  (train 1 2 (Toy.start 1 3) = Returned tt Toy.train_world /\
   exists means,
     length means = 2%nat /\
     w_stdout Toy.train_world
       = (w_stdout (Toy.start 1 3) ++ report 0 means)%string /\
     count_char "010" (report 0 means) = 2%nat /\
     (exists digits,
        format_3d 1 =
          (replicate (3 - String.length digits) " " ++ digits)%string /\
        read_numeral digits = Some (N.of_nat 1) /\
        no_leading_zero digits = true /\
        (3 <= String.length (format_3d 1))%nat) /\
     (exists int frac i f,
        format_3f 1 =
          ((if Qle_bool 0 1 then "" else "-") ++ int ++ "." ++ frac)%string /\
        read_numeral int = Some i /\
        no_leading_zero int = true /\
        read_numeral frac = Some f /\
        String.length frac = 3%nat /\
        Qabs (three_decimals i f - Qabs 1) <= 1 # 2000 /\
        Z.of_N (1000 * i + f) = 1000%Z)) /\
  (exists means w',
     epochs_chain 1 0 (initialised (Toy.start 1 3)) means w' /\
     length means = 2%nat /\
     train 1 2 (Toy.start 1 3) = Returned tt w').
Proof.
  destruct (train_reports_each_epoch 1 2 (Toy.start 1 3)) as (P1 & P2).
  destruct (P1 _ toy_train_run) as (means & Hc & Hl & Hs & Hn & Hf).
  destruct (Hf 1%nat 1) as (_ & _ & Hd & int & frac & i & f & H1 & H2 & H3 & H4
                            & H5 & H6 & H7).
  split.
  - split; [exact toy_train_run|]. exists means.
    split; [exact Hl|]. split; [exact Hs|]. split; [exact Hn|].
    split; [exact Hd|].
    exists int, frac, i, f.
    split; [exact H1|]. split; [exact H2|]. split; [exact H3|].
    split; [exact H4|]. split; [exact H5|]. split; [exact H6|].
    apply H7. reflexivity.
  - exists means, Toy.train_world.
    split; [exact Hc|]. split; [exact Hl|]. exact (P2 means _ Hc Hl).
Defined.


(** Witness of C7: a reset that raises, a module given an observation of the
    wrong length, a sampler without actions, a step that raises at once and
    one that raises in the second pass through the loop, an epoch whose
    third episode raises, and [train] with that epoch. *)
Lemma exceptions_propagate_unmodified_witness :
  (* the reset raises *)
  (env_reset (w_env (Faulty.start 1 0 1000)) = inl Faulty.reset_error /\
   run_one_episode 1 Toy.policy_module Toy.value_module
     (Faulty.start 1 0 1000)
   = Raised Faulty.reset_error (Faulty.start 1 0 1000)) /\
  (* the critic raises *)
  (forward (Toy.constant_module 2 1 3) [0] = inl Toy.shape_error /\
   timestep Toy.policy_module (Toy.constant_module 2 1 3) [0]
     (mkMetrics [] [] []) (Toy.start 1 3)
   = Raised Toy.shape_error (Toy.start 1 3) /\
   while_true 2 Toy.policy_module (Toy.constant_module 2 1 3) [0]
     (mkMetrics [] [] []) (Toy.start 1 3)
   = Raised Toy.shape_error (Toy.start 1 3)) /\
  (* the actor raises *)
  (forward (Toy.constant_module 2 2 0) [0] = inl Toy.shape_error /\
   timestep (Toy.constant_module 2 2 0) Toy.value_module [0]
     (mkMetrics [] [] []) (Toy.start 1 3)
   = Raised Toy.shape_error (Toy.start 1 3)) /\
  (* the sampler raises *)
  (categorical_sample (data (as_tensor [])) (w_rng (Toy.start 1 3))
   = inl Toy.empty_error /\
   timestep (Toy.constant_module 1 0 0) Toy.value_module [0]
     (mkMetrics [] [] []) (Toy.start 1 3)
   = Raised Toy.empty_error (Toy.start 1 3)) /\
  (* the first step raises *)
  (env_step (w_env (Faulty.start 1 1000 0)) 0 = inl Faulty.step_error /\
   timestep Toy.policy_module Toy.value_module [0] (mkMetrics [] [] [])
     (Faulty.start 1 1000 0)
   = Raised Faulty.step_error (set_rng 1%nat (Faulty.start 1 1000 0)) /\
   run_one_episode 1 Toy.policy_module Toy.value_module
     (Faulty.start 1 1000 0)
   = Raised Faulty.step_error Faulty.failed_step_world) /\
  (* the second step raises *)
  (timestep Toy.policy_module Toy.value_module [0] (mkMetrics [] [] [])
     (Faulty.start 2 1000 1)
   = Returned ([0], Faulty.first_step_metrics, false)
       Faulty.first_step_world /\
   while_true 1 Toy.policy_module Toy.value_module [0]
     Faulty.first_step_metrics Faulty.first_step_world
   = Raised Faulty.step_error Faulty.second_step_world /\
   while_true 2 Toy.policy_module Toy.value_module [0] (mkMetrics [] [] [])
     (Faulty.start 2 1000 1)
   = Raised Faulty.step_error Faulty.second_step_world) /\
  (* the third episode of an epoch raises *)
  (run_one_episode 1 Toy.policy_module Toy.value_module
     Faulty.two_episodes_world
   = Raised Faulty.reset_error Faulty.two_episodes_world /\
   train_one_epoch 1 (Faulty.start 1 2 1000)
   = Raised Faulty.reset_error Faulty.two_episodes_world) /\
  (* the first epoch of [train] raises *)
  (train_one_epoch 1 (initialised (Faulty.start 1 2 1000))
   = Raised Faulty.reset_error Faulty.train_raised_world /\
   train 1 1 (Faulty.start 1 2 1000)
   = Raised Faulty.reset_error Faulty.train_raised_world).
Proof.
  pose proof (exceptions_propagate_unmodified (E:=Faulty.env) 1
                Toy.policy_module Toy.value_module Faulty.reset_error)
    as Reset_raises.
  pose proof (exceptions_propagate_unmodified (E:=Faulty.env) 1
                Toy.policy_module Toy.value_module Faulty.step_error)
    as Step_raises.
  pose proof (exceptions_propagate_unmodified (E:=Toy.env) 1
                Toy.policy_module (Toy.constant_module 2 1 3)
                Toy.shape_error)
    as Critic_raises.
  pose proof (exceptions_propagate_unmodified (E:=Toy.env) 1
                (Toy.constant_module 2 2 0) Toy.value_module
                Toy.shape_error)
    as Actor_raises.
  pose proof (exceptions_propagate_unmodified (E:=Toy.env) 1
                (Toy.constant_module 1 0 0) Toy.value_module
                Toy.empty_error)
    as Sampler_raises.
  repeat apply conj.
  - vm_compute; reflexivity.
  - apply (proj1 Reset_raises). vm_compute; reflexivity.
  - vm_compute; reflexivity.
  - apply Critic_raises. vm_compute; reflexivity.
  - apply Critic_raises. apply Critic_raises. vm_compute; reflexivity.
  - vm_compute; reflexivity.
  - apply Actor_raises with (v := Toy.value_estimate);
      vm_compute; reflexivity.
  - vm_compute; reflexivity.
  - apply Sampler_raises with (v := Toy.value_estimate) (lg := as_tensor []);
      vm_compute; reflexivity.
  - vm_compute; reflexivity.
  - apply Step_raises
      with (v := Toy.value_estimate) (lg := Toy.policy_logits) (a := 0%nat);
      vm_compute; reflexivity.
  - apply Step_raises with (obs := [0]) (w0 := Faulty.reset_world);
      vm_compute; reflexivity.
  - vm_compute; reflexivity.
  - vm_compute; reflexivity.
  - apply Step_raises
      with (obs1 := [0]) (m1 := Faulty.first_step_metrics)
           (w1 := Faulty.first_step_world);
      vm_compute; reflexivity.
  - vm_compute; reflexivity.
  - assert (Hrun :
      run_episodes 2 1 Toy.policy_module Toy.value_module
        (mkBatch [] [] [] []) (Faulty.start 1 2 1000)
      = Returned Faulty.two_episodes_batch Faulty.two_episodes_world)
      by (vm_compute; reflexivity).
    destruct (run_episodes_inv _ _ _ _ _ _ _ _ Hrun) as (eps & Hc & Hl & _).
    apply Reset_raises with (eps := eps) (w1 := Faulty.two_episodes_world);
      try (vm_compute; reflexivity); try exact Hc.
    rewrite Hl. lia.
  - vm_compute; reflexivity.
  - apply Reset_raises
      with (means := []) (w1 := initialised (Faulty.start 1 2 1000)).
    + constructor.
    + simpl; lia.
    + vm_compute; reflexivity.
Defined.

(** * Further properties of the code *)

(** ** The loss calculators *)

(** ** Sums of squares *)

Lemma Qsquare_nonneg (x : Q) : 0 <= x ^ 2.
Proof. unfold Qle; simpl. nia. Qed.


Lemma Qsum_nonneg (l : list Q) : Forall (fun x => 0 <= x) l -> 0 <= Qsum l.
Proof.
  induction 1 as [|x l Hx _ IH]; simpl; [apply Qle_refl|].
  replace 0 with (0 + 0) by reflexivity. apply Qplus_le_compat; assumption.
Qed.



Lemma Forall_squares (l : list Q) :
  Forall (fun x => 0 <= x) (map (fun x => x ^ 2) l).
Proof.
  apply Forall_forall. intros y Hy. apply in_map_iff in Hy.
  destruct Hy as (x & <- & _). apply Qsquare_nonneg.
Qed.

Lemma Qlen_nonneg {X} (l : list X) : 0 <= Qlen l.
Proof.
  unfold Qlen. change 0 with (inject_Z 0). rewrite <- Zle_Qle. lia.
Qed.

Lemma Qlen_pos {X} (l : list X) : l <> [] -> 0 < Qlen l.
Proof.
  intros Hne. unfold Qlen. change 0 with (inject_Z 0). rewrite <- Zlt_Qlt.
  destruct l; [congruence | simpl; lia].
Qed.

Lemma Qdiv_nonneg (a b : Q) : 0 <= a -> 0 <= b -> 0 <= a / b.
Proof.
  intros Ha Hb. unfold Qdiv. apply Qmult_le_0_compat; [exact Ha|].
  apply Qinv_le_0_compat. exact Hb.
Qed.


(** *** Tensors with entries

    A tensor of the library holds as many entries as its shape says; it has
    an entry when no dimension is 0.  Both facts pass through [torch.stack]
    and through broadcasting. *)

Lemma numel_repeat_one (k : nat) (s : list nat) :
  numel (repeat 1%nat k ++ s) = numel s.
Proof.
  induction k as [|k IH]; simpl; [reflexivity | unfold numel in *; lia].
Qed.

Lemma numel_positive (s : list nat) :
  Forall (fun x => x <> 0%nat) s <-> numel s <> 0%nat.
Proof.
  unfold numel. induction s as [|x s IH]; simpl.
  - split; [lia | constructor].
  - split.
    + intros H. inversion H; subst. apply IH in H3. nia.
    + intros H. constructor; [nia | apply IH; nia].
Qed.

Lemma length_concat_uniform (n : nat) (l : list (list Q)) :
  Forall (fun b => length b = n) l ->
  length (concat l) = (length l * n)%nat.
Proof.
  induction 1 as [|b l Hb _ IH]; simpl; [reflexivity|].
  rewrite length_app, IH, Hb. reflexivity.
Qed.

Lemma chunks_uniform (n x : nat) : forall d : list Q,
  length d = (x * n)%nat ->
  length (chunks n x d) = x /\ Forall (fun c => length c = n) (chunks n x d).
Proof.
  induction x as [|x IH]; intros d Hd; simpl;
    [split; [reflexivity|constructor]|].
  destruct (IH (skipn n d)) as (Hl & Hf).
  { rewrite length_skipn. lia. }
  split; [rewrite Hl; reflexivity|].
  constructor; [|exact Hf]. rewrite length_firstn. lia.
Qed.

(** Expansion to a shape gives as many entries as that shape says. *)
Lemma expand_length (s t : list nat) :
  Forall2 (fun x y => x = y \/ x = 1%nat) s t ->
  forall d, length d = numel s -> length (expand s t d) = numel t.
Proof.
  induction 1 as [|x y s t Hxy Hst IH]; intros d Hd; [exact Hd|].
  cbn [expand].
  change (numel (x :: s)) with (x * numel s)%nat in Hd.
  change (numel (y :: t)) with (y * numel t)%nat.
  destruct (chunks_uniform (numel s) x d Hd) as (Hl & Hf).
  set (blocks := map (expand s t) (chunks (numel s) x d)).
  assert (Hb : Forall (fun b => length b = numel t) blocks).
  { unfold blocks. apply Forall_forall. intros b Hin.
    apply in_map_iff in Hin. destruct Hin as (c & <- & Hc).
    apply IH. rewrite Forall_forall in Hf. apply Hf, Hc. }
  assert (Hn : length blocks = x).
  { unfold blocks. rewrite length_map. exact Hl. }
  destruct (x =? y)%nat eqn:E.
  - apply Nat.eqb_eq in E. subst y.
    rewrite (length_concat_uniform (numel t)), Hn by exact Hb. reflexivity.
  - apply Nat.eqb_neq in E. destruct Hxy as [Hxy|Hxy]; [contradiction|].
    subst x. rewrite (length_concat_uniform (numel t)).
    + rewrite repeat_length. reflexivity.
    + apply Forall_forall. intros b Hin. apply repeat_spec in Hin. subst b.
      destruct blocks as [|b0 bs]; [discriminate Hn|].
      inversion Hb; subst. assumption.
Qed.

Lemma broadcast_aligned_compatible : forall a b r,
  broadcast_aligned a b = Some r ->
  Forall2 (fun x y => x = y \/ x = 1%nat)
    (a ++ repeat 1%nat (length r - length a)) r /\
  Forall2 (fun x y => x = y \/ x = 1%nat)
    (b ++ repeat 1%nat (length r - length b)) r /\
  (Forall (fun x => x <> 0%nat) a -> Forall (fun x => x <> 0%nat) b ->
   Forall (fun x => x <> 0%nat) r).
Proof.
  assert (Hones : forall r : list nat,
            Forall2 (fun x y => x = y \/ x = 1%nat)
              (repeat 1%nat (length r)) r).
  { induction r; simpl; constructor; auto. }
  assert (Hrefl : forall r : list nat,
            Forall2 (fun x y => x = y \/ x = 1%nat)
              (r ++ repeat 1%nat (length r - length r)) r).
  { intros r. rewrite Nat.sub_diag, app_nil_r.
    induction r; constructor; auto. }
  induction a as [|x a IH]; intros b r Hr.
  - simpl in Hr. inversion Hr; subst r; clear Hr.
    split; [|split; [apply Hrefl | auto]].
    simpl. rewrite Nat.sub_0_r. apply Hones.
  - destruct b as [|y b].
    + simpl in Hr. inversion Hr; subst r; clear Hr.
      split; [apply Hrefl | split; [|auto]].
      cbn [app length]. rewrite Nat.sub_0_r. apply (Hones (x :: a)).
    + cbn [broadcast_aligned] in Hr.
      destruct (broadcast_aligned a b) as [r'|] eqn:Hab; [|discriminate].
      destruct (IH b r' Hab) as (Ha & Hb & Hp).
      assert (Hcases : exists z, r = z :: r' /\ (x = z \/ x = 1%nat)
                                 /\ (y = z \/ y = 1%nat) /\ (z = x \/ z = y)).
      { destruct (x =? y)%nat eqn:E1.
        - apply Nat.eqb_eq in E1. inversion Hr; subst. exists y. auto.
        - destruct (x =? 1)%nat eqn:E2.
          + apply Nat.eqb_eq in E2. inversion Hr; subst. exists y. auto.
          + destruct (y =? 1)%nat eqn:E3; [|discriminate].
            apply Nat.eqb_eq in E3. inversion Hr; subst. exists x. auto. }
      destruct Hcases as (z & -> & Hx & Hy & Hz).
      cbn [app length Nat.sub].
      split; [constructor; assumption|].
      split; [constructor; assumption|].
      intros Hpa Hpb. inversion Hpa; subst. inversion Hpb; subst.
      constructor; [destruct Hz; subst; assumption | auto].
Qed.

Lemma Forall2_reversed {X Y} (R : X -> Y -> Prop) (l : list X) (m : list Y) :
  Forall2 R l m -> Forall2 R (rev l) (rev m).
Proof.
  induction 1 as [|x y l m Hxy _ IH]; simpl; [constructor|].
  apply Forall2_app; [exact IH | constructor; [exact Hxy | constructor]].
Qed.

(** The shape two shapes broadcast to: each of them, with leading 1s, agrees
    with it dimension by dimension or has a 1 there; it has no dimension 0
    when they have none. *)
Lemma broadcast_shapes_compatible (a b s : list nat) :
  broadcast_shapes a b = Some s ->
  Forall2 (fun x y => x = y \/ x = 1%nat) (pad_shape s a) s /\
  Forall2 (fun x y => x = y \/ x = 1%nat) (pad_shape s b) s /\
  (Forall (fun x => x <> 0%nat) a -> Forall (fun x => x <> 0%nat) b ->
   Forall (fun x => x <> 0%nat) s).
Proof.
  unfold broadcast_shapes. intros Hs.
  destruct (broadcast_aligned (rev a) (rev b)) as [r|] eqn:Hr; [|discriminate].
  inversion Hs; subst s; clear Hs.
  destruct (broadcast_aligned_compatible _ _ _ Hr) as (Ha & Hb & Hp).
  apply Forall2_reversed in Ha, Hb.
  rewrite rev_app_distr, rev_repeat, rev_involutive, length_rev in Ha, Hb.
  unfold pad_shape. rewrite !length_rev.
  split; [exact Ha|]. split; [exact Hb|].
  intros Hpa Hpb. apply Forall_rev, Hp; apply Forall_rev; assumption.
Qed.

(** [torch.stack] of tensors with as many entries as their shapes say gives
    such a tensor; it has entries when they have. *)
Lemma torch_stack_entries (vs : list tensor) (st : tensor) :
  torch_stack vs = inr st ->
  Forall (fun t => data t <> [] /\ length (data t) = numel (shape t)) vs ->
  length (data st) = numel (shape st) /\
  Forall (fun x => x <> 0%nat) (shape st).
Proof.
  unfold torch_stack. destruct vs as [|t rest]; [discriminate|].
  destruct (forallb _ rest) eqn:Hsh; [|discriminate].
  intros Hst Hwf. inversion Hst; subst st; clear Hst. cbn [shape data].
  assert (Hall : Forall (fun u => length (data u) = numel (shape t))
                   (t :: rest)).
  { inversion Hwf as [|? ? (_ & Ht) Hrest]; subst. constructor; [exact Ht|].
    rewrite forallb_forall in Hsh. rewrite Forall_forall in *.
    intros u Hu. specialize (Hsh u Hu). unfold shape_eqb in Hsh.
    destruct (list_eq_dec Nat.eq_dec (shape u) (shape t)) as [He|];
      [|discriminate].
    rewrite <- He. apply Hrest, Hu. }
  split.
  - change (data t ++ concat (map data rest))
      with (concat (map data (t :: rest))).
    rewrite (length_concat_uniform (numel (shape t))).
    + rewrite length_map. reflexivity.
    + apply Forall_forall. intros d Hd. apply in_map_iff in Hd.
      destruct Hd as (u & <- & Hu). rewrite Forall_forall in Hall.
      apply Hall, Hu.
  - constructor; [discriminate|].
    apply numel_positive. inversion Hwf as [|? ? (Hne & Ht) _]; subst.
    rewrite <- Ht. destruct (data t); [congruence | discriminate].
Qed.

(** The difference of two tensors with entries has entries: as many as its
    shape says, and at least one. *)
Lemma broadcast_op_entries (f : Q -> Q -> Q) (a b r : tensor) :
  broadcast_op f a b = inr r ->
  length (data a) = numel (shape a) -> Forall (fun x => x <> 0%nat) (shape a) ->
  length (data b) = numel (shape b) -> Forall (fun x => x <> 0%nat) (shape b) ->
  length (data r) = numel (shape r) /\ data r <> [].
Proof.
  unfold broadcast_op. intros Hr Hla Hpa Hlb Hpb.
  destruct (broadcast_shapes (shape a) (shape b)) as [s|] eqn:Hs;
    [|discriminate].
  inversion Hr; subst r; clear Hr. cbn [shape data].
  destruct (broadcast_shapes_compatible _ _ _ Hs) as (Ha & Hb & Hp).
  assert (Ea : length (expand (pad_shape s (shape a)) s (data a)) = numel s).
  { apply expand_length; [exact Ha|].
    unfold pad_shape. rewrite numel_repeat_one. exact Hla. }
  assert (Eb : length (expand (pad_shape s (shape b)) s (data b)) = numel s).
  { apply expand_length; [exact Hb|].
    unfold pad_shape. rewrite numel_repeat_one. exact Hlb. }
  assert (El : length (map2 f (expand (pad_shape s (shape a)) s (data a))
                          (expand (pad_shape s (shape b)) s (data b)))
               = numel s).
  { rewrite map2_length; [exact Ea | rewrite Ea, Eb; reflexivity]. }
  split; [exact El|].
  intros Hnil. rewrite Hnil in El. simpl in El.
  symmetry in El. revert El. apply numel_positive, Hp; assumption.
Qed.

(** X1.  From returns, at least one, and estimates that have entries, as many
    as their shapes say, whatever these shapes: when
    [calculate_value_fn_loss] returns a loss, it has taken the mean of the
    squares of a difference tensor that has an entry, and the loss is a
    0-dimensional tensor whose entry is not negative. *)
Theorem calculate_value_fn_loss_never_negative
    (rs : list Q) (vs : list tensor) (loss : tensor) :
  rs <> [] ->
  Forall (fun t => data t <> [] /\ length (data t) = numel (shape t)) vs ->
  calculate_value_fn_loss rs vs = inr loss ->
  exists value_estimates diff x,
    torch_stack vs = inr value_estimates /\
    tensor_sub value_estimates (as_tensor rs) = inr diff /\
    data diff <> [] /\
    length (data diff) = numel (shape diff) /\
    loss = tensor_mean (tensor_square diff) /\
    loss = scalar_tensor x /\
    x == Qmean (map (fun d => d ^ 2) (data diff)) /\
    0 <= x.
Proof.
  unfold calculate_value_fn_loss, bind_exn. intros Hrs Hvs Hl.
  destruct (torch_stack vs) as [e|st] eqn:Hst; [discriminate|].
  destruct (tensor_sub st (as_tensor rs)) as [e|diff] eqn:Hd; [discriminate|].
  inversion Hl; subst loss; clear Hl.
  destruct (torch_stack_entries _ _ Hst Hvs) as (Hls & Hps).
  destruct (broadcast_op_entries Qminus st (as_tensor rs) diff Hd Hls Hps)
    as (Hld & Hne).
  { unfold as_tensor, numel. simpl. lia. }
  { constructor; [|constructor]. destruct rs; [congruence | discriminate]. }
  exists st, diff, (py_sum (map (fun d => d ^ 2) (data diff))
                    / Qlen (map (fun d => d ^ 2) (data diff))).
  split; [reflexivity|]. split; [exact Hd|].
  split; [exact Hne|]. split; [exact Hld|].
  split; [reflexivity|]. split; [reflexivity|].
  split.
  - unfold Qmean. rewrite py_sum_Qsum. reflexivity.
  - apply Qdiv_nonneg; [|apply Qlen_nonneg].
    rewrite py_sum_Qsum. apply Qsum_nonneg, Forall_squares.
Qed.







Lemma broadcast_shapes_vectors_mismatch (n m : nat) :
  n <> m -> n <> 1%nat -> m <> 1%nat -> broadcast_shapes [n] [m] = None.
Proof.
  intros Hnm Hn Hm. unfold broadcast_shapes. cbn [rev app broadcast_aligned].
  destruct (Nat.eqb_spec n m); [contradiction|].
  destruct (Nat.eqb_spec n 1); [contradiction|].
  destruct (Nat.eqb_spec m 1); [contradiction|].
  reflexivity.
Qed.

Lemma torch_stack_mixed_shapes (t u : tensor) (ts : list tensor) :
  In u ts -> shape u <> shape t ->
  torch_stack (t :: ts) =
  inl (RuntimeError "stack expects each tensor to be equal size").
Proof.
  intros Hin Hne. unfold torch_stack.
  destruct (forallb _ ts) eqn:Hf; [|reflexivity].
  exfalso. rewrite forallb_forall in Hf. specialize (Hf u Hin).
  unfold shape_eqb in Hf.
  destruct (list_eq_dec Nat.eq_dec (shape u) (shape t));
    [contradiction | discriminate].
Qed.

(** X4.  [calculate_value_fn_loss] raises a [RuntimeError], whatever the
    returns, when the list of estimates is empty and when two estimates
    differ in shape; on 0-dimensional estimates it raises when their number
    differs from the number of returns and neither number is 1. *)
Theorem calculate_value_fn_loss_rejects :
  (forall rs,
     calculate_value_fn_loss rs [] =
     inl (RuntimeError "stack expects a non-empty TensorList")) /\
  (forall rs t u ts,
     In u ts -> shape u <> shape t ->
     calculate_value_fn_loss rs (t :: ts) =
     inl (RuntimeError "stack expects each tensor to be equal size")) /\
  (forall rs vs,
     vs <> [] ->
     length vs <> length rs -> length vs <> 1%nat -> length rs <> 1%nat ->
     calculate_value_fn_loss rs (map scalar_tensor vs) =
     inl (RuntimeError
            "The size of tensor a must match the size of tensor b")).
Proof.
  split; [|split].
  - reflexivity.
  - intros rs t u ts Hin Hne. unfold calculate_value_fn_loss.
    rewrite (torch_stack_mixed_shapes t u ts Hin Hne). reflexivity.
  - intros rs vs Hne Hl Hv Hr. unfold calculate_value_fn_loss.
    rewrite torch_stack_scalars by exact Hne. cbn [bind_exn].
    unfold tensor_sub, broadcast_op, as_tensor. cbn [shape].
    rewrite broadcast_shapes_vectors_mismatch by assumption. reflexivity.
Qed.

(** X5.  [calculate_policy_fn_loss] raises a [RuntimeError] on two 1-D
    tensors whose lengths differ, unless one of them has exactly one
    entry. *)
Theorem calculate_policy_fn_loss_rejects_length_mismatch (lp rs : list Q) :
  length lp <> length rs -> length lp <> 1%nat -> length rs <> 1%nat ->
  calculate_policy_fn_loss (as_tensor lp) (as_tensor rs) =
  inl (RuntimeError "The size of tensor a must match the size of tensor b").
Proof.
  intros Hl Hp Hr. unfold calculate_policy_fn_loss, tensor_mul, broadcast_op.
  unfold as_tensor. cbn [shape].
  rewrite broadcast_shapes_vectors_mismatch by assumption. reflexivity.
Qed.

Lemma Qsum_weighted_linear (a b : Q) (lp : list Q) : forall rs1 rs2,
  length rs1 = length lp -> length rs2 = length lp ->
  Qsum (map2 Qmult lp (map2 (fun r1 r2 => a * r1 + b * r2) rs1 rs2)) ==
  a * Qsum (map2 Qmult lp rs1) + b * Qsum (map2 Qmult lp rs2).
Proof.
  induction lp as [|p lp IH]; intros [|r1 rs1] [|r2 rs2] H1 H2;
    simpl in H1, H2; try discriminate.
  - simpl. ring.
  - cbn [map2 Qsum]. rewrite IH by lia. ring.
Qed.

(** X6.  The policy loss is linear in the returns: on a non-empty batch, the
    loss of the returns [a * r1 + b * r2] is [a] times the loss of the
    returns [r1] plus [b] times the loss of the returns [r2].  So the loss
    of returns less a baseline is the loss of the returns less the loss of
    the baseline. *)
Theorem calculate_policy_fn_loss_linear_in_returns
    (lp rs1 rs2 : list Q) (a b : Q) :
  lp <> [] -> length rs1 = length lp -> length rs2 = length lp ->
  exists x x1 x2,
    calculate_policy_fn_loss (as_tensor lp)
      (as_tensor (map2 (fun r1 r2 => a * r1 + b * r2) rs1 rs2))
      = inr (scalar_tensor x) /\
    calculate_policy_fn_loss (as_tensor lp) (as_tensor rs1)
      = inr (scalar_tensor x1) /\
    calculate_policy_fn_loss (as_tensor lp) (as_tensor rs2)
      = inr (scalar_tensor x2) /\
    x == a * x1 + b * x2.
Proof.
  intros Hne H1 H2.
  assert (H12 : length lp =
                length (map2 (fun r1 r2 => a * r1 + b * r2) rs1 rs2)).
  { rewrite map2_length by congruence. auto. }
  destruct (policy_loss_of_batch lp _ Hne H12) as (x & Hx & _ & Ex & _).
  destruct (policy_loss_of_batch lp rs1 Hne (eq_sym H1))
    as (x1 & Hx1 & _ & Ex1 & _).
  destruct (policy_loss_of_batch lp rs2 Hne (eq_sym H2))
    as (x2 & Hx2 & _ & Ex2 & _).
  exists x, x1, x2. repeat split; try assumption.
  rewrite Ex, Ex1, Ex2, Qsum_weighted_linear by assumption.
  pose proof (Qlen_pos lp Hne) as Hpos.
  field. intros Hz. rewrite Hz in Hpos. discriminate Hpos.
Qed.

(** ** The modules and the rollout *)

Section ModelFacts.

Context {E R G A : Type} `{Gym E} `{Torch R G A}.

Implicit Types (w : @world E R G A).

Lemma relu_length (x : list Q) : length (relu x) = length x.
Proof. unfold relu. apply length_map. Qed.

(** The module of two layers whose sizes fit: it accepts exactly the
    observations of [in_features] entries. *)
Lemma forward_accepts (m : Sequential) (obs : list Q) :
  out_features (layer1 m) = in_features (layer2 m) ->
  length obs = in_features (layer1 m) ->
  exists out,
    forward m obs = inr (as_tensor out) /\
    length out = out_features (layer2 m).
Proof.
  intros Hmid Hobs. unfold forward, linear_forward, bind_exn.
  rewrite Hobs, Nat.eqb_refl.
  rewrite relu_length, length_map, length_seq, Hmid, Nat.eqb_refl.
  eexists; split; [reflexivity|].
  rewrite length_map, length_seq. reflexivity.
Qed.

Lemma forward_rejects (m : Sequential) (obs : list Q) :
  length obs <> in_features (layer1 m) ->
  forward m obs =
  inl (RuntimeError "mat1 and mat2 shapes cannot be multiplied").
Proof.
  intros Hobs. unfold forward, linear_forward, bind_exn.
  destruct (Nat.eqb_spec (length obs) (in_features (layer1 m)));
    [contradiction | reflexivity].
Qed.

(** X7.  [create_model] always returns; it draws the parameters of the two
    layers from the random source and touches nothing else.  The module it
    returns, called on an observation of [number_observation_features]
    entries, gives a 1-D tensor of exactly [number_outputs] entries, which
    [get_policy] takes as the logits of its distribution, one per action; on
    an observation of any other length the module, and so [get_policy],
    raises a [RuntimeError]. *)
Theorem create_model_output_shape (n k : nat) w :
  exists model w',
    create_model n k w = Returned model w' /\
    w_env w' = w_env w /\ w_policy w' = w_policy w /\
    w_value w' = w_value w /\ w_stdout w' = w_stdout w /\
    w_trace w' = w_trace w /\
    forall obs w2,
      (length obs = n ->
       exists out,
         length out = k /\
         forward model obs = inr (as_tensor out) /\
         get_policy model obs w2 = Returned (mkCategorical out) w2) /\
      (length obs <> n ->
       forward model obs =
         inl (RuntimeError "mat1 and mat2 shapes cannot be multiplied") /\
       get_policy model obs w2 =
         Raised (RuntimeError "mat1 and mat2 shapes cannot be multiplied")
           w2).
Proof.
  eexists; eexists. split; [apply create_model_run|].
  repeat (split; [reflexivity|]).
  intros obs w2. split; intros Hobs.
  - edestruct (forward_accepts
                 (mkSequential
                    (mkLinear n 32
                       (fst (fst (init_parameters n 32 (w_rng w))))
                       (snd (fst (init_parameters n 32 (w_rng w)))))
                    (mkLinear 32 k
                       (fst (fst (init_parameters 32 k
                                    (snd (init_parameters n 32 (w_rng w))))))
                       (snd (fst (init_parameters 32 k
                                    (snd (init_parameters n 32 (w_rng w))))))))
                 obs) as (out & Hf & Hl); [reflexivity | exact Hobs |].
    exists out. split; [exact Hl|]. split; [exact Hf|].
    unfold get_policy. erewrite bind_Returned by (apply lift_run; exact Hf).
    reflexivity.
  - split; [apply forward_rejects; exact Hobs|].
    unfold get_policy. apply bind_Raised. unfold lift.
    rewrite forward_rejects by exact Hobs. reflexivity.
Qed.

End ModelFacts.

Section RolloutFacts.

Context {E R G A : Type} `{Gym E} `{Torch R G A}.

Implicit Types (w : @world E R G A) (m : metrics) (pm vm : Sequential).

Lemma record_all_cons m (t : transition) ts :
  record_all
    (mkMetrics (rewards m ++ [t_reward t])
       (state_value_estimates m ++ [t_estimate t])
       (log_probability_actions m ++ [t_log_probability t])) ts
  = record_all m (t :: ts).
Proof.
  unfold record_all. cbn [rewards state_value_estimates
    log_probability_actions map]. rewrite <- !app_assoc. reflexivity.
Qed.

(** The loop, when it returns, has made a rollout from its observation. *)
Lemma while_true_rollout fuel pm vm : forall obs m w m' w',
  while_true fuel pm vm obs m w = Returned m' w' ->
  exists ts,
    rollout pm vm obs (w_env w) (w_rng w) ts (w_env w') (w_rng w') /\
    (length ts <= fuel)%nat /\
    m' = record_all m ts /\
    w_policy w' = w_policy w /\ w_value w' = w_value w /\
    w_stdout w' = w_stdout w /\
    w_trace w' = w_trace w ++ map t_event ts.
Proof.
  induction fuel as [|fuel IH]; intros obs m w m' w' Hw; simpl in Hw.
  - discriminate.
  - apply bind_inv in Hw. destruct Hw as ([[obs1 m1] done] & w1 & Ht & Hk).
    apply timestep_inv in Ht.
    destruct Ht
      as (v & lg & a & rng' & r & env' & Hv & Hp & Hs & He & Hm & Hw1).
    set (t := mkTransition obs v
                (scalar_tensor (categorical_log_prob (data lg) a)) a r done).
    assert (Hok : transition_ok pm vm t (w_env w) (w_rng w) obs1 env' rng').
    { exists lg. subst t. cbn. repeat split; assumption. }
    destruct done.
    + inversion Hk; subst m' w'. exists [t]. subst w1 m1.
      cbn [log set_env set_rng w_env w_rng w_policy w_value w_stdout w_trace
           length map].
      repeat split; auto; try lia.
      exact (rollout_last pm vm t _ _ _ _ _ Hok eq_refl).
    + apply IH in Hk.
      destruct Hk as (ts & Hr & Hl & Hm' & Hpo & Hva & Hso & Htr).
      exists (t :: ts). subst w1 m1.
      cbn [log set_env set_rng w_env w_rng w_policy w_value w_stdout w_trace]
        in *.
      repeat split; auto.
      * exact (rollout_next pm vm t ts _ _ _ _ _ _ _ Hok eq_refl Hr).
      * simpl; lia.
      * rewrite Hm'. apply (record_all_cons m t ts).
      * rewrite Htr, <- app_assoc. reflexivity.
Qed.

Lemma transition_ok_timestep pm vm (t : transition) m w obs' e' r' :
  transition_ok pm vm t (w_env w) (w_rng w) obs' e' r' ->
  timestep pm vm (t_observation t) m w =
  Returned
    (obs',
     mkMetrics (rewards m ++ [t_reward t])
       (state_value_estimates m ++ [t_estimate t])
       (log_probability_actions m ++ [t_log_probability t]),
     t_done t)
    (log (t_event t) (set_env e' (set_rng r' w))).
Proof.
  intros (lg & Hv & Hp & Hs & Hlp & He). rewrite Hlp.
  eapply timestep_run; eassumption.
Qed.

(** A rollout makes the loop return, when the bound on the loop is at least
    its length. *)
Lemma rollout_while_true pm vm obs e r ts e' r' :
  rollout pm vm obs e r ts e' r' ->
  forall fuel m w,
    (length ts <= fuel)%nat -> w_env w = e -> w_rng w = r ->
    while_true fuel pm vm obs m w =
    Returned (record_all m ts)
      (mkWorld e' r' (w_policy w) (w_value w) (w_stdout w)
         (w_trace w ++ map t_event ts)).
Proof.
  induction 1 as [t e r obs' e' r' Hok Hd
                 |t ts e r obs' e' r' e'' r'' Hok Hd Hr IH];
    intros fuel m w Hl He Hrng; subst e r;
    (destruct fuel as [|fuel]; [simpl in Hl; lia|]); cbn [while_true].
  - erewrite bind_Returned by (apply transition_ok_timestep; exact Hok).
    rewrite Hd. unfold ret, record_all. reflexivity.
  - erewrite bind_Returned by (apply transition_ok_timestep; exact Hok).
    rewrite Hd.
    rewrite (IH fuel _ (log (t_event t) (set_env e' (set_rng r' w))));
      [| simpl in Hl; lia | reflexivity | reflexivity].
    rewrite record_all_cons.
    cbn [log set_env set_rng w_env w_rng w_policy w_value w_stdout w_trace
         map].
    rewrite <- app_assoc. reflexivity.
Qed.

Lemma rollout_nonempty pm vm obs e r ts e' r' :
  rollout pm vm obs e r ts e' r' -> ts <> [].
Proof. destruct 1; discriminate. Qed.

(** In a rollout every timestep but the last reports not done, and the last
    reports done. *)
Lemma rollout_done_last pm vm obs e r ts e' r' :
  rollout pm vm obs e r ts e' r' ->
  exists ts0 t,
    ts = ts0 ++ [t] /\ t_done t = true /\
    Forall (fun t0 => t_done t0 = false) ts0.
Proof.
  induction 1 as [t e r obs' e' r' Hok Hd
                 |t ts e r obs' e' r' e'' r'' Hok Hd Hr IH].
  - exists [], t. repeat split; auto.
  - destruct IH as (ts0 & t1 & -> & Hd1 & Hf).
    exists (t :: ts0), t1. repeat split; auto.
Qed.

Lemma run_one_episode_rollout_inv fuel pm vm w ep w' :
  run_one_episode fuel pm vm w = Returned ep w' ->
  exists obs0 env0 ts,
    env_reset (w_env w) = inr (obs0, env0) /\
    rollout pm vm obs0 env0 (w_rng w) ts (w_env w') (w_rng w') /\
    (length ts <= fuel)%nat /\
    ep = episode_of ts /\
    w' = after_episode w (w_env w') (w_rng w') ts.
Proof.
  unfold run_one_episode. intros Hr.
  apply bind_inv in Hr. destruct Hr as (obs & w0 & Hreset & Hr).
  apply bind_inv in Hr. destruct Hr as (m & w1 & Hloop & Hr).
  inversion Hr; subst ep w1; clear Hr.
  unfold reset in Hreset.
  destruct (env_reset (w_env w)) as [e|[o env']] eqn:He; try discriminate.
  inversion Hreset; subst obs w0; clear Hreset.
  apply while_true_rollout in Hloop.
  destruct Hloop as (ts & Hro & Hl & Hm & Hpo & Hva & Hso & Htr).
  cbn [log set_env w_env w_rng w_policy w_value w_stdout w_trace] in *.
  exists o, env', ts. subst m.
  unfold record_all, episode_of, after_episode.
  cbn [rewards state_value_estimates log_probability_actions app].
  rewrite length_map.
  repeat split; auto.
  destruct w' as [e1 r1 p1 v1 s1 t1].
  cbn [w_env w_rng w_policy w_value w_stdout w_trace] in *.
  rewrite Hpo, Hva, Hso, Htr, <- app_assoc. reflexivity.
Qed.

(** X8.  An episode that [run_one_episode] returns is a rollout from the
    observation of [env.reset()]: at every timestep the recorded value
    estimate is the critic's output and the recorded log probability is
    that of the action sent to the environment, both computed from the
    observation the step before returned (the reset, for the first); the
    episode has made no more timesteps than the bound on its loop, and has
    changed nothing but the environment, the random source and the trace. *)
Theorem run_one_episode_is_rollout fuel pm vm w ep w' :
  run_one_episode fuel pm vm w = Returned ep w' ->
  exists obs0 env0 ts,
    env_reset (w_env w) = inr (obs0, env0) /\
    rollout pm vm obs0 env0 (w_rng w) ts (w_env w') (w_rng w') /\
    (length ts <= fuel)%nat /\
    ep_value_estimates ep = map t_estimate ts /\
    ep_log_probabilities ep = map t_log_probability ts /\
    ep_action_returns ep = repeat (py_sum (map t_reward ts)) (length ts) /\
    ep_return ep = py_sum (map t_reward ts) /\
    w' = after_episode w (w_env w') (w_rng w') ts.
Proof.
  intros Hr. apply run_one_episode_rollout_inv in Hr.
  destruct Hr as (obs0 & env0 & ts & He & Hro & Hl & -> & Hw).
  exists obs0, env0, ts. repeat split; auto.
Qed.

Lemma run_one_episode_rollout_run fuel pm vm w obs0 env0 ts e' r' :
  env_reset (w_env w) = inr (obs0, env0) ->
  rollout pm vm obs0 env0 (w_rng w) ts e' r' ->
  (length ts <= fuel)%nat ->
  run_one_episode fuel pm vm w =
  Returned (episode_of ts) (after_episode w e' r' ts).
Proof.
  intros He Hro Hl. unfold run_one_episode.
  assert (Hr : reset w = Returned obs0 (log Reset (set_env env0 w))).
  { unfold reset. rewrite He. reflexivity. }
  rewrite (bind_Returned _ _ _ _ _ Hr).
  erewrite bind_Returned.
  2:{ apply (rollout_while_true _ _ _ _ _ _ _ _ Hro); auto. }
  unfold ret, episode_of, after_episode, record_all.
  cbn [rewards state_value_estimates log_probability_actions app
       log set_env w_env w_rng w_policy w_value w_stdout w_trace].
  rewrite length_map, <- app_assoc. reflexivity.
Qed.

(** X9.  Whenever the environment, reset, admits a rollout -- no call raises
    and some step reports done -- [run_one_episode] returns it, for every
    bound on the loop that is at least the number of its timesteps: the
    value estimates, the log probabilities and the rewards of its timesteps,
    with the sum of the rewards as the return of every timestep. *)
Theorem rollout_run_one_episode fuel pm vm w obs0 env0 ts e' r' :
  env_reset (w_env w) = inr (obs0, env0) ->
  rollout pm vm obs0 env0 (w_rng w) ts e' r' ->
  (length ts <= fuel)%nat ->
  exists ep,
    run_one_episode fuel pm vm w = Returned ep (after_episode w e' r' ts) /\
    ep_value_estimates ep = map t_estimate ts /\
    ep_log_probabilities ep = map t_log_probability ts /\
    ep_action_returns ep = repeat (py_sum (map t_reward ts)) (length ts) /\
    ep_return ep = py_sum (map t_reward ts).
Proof.
  intros He Hro Hl. exists (episode_of ts).
  split; [|repeat split].
  eapply run_one_episode_rollout_run; eassumption.
Qed.

(** X10.  The loop of [run_one_episode] ends at the first timestep that
    reports done: in an episode that returns, the last call of [env.step]
    reported done and no call before it did. *)
Theorem run_one_episode_stops_at_first_done fuel pm vm w ep w' :
  run_one_episode fuel pm vm w = Returned ep w' ->
  exists steps a r,
    w_trace w' = w_trace w ++ Reset :: steps ++ [Step a r true] /\
    Forall (fun ev => exists a0 r0, ev = Step a0 r0 false) steps.
Proof.
  intros Hr. apply run_one_episode_rollout_inv in Hr.
  destruct Hr as (obs0 & env0 & ts & _ & Hro & _ & _ & Hw).
  apply rollout_done_last in Hro. destruct Hro as (ts0 & t & -> & Hd & Hf).
  exists (map t_event ts0), (t_action t), (t_reward t).
  rewrite Hw. unfold after_episode. cbn [w_trace].
  rewrite map_app. cbn [map]. unfold t_event at 2. rewrite Hd.
  split; [reflexivity|].
  apply Forall_forall. intros ev Hev. apply in_map_iff in Hev.
  destruct Hev as (t0 & <- & Hin).
  rewrite Forall_forall in Hf. unfold t_event. rewrite (Hf t0 Hin).
  eauto.
Qed.

(** X11.  The only way out of the loop is a step that reports done: with an
    environment whose steps never report done, [run_one_episode] returns
    for no bound on its loop (it raises or runs for ever). *)
Theorem run_one_episode_needs_done fuel pm vm w :
  (forall e a obs r d e',
     env_step e a = inr (obs, r, d, e') -> d = false) ->
  forall ep w', run_one_episode fuel pm vm w <> Returned ep w'.
Proof.
  intros Hnever ep w' Hr. apply run_one_episode_rollout_inv in Hr.
  destruct Hr as (obs0 & env0 & ts & _ & Hro & _).
  clear - Hnever Hro.
  induction Hro as [t e r obs' e' r' Hok Hd
                   |t ts e r obs' e' r' e'' r'' Hok Hd Hr IH]; [|exact IH].
  destruct Hok as (lg & _ & _ & _ & _ & He).
  apply Hnever in He. congruence.
Qed.

End RolloutFacts.

(** ** What an episode and an epoch leave alone *)

Section Frames.

Context {E R G A : Type} `{Gym E} `{Torch R G A}.

Implicit Types (w : @world E R G A) (m : metrics) (pm vm : Sequential).

Lemma environment_calls_only_refl w : environment_calls_only w w.
Proof.
  unfold environment_calls_only. repeat split.
  exists []. rewrite app_nil_r. auto.
Qed.

Lemma environment_calls_only_trans w1 w2 w3 :
  environment_calls_only w1 w2 -> environment_calls_only w2 w3 ->
  environment_calls_only w1 w3.
Proof.
  intros (Hp1 & Hv1 & Hs1 & tr1 & Ht1 & He1)
         (Hp2 & Hv2 & Hs2 & tr2 & Ht2 & He2).
  unfold environment_calls_only. repeat split; try congruence.
  exists (tr1 ++ tr2). rewrite Ht2, Ht1, app_assoc, forallb_app, He1, He2.
  auto.
Qed.

Lemma rollout_only_ret {T} (a : T) :
  rollout_only (E:=E) (R:=R) (G:=G) (A:=A) (ret a).
Proof. intros w. apply environment_calls_only_refl. Qed.

Lemma rollout_only_lift {T} (x : exn + T) :
  rollout_only (E:=E) (R:=R) (G:=G) (A:=A) (lift x).
Proof.
  intros w. unfold lift. destruct x; apply environment_calls_only_refl.
Qed.

Lemma rollout_only_diverge {T} :
  rollout_only (E:=E) (R:=R) (G:=G) (A:=A) (@diverge E R G A T).
Proof. intros w. exact I. Qed.

Lemma rollout_only_bind {T U} (c : M (E:=E) (R:=R) (G:=G) (A:=A) T)
    (k : T -> M (E:=E) (R:=R) (G:=G) (A:=A) U) :
  rollout_only c -> (forall a, rollout_only (k a)) -> rollout_only (bind c k).
Proof.
  intros Hc Hk w. unfold bind. specialize (Hc w).
  destruct (c w) as [a w1|e w1|]; simpl in *; auto.
  specialize (Hk a w1).
  destruct (k a w1) as [b w2|e w2|]; simpl in *; auto;
    eapply environment_calls_only_trans; eauto.
Qed.

Lemma rollout_only_reset : rollout_only (E:=E) (R:=R) (G:=G) (A:=A) reset.
Proof.
  intros w. unfold reset.
  destruct (env_reset (w_env w)) as [e|[o e']]; simpl.
  - apply environment_calls_only_refl.
  - unfold environment_calls_only. simpl. repeat split.
    exists [Reset]. auto.
Qed.

Lemma rollout_only_step (action : nat) :
  rollout_only (E:=E) (R:=R) (G:=G) (A:=A) (step action).
Proof.
  intros w. unfold step.
  destruct (env_step (w_env w) action) as [e|[[[o r] d] e']]; simpl.
  - apply environment_calls_only_refl.
  - unfold environment_calls_only. simpl. repeat split.
    exists [Step action r d]. auto.
Qed.

Lemma rollout_only_sample (policy : Categorical) :
  rollout_only (E:=E) (R:=R) (G:=G) (A:=A) (sample policy).
Proof.
  intros w. unfold sample.
  destruct (categorical_sample (logits policy) (w_rng w)) as [e|[a r']];
    simpl.
  - apply environment_calls_only_refl.
  - unfold environment_calls_only. simpl. repeat split.
    exists []. rewrite app_nil_r. auto.
Qed.

Lemma rollout_only_timestep pm vm obs m :
  rollout_only (E:=E) (R:=R) (G:=G) (A:=A) (timestep pm vm obs m).
Proof.
  unfold timestep.
  apply rollout_only_bind; [apply rollout_only_lift | intros v].
  apply rollout_only_bind.
  { unfold get_policy.
    apply rollout_only_bind; [apply rollout_only_lift | intros lg].
    apply rollout_only_ret. }
  intros policy. apply rollout_only_bind.
  { unfold get_action.
    apply rollout_only_bind; [apply rollout_only_sample | intros a].
    apply rollout_only_ret. }
  intros [a lp].
  apply rollout_only_bind; [apply rollout_only_step | intros [[o r] d]].
  apply rollout_only_ret.
Qed.

Lemma rollout_only_while_true fuel pm vm : forall obs m,
  rollout_only (E:=E) (R:=R) (G:=G) (A:=A) (while_true fuel pm vm obs m).
Proof.
  induction fuel as [|fuel IH]; intros obs m; cbn [while_true].
  - apply rollout_only_diverge.
  - apply rollout_only_bind; [apply rollout_only_timestep|].
    intros [[o m1] [|]]; [apply rollout_only_ret | apply IH].
Qed.

Lemma rollout_only_run_one_episode fuel pm vm :
  rollout_only (E:=E) (R:=R) (G:=G) (A:=A) (run_one_episode fuel pm vm).
Proof.
  unfold run_one_episode.
  apply rollout_only_bind; [apply rollout_only_reset | intros obs].
  apply rollout_only_bind; [apply rollout_only_while_true | intros m].
  apply rollout_only_ret.
Qed.

Lemma rollout_only_run_episodes n fuel pm vm : forall b,
  rollout_only (E:=E) (R:=R) (G:=G) (A:=A) (run_episodes n fuel pm vm b).
Proof.
  induction n as [|n IH]; intros b; cbn [run_episodes].
  - apply rollout_only_ret.
  - apply rollout_only_bind; [apply rollout_only_run_one_episode|].
    intros [[[ar lps] svs] er]. apply IH.
Qed.

(** X12.  However an episode ends -- returning or raising, at the reset or
    at any timestep -- [run_one_episode] has changed neither module, no
    gradient buffer and no optimizer, has written nothing, and has made no
    call but [env.reset] and [env.step]. *)
Theorem run_one_episode_updates_nothing fuel pm vm w :
  (forall ep w',
     run_one_episode fuel pm vm w = Returned ep w' ->
     environment_calls_only w w') /\
  (forall e w',
     run_one_episode fuel pm vm w = Raised e w' ->
     environment_calls_only w w').
Proof.
  pose proof (rollout_only_run_one_episode fuel pm vm w) as Hf.
  split; intros x w' Hr; rewrite Hr in Hf; exact Hf.
Qed.

(** The update step of the epoch never raises. *)
Lemma epoch_update_Raised b w e w' :
  epoch_update b w = Raised e w' -> w' = w.
Proof.
  unfold epoch_update. intros Hu.
  apply bind_inv_Raised in Hu. destruct Hu as [Hu|(st & w1 & Hs & Hu)].
  { unfold lift in Hu. destruct (torch_stack _); inversion Hu; auto. }
  apply lift_inv in Hs. destruct Hs as [_ ->].
  apply bind_inv_Raised in Hu. destruct Hu as [Hu|(pl & w1 & Hs & Hu)].
  { unfold lift in Hu.
    destruct (calculate_policy_fn_loss _ _); inversion Hu; auto. }
  apply lift_inv in Hs. destruct Hs as [_ ->].
  apply bind_inv_Raised in Hu. destruct Hu as [Hu|(vl & w1 & Hs & Hu)].
  { unfold lift in Hu.
    destruct (calculate_value_fn_loss _ _); inversion Hu; auto. }
  apply lift_inv in Hs. destruct Hs as [_ ->].
  destruct (update_step_run (np_mean (epoch_episode_returns b)) vl pl w)
    as (w2 & Hrun & _).
  rewrite Hrun in Hu. discriminate.
Qed.

Lemma train_one_epoch_Raised_inv fuel w e w' :
  train_one_epoch fuel w = Raised e w' -> environment_calls_only w w'.
Proof.
  rewrite train_one_epoch_bind. intros Ht.
  apply bind_inv_Raised in Ht. destruct Ht as [Ht|(b & w1 & Hb & Ht)].
  - pose proof (rollout_only_run_episodes 200 fuel (module (w_policy w))
                  (module (w_value w)) (mkBatch [] [] [] []) w) as Hf.
    rewrite Ht in Hf. exact Hf.
  - pose proof (rollout_only_run_episodes 200 fuel (module (w_policy w))
                  (module (w_value w)) (mkBatch [] [] [] []) w) as Hf.
    rewrite Hb in Hf. apply epoch_update_Raised in Ht. subst w'. exact Hf.
Qed.

(** X13.  An epoch that raises has updated nothing: the two losses are both
    computed before the first [backward], so an exception of the
    environment, of a module, of the sampler or of a loss calculation
    leaves both modules, their gradient buffers and their optimizers as
    they were when the epoch began, with nothing written and no call made
    but [env.reset] and [env.step]. *)
Theorem train_one_epoch_raises_before_any_update fuel w e w' :
  train_one_epoch fuel w = Raised e w' ->
  w_policy w' = w_policy w /\ w_value w' = w_value w /\
  w_stdout w' = w_stdout w /\
  exists tr,
    w_trace w' = w_trace w ++ tr /\ forallb is_env_event tr = true /\
    count_events (is_backward Value) tr = 0%nat /\
    count_events (is_backward Policy) tr = 0%nat /\
    count_events (is_optimizer_step Value) tr = 0%nat /\
    count_events (is_optimizer_step Policy) tr = 0%nat.
Proof.
  intros Ht. apply train_one_epoch_Raised_inv in Ht.
  destruct Ht as (Hp & Hv & Hs & tr & Htr & Hev).
  repeat (split; [assumption|]). exists tr.
  repeat (split; [assumption|]).
  assert (Hz : forall p : event -> bool,
             (forall ev, is_env_event ev = true -> p ev = false) ->
             count_events p tr = 0%nat).
  { intros p Hp0. unfold count_events. clear - Hev Hp0.
    induction tr as [|ev tr IH]; [reflexivity|].
    simpl in Hev. apply andb_true_iff in Hev. destruct Hev as [Hev Hrest].
    simpl. rewrite (Hp0 ev Hev). auto. }
  repeat split; apply Hz; intros [] Hx; simpl in *; try discriminate;
    reflexivity.
Qed.

End Frames.

(** ** Rewards and calls of an epoch *)

Lemma count_app (p : event -> bool) (l m : list event) :
  count_events p (l ++ m) = (count_events p l + count_events p m)%nat.
Proof. unfold count_events. rewrite filter_app, length_app. reflexivity. Qed.

Lemma rewards_of_events (ts : list transition) :
  rewards_of (map t_event ts) = map t_reward ts.
Proof. induction ts as [|t ts IH]; simpl; [|rewrite <- IH]; reflexivity. Qed.

Lemma count_steps_events (ts : list transition) :
  count_events is_step (map t_event ts) = length ts /\
  count_events is_reset (map t_event ts) = 0%nat /\
  forallb is_env_event (map t_event ts) = true.
Proof.
  unfold count_events. induction ts as [|t ts (I1 & I2 & I3)]; simpl; auto.
Qed.

Section EpochRewards.

Context {E R G A : Type} `{Gym E} `{Torch R G A}.

Implicit Types (w : @world E R G A) (pm vm : Sequential).

Lemma episode_rewards fuel pm vm w ep w' :
  run_one_episode fuel pm vm w = Returned ep w' ->
  exists tr,
    w_trace w' = w_trace w ++ tr /\ forallb is_env_event tr = true /\
    count_events is_reset tr = 1%nat /\
    length (ep_action_returns ep) = count_events is_step tr /\
    (1 <= count_events is_step tr)%nat /\
    ep_return ep == Qsum (rewards_of tr).
Proof.
  intros Hr. apply run_one_episode_rollout_inv in Hr.
  destruct Hr as (obs0 & env0 & ts & _ & Hro & _ & -> & Hw).
  apply rollout_nonempty in Hro.
  destruct (count_steps_events ts) as (C1 & C2 & C3).
  exists (Reset :: map t_event ts). rewrite Hw.
  unfold after_episode, episode_of, ep_action_returns, ep_return.
  cbn [w_trace fst snd].
  change (Reset :: map t_event ts) with ([Reset] ++ map t_event ts).
  rewrite !count_app, C1, C2, forallb_app, C3, rewards_of_app.
  rewrite rewards_of_events, repeat_length, py_sum_Qsum.
  repeat split; auto.
  destruct ts; [congruence | simpl; lia].
Qed.

Lemma chain_rewards fuel pm vm w eps w' :
  episodes_chain fuel pm vm w eps w' ->
  exists tr,
    w_trace w' = w_trace w ++ tr /\ forallb is_env_event tr = true /\
    count_events is_reset tr = length eps /\
    length (concat (map ep_action_returns eps)) = count_events is_step tr /\
    (length eps <= count_events is_step tr)%nat /\
    Qsum (map ep_return eps) == Qsum (rewards_of tr).
Proof.
  induction 1 as [w|w w1 w2 ep eps He Hc IH].
  - exists []. rewrite app_nil_r. repeat split; auto.
  - apply episode_rewards in He.
    destruct He as (tr1 & T1 & E1 & R1 & L1 & N1 & S1).
    destruct IH as (tr2 & T2 & E2 & R2 & L2 & N2 & S2).
    exists (tr1 ++ tr2).
    rewrite T2, T1, <- app_assoc, forallb_app, E1, E2, !count_app, R1, R2.
    cbn [map concat length Qsum].
    rewrite length_app, L1, L2, rewards_of_app, Qsum_app, S1, S2.
    repeat split; auto; try lia.
Qed.

Lemma count_update_events (vl pl : tensor) :
  count_events is_reset (update_events vl pl) = 0%nat /\
  count_events is_step (update_events vl pl) = 0%nat /\
  rewards_of (update_events vl pl) = [] /\
  (forall r,
     count_events (is_backward r) (update_events vl pl) = 1%nat /\
     count_events (is_optimizer_step r) (update_events vl pl) = 1%nat /\
     count_events (is_zero_grad r) (update_events vl pl) = 1%nat).
Proof. repeat split; destruct r; reflexivity. Qed.

Lemma count_env_events (tr : list event) :
  forallb is_env_event tr = true ->
  forall r,
    count_events (is_backward r) tr = 0%nat /\
    count_events (is_optimizer_step r) tr = 0%nat /\
    count_events (is_zero_grad r) tr = 0%nat.
Proof.
  intros Hev r. unfold count_events.
  induction tr as [|ev tr IH]; [auto|].
  simpl in Hev. apply andb_true_iff in Hev. destruct Hev as [Hev Hrest].
  destruct ev; simpl in *; try discriminate; auto.
Qed.

(** The calls of an epoch that returns. *)
Lemma train_one_epoch_calls fuel w mean w' :
  train_one_epoch fuel w = Returned mean w' ->
  exists tr,
    w_trace w' = w_trace w ++ tr /\
    count_events is_reset tr = 200%nat /\
    (200 <= count_events is_step tr)%nat /\
    mean == Qsum (rewards_of tr) / 200 /\
    forall r,
      count_events (is_backward r) tr = 1%nat /\
      count_events (is_optimizer_step r) tr = 1%nat /\
      count_events (is_zero_grad r) tr = 1%nat.
Proof.
  intros Ht. apply train_one_epoch_inv in Ht.
  destruct Ht as (eps & w1 & stacked & pl & vl & Hc & Hl & _ & _ & _ & Hm
                  & Htr & _).
  apply chain_rewards in Hc.
  destruct Hc as (tr & T1 & Ev & Nr & _ & Ns & Hs).
  destruct (count_update_events vl pl) as (U1 & U2 & U3 & U4).
  exists (tr ++ update_events vl pl).
  rewrite Htr, T1, <- app_assoc, !count_app, U1, U2, rewards_of_app, U3.
  rewrite app_nil_r, Nr, Hl.
  repeat split; auto; try lia.
  - subst mean. rewrite np_mean_Qmean. unfold Qmean, Qlen.
    rewrite length_map, Hl, Hs. reflexivity.
  - rewrite count_app. destruct (count_env_events tr Ev r) as (-> & _ & _).
    destruct (U4 r) as (-> & _ & _). reflexivity.
  - rewrite count_app. destruct (count_env_events tr Ev r) as (_ & -> & _).
    destruct (U4 r) as (_ & -> & _). reflexivity.
  - rewrite count_app. destruct (count_env_events tr Ev r) as (_ & _ & ->).
    destruct (U4 r) as (_ & _ & ->). reflexivity.
Qed.

(** X14.  The mean return an epoch reports is the total of the rewards the
    environment paid during the epoch, over all timesteps of all episodes,
    divided by 200; the epoch has reset the environment 200 times and has
    stepped it at least 200 times. *)
Theorem train_one_epoch_mean_of_rewards fuel w mean w' :
  train_one_epoch fuel w = Returned mean w' ->
  exists tr,
    w_trace w' = w_trace w ++ tr /\
    count_events is_reset tr = 200%nat /\
    (200 <= count_events is_step tr)%nat /\
    mean == Qsum (rewards_of tr) / 200.
Proof.
  intros Ht. apply train_one_epoch_calls in Ht.
  destruct Ht as (tr & T & Nr & Ns & Hm & _).
  exists tr. auto.
Qed.

End EpochRewards.

(** *** A critic of several outputs *)

Lemma torch_stack_vectors (k : nat) (vq : list (list Q)) :
  vq <> [] -> Forall (fun o => length o = k) vq ->
  torch_stack (map as_tensor vq) =
  inr (mkTensor [length vq; k] (concat vq)).
Proof.
  destruct vq as [|o vq]; [congruence|]. intros _ Hf.
  inversion Hf as [|? ? Ho Hrest]; subst.
  unfold torch_stack. cbn [map].
  replace (forallb _ (map as_tensor vq)) with true.
  - cbn [shape as_tensor length]. rewrite length_map.
    change (as_tensor o :: map as_tensor vq) with (map as_tensor (o :: vq)).
    rewrite map_map. cbn [data as_tensor]. rewrite map_id. reflexivity.
  - symmetry. apply forallb_forall. intros t Ht.
    apply in_map_iff in Ht. destruct Ht as (o' & <- & Hin).
    rewrite Forall_forall in Hrest. cbn [shape as_tensor].
    rewrite (Hrest o' Hin). unfold shape_eqb.
    destruct (list_eq_dec Nat.eq_dec [length o] [length o]); congruence.
Qed.

Lemma broadcast_shapes_matrix_vector_mismatch (n k m : nat) :
  k <> m -> k <> 1%nat -> m <> 1%nat -> broadcast_shapes [n; k] [m] = None.
Proof.
  intros Hkm Hk Hm. unfold broadcast_shapes.
  cbn [rev app broadcast_aligned].
  destruct (Nat.eqb_spec k m); [contradiction|].
  destruct (Nat.eqb_spec k 1); [contradiction|].
  destruct (Nat.eqb_spec m 1); [contradiction|].
  reflexivity.
Qed.

Lemma calculate_value_fn_loss_vectors_mismatch (k : nat)
    (rs : list Q) (vq : list (list Q)) :
  vq <> [] -> Forall (fun o => length o = k) vq ->
  k <> length rs -> k <> 1%nat -> length rs <> 1%nat ->
  calculate_value_fn_loss rs (map as_tensor vq) =
  inl (RuntimeError "The size of tensor a must match the size of tensor b").
Proof.
  intros Hne Hf Hk H1 Hr. unfold calculate_value_fn_loss.
  rewrite (torch_stack_vectors k vq Hne Hf). cbn [bind_exn].
  unfold tensor_sub, broadcast_op, as_tensor. cbn [shape].
  rewrite broadcast_shapes_matrix_vector_mismatch by assumption.
  reflexivity.
Qed.

Section CriticOutputs.

Context {E R G A : Type} `{Gym E} `{Torch R G A}.

Implicit Types (w : @world E R G A).

(** X15.  [train_one_epoch] needs a critic of one output.  With a critic of
    any other number of outputs below 200, no epoch returns: when its 200
    episodes have returned, the value loss cannot broadcast the estimates
    against the returns of the batch, which are at least 200. *)
Theorem train_one_epoch_needs_one_critic_output fuel w :
  out_features (layer2 (module (w_value w))) <> 1%nat ->
  (out_features (layer2 (module (w_value w))) < 200)%nat ->
  forall mean w', train_one_epoch fuel w <> Returned mean w'.
Proof.
  intros Hk1 Hk200 mean w' Ht. apply train_one_epoch_inv in Ht.
  destruct Ht as (eps & w1 & stacked & pl & vl & Hc & Hl & _ & _ & Hvl & _).
  destruct (chain_facts _ _ _ _ _ _ Hc) as ((lq & vq & B) & _).
  destruct B as (_ & Hvq & Fv & Ll & Lv & N).
  rewrite Hvq in Hvl.
  rewrite (calculate_value_fn_loss_vectors_mismatch
             (out_features (layer2 (module (w_value w))))) in Hvl;
    try assumption; try lia.
  - discriminate.
  - destruct vq; [simpl in Lv; lia | discriminate].
Qed.

End CriticOutputs.

(** ** Runs of the training driver *)

Section TrainRuns.

Context {E R G A : Type} `{Gym E} `{Torch R G A}.

Implicit Types (w : @world E R G A).

(** The calls of epochs run one after the other. *)
Lemma epochs_chain_calls fuel k w means w' :
  epochs_chain fuel k w means w' ->
  exists tr,
    w_trace w' = w_trace w ++ tr /\
    count_events is_reset tr = (200 * length means)%nat /\
    forall r,
      count_events (is_backward r) tr = length means /\
      count_events (is_optimizer_step r) tr = length means /\
      count_events (is_zero_grad r) tr = length means.
Proof.
  induction 1 as [k w|k w w1 w2 mean means Ht Hc IH].
  - exists []. rewrite app_nil_r. repeat split; reflexivity.
  - apply train_one_epoch_calls in Ht.
    destruct Ht as (tr1 & T1 & R1 & _ & _ & U1).
    destruct IH as (tr2 & T2 & R2 & U2).
    cbn [set_stdout w_trace] in T2.
    exists (tr1 ++ tr2).
    rewrite T2, T1, <- app_assoc, count_app, R1, R2. cbn [length].
    repeat split; try lia; rewrite count_app;
      destruct (U1 r) as (B1 & O1 & Z1); destruct (U2 r) as (B2 & O2 & Z2);
      lia.
Qed.

(** X16.  A run of [train] that returns has reset the environment exactly 200
    times per epoch and has made, for each of the two modules, exactly one
    [backward], one optimizer step and one [zero_grad] per epoch. *)
Theorem train_call_counts fuel epochs w w' :
  train fuel epochs w = Returned tt w' ->
  exists tr,
    w_trace w' = w_trace w ++ tr /\
    count_events is_reset tr = (200 * epochs)%nat /\
    forall r,
      count_events (is_backward r) tr = epochs /\
      count_events (is_optimizer_step r) tr = epochs /\
      count_events (is_zero_grad r) tr = epochs.
Proof.
  intros Ht. rewrite train_unfold in Ht.
  apply epoch_loop_inv in Ht. destruct Ht as (means & Hc & Hl).
  apply epochs_chain_calls in Hc. rewrite Hl in Hc. exact Hc.
Qed.





(** X19.  In every epoch of a run of [train] the value loss that is
    backpropagated is not the mean squared error: the critic [train]
    creates has one output, its estimates have shape [1], and the loss is
    the mean, over all pairs of a timestep [i] and a timestep [j] of the
    batch, of the squared difference of the estimate at [i] and the return
    at [j]. *)
Theorem train_value_loss_all_pairs fuel w means w1 mean w2 :
  epochs_chain fuel 0 (initialised w) means w1 ->
  train_one_epoch fuel w1 = Returned mean w2 ->
  exists eps w' lq vq vl,
    episodes_chain fuel (module (w_policy w1)) (module (w_value w1))
      w1 eps w' /\
    batch_of (module (w_value w1)) eps lq vq /\
    (exists tr, w_trace w2 = w_trace w1 ++ tr /\
                backpropagated Value tr = [scalar_tensor vl]) /\
    vl ==
      Qsum (flat_map
              (fun v => map (fun r => (v - r) ^ 2)
                          (concat (map ep_action_returns eps)))
              (map (hd 0) vq))
      / (Qlen vq * Qlen (concat (map ep_action_returns eps))).
Proof.
  intros Hc Ht.
  apply (train_one_epoch_value_loss_all_pairs _ _ _ _ Ht).
  apply (train_critic_has_one_output _ _ _ _ Hc).
Qed.

(** X20.  Run as a script, the program trains for 30 epochs: a run that
    returns has written 30 reports, one line each, has run 6000 episodes
    and has stepped each optimizer 30 times. *)
Theorem main_trains_30_epochs fuel w w' :
  main fuel w = Returned tt w' ->
  exists means tr,
    length means = 30%nat /\
    w_stdout w' = (w_stdout w ++ report 0 means)%string /\
    count_char "010" (report 0 means) = 30%nat /\
    w_trace w' = w_trace w ++ tr /\
    count_events is_reset tr = (200 * 30)%nat /\
    count_events (is_optimizer_step Policy) tr = 30%nat /\
    count_events (is_optimizer_step Value) tr = 30%nat.
Proof.
  unfold main. intros Ht. rewrite train_unfold in Ht.
  apply epoch_loop_inv in Ht. destruct Ht as (means & Hc & Hl).
  pose proof (epochs_chain_stdout _ _ _ _ _ Hc) as Hs.
  apply epochs_chain_calls in Hc. destruct Hc as (tr & Htr & Nr & Hu).
  exists means, tr. rewrite Hl in *.
  destruct (Hu Policy) as (_ & Op & _). destruct (Hu Value) as (_ & Ov & _).
  repeat split; auto.
  rewrite count_newline_report. exact Hl.
Qed.

End TrainRuns.

(** ** The critic and the rollout *)

Lemma forward_accepted_length (m : Sequential) (obs : list Q) (v : tensor) :
  forward m obs = inr v -> length obs = in_features (layer1 m).
Proof.
  unfold forward, linear_forward, bind_exn.
  destruct (Nat.eqb_spec (length obs) (in_features (layer1 m)));
    [auto | discriminate].
Qed.

Section CriticIgnored.

Context {E R G A : Type} `{Gym E} `{Torch R G A}.

Implicit Types (w : @world E R G A) (pm vm : Sequential).

(** A rollout made with one critic is, estimates apart, the rollout made
    with any other critic that accepts the same observations. *)
Lemma rollout_other_critic pm vm1 vm2 obs e r ts e' r' :
  in_features (layer1 vm2) = in_features (layer1 vm1) ->
  out_features (layer1 vm2) = in_features (layer2 vm2) ->
  rollout pm vm1 obs e r ts e' r' ->
  exists ts',
    rollout pm vm2 obs e r ts' e' r' /\
    length ts' = length ts /\
    map t_reward ts' = map t_reward ts /\
    map t_log_probability ts' = map t_log_probability ts /\
    map t_event ts' = map t_event ts.
Proof.
  intros Hin Hmid.
  assert (Hstep : forall t e r obs' e' r',
            transition_ok pm vm1 t e r obs' e' r' ->
            exists v2,
              transition_ok pm vm2
                (mkTransition (t_observation t) v2 (t_log_probability t)
                   (t_action t) (t_reward t) (t_done t)) e r obs' e' r').
  { intros t e0 r0 obs' e1 r1 (lg & Hv & Hp & Hs & Hlp & He).
    apply forward_accepted_length in Hv. rewrite <- Hin in Hv.
    destruct (forward_accepts vm2 (t_observation t) Hmid Hv)
      as (out & Hf & _).
    exists (as_tensor out), lg. cbn. repeat split; assumption. }
  induction 1 as [t e r obs' e' r' Hok Hd
                 |t ts e r obs' e' r' e'' r'' Hok Hd Hr IH].
  - destruct (Hstep _ _ _ _ _ _ Hok) as (v2 & Hok2).
    eexists [_]. split.
    + exact (rollout_last pm vm2 _ _ _ _ _ _ Hok2 Hd).
    + repeat split; reflexivity.
  - destruct (Hstep _ _ _ _ _ _ Hok) as (v2 & Hok2).
    destruct IH as (ts' & Hr' & Hl & Hrw & Hlp & Hev).
    eexists (_ :: ts'). split.
    + exact (rollout_next pm vm2 _ ts' _ _ _ _ _ _ _ Hok2 Hd Hr').
    + cbn [length map]. rewrite Hl, Hrw, Hlp, Hev.
      repeat split; reflexivity.
Qed.

Lemma run_one_episode_other_critic fuel pm vm1 vm2 w1 w2 ep1 w1' :
  in_features (layer1 vm2) = in_features (layer1 vm1) ->
  out_features (layer1 vm2) = in_features (layer2 vm2) ->
  w_env w2 = w_env w1 -> w_rng w2 = w_rng w1 ->
  run_one_episode fuel pm vm1 w1 = Returned ep1 w1' ->
  exists ep2 ts,
    run_one_episode fuel pm vm2 w2 =
      Returned ep2 (after_episode w2 (w_env w1') (w_rng w1') ts) /\
    w_trace w1' = w_trace w1 ++ Reset :: map t_event ts /\
    ep_action_returns ep2 = ep_action_returns ep1 /\
    ep_log_probabilities ep2 = ep_log_probabilities ep1 /\
    ep_return ep2 = ep_return ep1.
Proof.
  intros Hin Hmid He Hr Hrun. apply run_one_episode_rollout_inv in Hrun.
  destruct Hrun as (obs0 & env0 & ts & Hreset & Hro & Hl & -> & Hw).
  destruct (rollout_other_critic _ _ _ _ _ _ _ _ _ Hin Hmid Hro)
    as (ts' & Hro' & Hl' & Hrw & Hlp & Hev).
  rewrite <- He in Hreset. rewrite <- Hr in Hro'.
  exists (episode_of ts'), ts'. split; [|split].
  - apply (run_one_episode_rollout_run fuel pm vm2 w2 obs0 env0 ts');
      [assumption | assumption | lia].
  - rewrite Hw, Hev. reflexivity.
  - unfold episode_of, ep_action_returns, ep_log_probabilities, ep_return.
    cbn [fst snd]. rewrite Hl', Hrw, Hlp. auto.
Qed.

(** X21.  The critic has no part in the rollout: an episode run with another
    critic, one that accepts the same observations, ends in the same world
    -- the same calls made on the environment, the same state of the
    environment and of the random source -- with the same per-timestep
    returns, log probabilities and episode return; only the recorded value
    estimates can differ. *)
Theorem run_one_episode_ignores_critic fuel pm vm1 vm2 w ep1 w' :
  in_features (layer1 vm2) = in_features (layer1 vm1) ->
  out_features (layer1 vm2) = in_features (layer2 vm2) ->
  run_one_episode fuel pm vm1 w = Returned ep1 w' ->
  exists ep2,
    run_one_episode fuel pm vm2 w = Returned ep2 w' /\
    ep_action_returns ep2 = ep_action_returns ep1 /\
    ep_log_probabilities ep2 = ep_log_probabilities ep1 /\
    ep_return ep2 = ep_return ep1.
Proof.
  intros Hin Hmid Hrun.
  destruct (run_one_episode_other_critic fuel pm vm1 vm2 w w ep1 w'
              Hin Hmid eq_refl eq_refl Hrun)
    as (ep2 & ts & Hrun2 & Htr & Hret & Hlp & Hr).
  exists ep2. repeat split; try assumption.
  rewrite Hrun2. f_equal.
  pose proof (rollout_only_run_one_episode fuel pm vm1 w) as Hf.
  rewrite Hrun in Hf. destruct Hf as (Hp & Hv & Hs & _).
  destruct w' as [e1 r1 p1 v1 s1 t1].
  unfold after_episode.
  cbn [w_env w_rng w_policy w_value w_stdout w_trace] in *.
  rewrite Hp, Hv, Hs, Htr. reflexivity.
Qed.

Lemma episodes_chain_other_critic fuel pm vm1 vm2 :
  in_features (layer1 vm2) = in_features (layer1 vm1) ->
  out_features (layer1 vm2) = in_features (layer2 vm2) ->
  forall w1 eps1 wa1,
    episodes_chain fuel pm vm1 w1 eps1 wa1 ->
    forall w2,
      w_env w2 = w_env w1 -> w_rng w2 = w_rng w1 ->
      exists eps2 wa2,
        episodes_chain fuel pm vm2 w2 eps2 wa2 /\
        length eps2 = length eps1 /\
        map ep_action_returns eps2 = map ep_action_returns eps1 /\
        map ep_log_probabilities eps2 = map ep_log_probabilities eps1 /\
        map ep_return eps2 = map ep_return eps1 /\
        w_env wa2 = w_env wa1 /\ w_rng wa2 = w_rng wa1.
Proof.
  intros Hin Hmid.
  induction 1 as [w1|w1 wb1 wa1 ep1 eps1 He Hc IH]; intros w2 Henv Hrng.
  - exists [], w2. repeat split; auto. constructor.
  - destruct (run_one_episode_other_critic fuel pm vm1 vm2 w1 w2 ep1 wb1
                Hin Hmid Henv Hrng He)
      as (ep2 & ts & Hrun2 & _ & Hret & Hlp & Hr).
    destruct (IH (after_episode w2 (w_env wb1) (w_rng wb1) ts)
                eq_refl eq_refl)
      as (eps2 & wa2 & Hc2 & Hl & Hrets & Hlps & Hrs & Henv2 & Hrng2).
    exists (ep2 :: eps2), wa2. cbn [map length].
    rewrite Hl, Hrets, Hlps, Hrs, Hret, Hlp, Hr.
    repeat split; auto.
    econstructor; eassumption.
Qed.

(** X22.  The critic has no part in what the policy learns.  Take two worlds
    with the same environment, random source and policy learner (module,
    gradient buffer, optimizer), and critics that may differ, the second
    accepting the observations the first accepts and having one output.
    When the epoch returns from the first world, it returns from the second
    with the same mean return, and leaves the same policy learner, the same
    environment and the same random source. *)
Theorem train_one_epoch_policy_ignores_critic fuel w1 w2 mean w1' :
  w_env w2 = w_env w1 -> w_rng w2 = w_rng w1 ->
  w_policy w2 = w_policy w1 ->
  in_features (layer1 (module (w_value w2)))
    = in_features (layer1 (module (w_value w1))) ->
  out_features (layer1 (module (w_value w2)))
    = in_features (layer2 (module (w_value w2))) ->
  out_features (layer2 (module (w_value w2))) = 1%nat ->
  train_one_epoch fuel w1 = Returned mean w1' ->
  exists w2',
    train_one_epoch fuel w2 = Returned mean w2' /\
    w_policy w2' = w_policy w1' /\
    w_env w2' = w_env w1' /\ w_rng w2' = w_rng w1'.
Proof.
  intros Henv Hrng Hpol Hin Hmid Hout Ht.
  apply train_one_epoch_inv in Ht.
  destruct Ht as (eps1 & wa1 & stacked1 & pl1 & vl1 & Hc1 & Hl1 & Hs1 & Hpl1
                  & _ & Hm1 & _ & _ & Hp1 & He1 & Hr1 & _).
  destruct (chain_facts _ _ _ _ _ _ Hc1) as (_ & _ & _ & _ & _ & Hpa1 & _).
  destruct (episodes_chain_other_critic fuel _ _ _ Hin Hmid _ _ _ Hc1
              w2 Henv Hrng)
    as (eps2 & wa2 & Hc2 & Hl2 & Hrets & Hlps & Hrs & Henv2 & Hrng2).
  rewrite <- Hpol in Hc2.
  destruct (train_one_epoch_run fuel w2 eps2 wa2 Hc2) as (w2' & Hrun2);
    [congruence | exact Hout |].
  exists w2'. rewrite Hrs, <- Hm1 in Hrun2. split; [exact Hrun2|].
  apply train_one_epoch_inv in Hrun2.
  destruct Hrun2 as (eps & wa & stacked2 & pl2 & vl2 & Hc & Hl & Hs2 & Hpl2
                     & _ & _ & _ & _ & Hp2 & He2 & Hr2 & _).
  destruct (episodes_chain_functional _ _ _ _ _ _ Hc _ _ Hc2) as [-> ->];
    [congruence|].
  destruct (chain_facts _ _ _ _ _ _ Hc2) as (_ & _ & _ & _ & _ & Hpa2 & _).
  unfold ep_log_probabilities, ep_action_returns in *.
  rewrite Hlps, Hs1 in Hs2. inversion Hs2; subst stacked2; clear Hs2.
  rewrite Hrets, Hpl1 in Hpl2. inversion Hpl2; subst pl2; clear Hpl2.
  rewrite Hp2, Hp1, Hpa2, Hpa1, Hpol, He2, He1, Hr2, Hr1.
  auto.
Qed.

End CriticIgnored.

(** ** Concrete runs of the further properties *)

Lemma toy_first_epoch_run :
  train_one_epoch 1 (initialised (Toy.start 1 3))
  = Returned Runs.first_epoch_mean Runs.first_epoch_world.
Proof. vm_compute. reflexivity. Defined.



Lemma faulty_epoch_run :
  train_one_epoch 1 (Faulty.start 1 2 1000)
  = Raised Faulty.reset_error Faulty.two_episodes_world.
Proof. vm_compute. reflexivity. Defined.

(** The estimates [1] and [2] against the returns 1 and 2: the difference has
    the four entries 0, -1, 1, 0 and the loss is 2/4. *)
Lemma calculate_value_fn_loss_never_negative_witness :
  [1; 2] <> [] /\
  Forall (fun t => data t <> [] /\ length (data t) = numel (shape t))
    [as_tensor [1]; as_tensor [2]] /\
  calculate_value_fn_loss [1; 2] [as_tensor [1]; as_tensor [2]]
    = inr (scalar_tensor (2 # 4)) /\
  exists value_estimates diff x,
    torch_stack [as_tensor [1]; as_tensor [2]] = inr value_estimates /\
    tensor_sub value_estimates (as_tensor [1; 2]) = inr diff /\
    data diff <> [] /\
    length (data diff) = numel (shape diff) /\
    scalar_tensor (2 # 4) = tensor_mean (tensor_square diff) /\
    scalar_tensor (2 # 4) = scalar_tensor x /\
    x == Qmean (map (fun d => d ^ 2) (data diff)) /\
    0 <= x.
Proof.
  assert (Hrs : [1; 2] <> []) by discriminate.
  assert (Hvs : Forall
                  (fun t => data t <> [] /\ length (data t) = numel (shape t))
                  [as_tensor [1]; as_tensor [2]]).
  { repeat constructor; discriminate. }
  assert (Hrun : calculate_value_fn_loss [1; 2] [as_tensor [1]; as_tensor [2]]
                 = inr (scalar_tensor (2 # 4))) by (vm_compute; reflexivity).
  split; [exact Hrs|]. split; [exact Hvs|]. split; [exact Hrun|].
  exact (calculate_value_fn_loss_never_negative _ _ _ Hrs Hvs Hrun).
Defined.



(** No estimates; a 0-dimensional estimate beside one of shape [1]; two
    0-dimensional estimates against three returns. *)
Lemma calculate_value_fn_loss_rejects_witness :
  calculate_value_fn_loss [1] [] =
    inl (RuntimeError "stack expects a non-empty TensorList") /\
  calculate_value_fn_loss [1; 2] [scalar_tensor 1; as_tensor [2]] =
    inl (RuntimeError "stack expects each tensor to be equal size") /\
  calculate_value_fn_loss [1; 2; 3] (map scalar_tensor [1; 2]) =
    inl (RuntimeError "The size of tensor a must match the size of tensor b").
Proof.
  destruct calculate_value_fn_loss_rejects as (P1 & P2 & P3).
  split; [apply P1|]. split.
  - apply (P2 [1; 2] (scalar_tensor 1) (as_tensor [2]) [as_tensor [2]]).
    + left; reflexivity.
    + discriminate.
  - apply (P3 [1; 2; 3] [1; 2]); discriminate.
Defined.

(** Two log probabilities against three returns. *)
Lemma calculate_policy_fn_loss_rejects_length_mismatch_witness :
  length [- (1); - (2)] <> length [1; 2; 3] /\
  calculate_policy_fn_loss (as_tensor [- (1); - (2)]) (as_tensor [1; 2; 3]) =
  inl (RuntimeError "The size of tensor a must match the size of tensor b").
Proof.
  split; [discriminate|].
  apply (calculate_policy_fn_loss_rejects_length_mismatch
           [- (1); - (2)] [1; 2; 3]); discriminate.
Defined.

(** Returns [3; 5] less the baseline [1; 2]. *)
Lemma calculate_policy_fn_loss_linear_in_returns_witness :
  [- (1); - (2)] <> [] /\
  exists x x1 x2,
    calculate_policy_fn_loss (as_tensor [- (1); - (2)])
      (as_tensor (map2 (fun r1 r2 => 1 * r1 + - (1) * r2) [3; 5] [1; 2]))
      = inr (scalar_tensor x) /\
    calculate_policy_fn_loss (as_tensor [- (1); - (2)]) (as_tensor [3; 5])
      = inr (scalar_tensor x1) /\
    calculate_policy_fn_loss (as_tensor [- (1); - (2)]) (as_tensor [1; 2])
      = inr (scalar_tensor x2) /\
    x == 1 * x1 + - (1) * x2.
Proof.
  assert (Hne : [- (1); - (2)] <> []) by discriminate.
  split; [exact Hne|].
  exact (calculate_policy_fn_loss_linear_in_returns
           [- (1); - (2)] [3; 5] [1; 2] 1 (- (1)) Hne eq_refl eq_refl).
Defined.

(** The episode of three steps. *)
Lemma run_one_episode_is_rollout_witness :
  run_one_episode 5 Toy.policy_module Toy.value_module (Toy.start 3 3)
    = Returned Toy.episode_result Toy.episode_world /\
  exists obs0 env0 ts,
    env_reset (w_env (Toy.start 3 3)) = inr (obs0, env0) /\
    rollout Toy.policy_module Toy.value_module obs0 env0
      (w_rng (Toy.start 3 3)) ts
      (w_env Toy.episode_world) (w_rng Toy.episode_world) /\
    (length ts <= 5)%nat /\
    ep_value_estimates Toy.episode_result = map t_estimate ts /\
    ep_log_probabilities Toy.episode_result = map t_log_probability ts.
Proof.
  split; [exact toy_episode_run|].
  destruct (run_one_episode_is_rollout _ _ _ _ _ _ toy_episode_run)
    as (obs0 & env0 & ts & He & Hro & Hl & Hv & Hlp & _).
  exists obs0, env0, ts. repeat split; assumption.
Defined.

(** An episode of one step, with any bound on the loop from 1 on. *)
Lemma rollout_run_one_episode_witness :
  env_reset (w_env (Toy.start 1 3)) = inr ([0], Toy.mkEnv 0 1 0) /\
  rollout Toy.policy_module Toy.value_module [0] (Toy.mkEnv 0 1 0) 0%nat
    [Runs.only_step] (Toy.mkEnv 1 1 0) 1%nat /\
  exists ep,
    run_one_episode 7 Toy.policy_module Toy.value_module (Toy.start 1 3)
      = Returned ep
          (after_episode (Toy.start 1 3) (Toy.mkEnv 1 1 0) 1%nat
             [Runs.only_step]) /\
    ep_return ep = py_sum [1].
Proof.
  assert (Hreset : env_reset (w_env (Toy.start 1 3))
                   = inr ([0], Toy.mkEnv 0 1 0)) by reflexivity.
  assert (Hro : rollout Toy.policy_module Toy.value_module [0]
                  (Toy.mkEnv 0 1 0) 0%nat [Runs.only_step]
                  (Toy.mkEnv 1 1 0) 1%nat).
  { apply (rollout_last Toy.policy_module Toy.value_module Runs.only_step
             (Toy.mkEnv 0 1 0) 0%nat [1] (Toy.mkEnv 1 1 0) 1%nat);
      [|reflexivity].
    exists Toy.policy_logits. repeat split; vm_compute; reflexivity. }
  split; [exact Hreset|]. split; [exact Hro|].
  destruct (rollout_run_one_episode 7 Toy.policy_module Toy.value_module
              (Toy.start 1 3) [0] (Toy.mkEnv 0 1 0) [Runs.only_step]
              (Toy.mkEnv 1 1 0) 1%nat Hreset Hro)
    as (ep & Hrun & _ & _ & _ & Hret); [simpl; lia|].
  exists ep. split; assumption.
Defined.

(** The episode of three steps: the third reports done. *)
Lemma run_one_episode_stops_at_first_done_witness :
  run_one_episode 5 Toy.policy_module Toy.value_module (Toy.start 3 3)
    = Returned Toy.episode_result Toy.episode_world /\
  exists steps a r,
    w_trace Toy.episode_world
      = w_trace (Toy.start 3 3) ++ Reset :: steps ++ [Step a r true] /\
    Forall (fun ev => exists a0 r0, ev = Step a0 r0 false) steps.
Proof.
  split; [exact toy_episode_run|].
  exact (run_one_episode_stops_at_first_done _ _ _ _ _ _ toy_episode_run).
Defined.

(** The environment [Endless]. *)
Lemma run_one_episode_needs_done_witness :
  (forall (e : nat) a obs r d e',
     env_step e a = inr (obs, r, d, e') -> d = false) /\
  forall ep w',
    run_one_episode 9 Toy.policy_module Toy.value_module Endless.start
    <> Returned ep w'.
Proof.
  assert (Hnever : forall (e : nat) a obs r d e',
            env_step e a = inr (obs, r, d, e') -> d = false).
  { intros e a obs r d e' He. inversion He. reflexivity. }
  split; [exact Hnever|].
  exact (run_one_episode_needs_done 9 Toy.policy_module Toy.value_module
           Endless.start Hnever).
Defined.

(** An episode that returns and one whose second step raises. *)
Lemma run_one_episode_updates_nothing_witness :
  environment_calls_only (Toy.start 3 3) Toy.episode_world /\
  environment_calls_only (Faulty.start 1 1000 0) Faulty.failed_step_world.
Proof.
  split.
  - exact (proj1 (run_one_episode_updates_nothing 5 Toy.policy_module
                    Toy.value_module (Toy.start 3 3))
             _ _ toy_episode_run).
  - apply (proj2 (run_one_episode_updates_nothing 1 Toy.policy_module
                    Toy.value_module (Faulty.start 1 1000 0))
             Faulty.step_error).
    vm_compute. reflexivity.
Defined.

(** An epoch whose third episode raises. *)
Lemma train_one_epoch_raises_before_any_update_witness :
  train_one_epoch 1 (Faulty.start 1 2 1000)
    = Raised Faulty.reset_error Faulty.two_episodes_world /\
  w_policy Faulty.two_episodes_world = w_policy (Faulty.start 1 2 1000) /\
  w_value Faulty.two_episodes_world = w_value (Faulty.start 1 2 1000).
Proof.
  split; [exact faulty_epoch_run|].
  destruct (train_one_epoch_raises_before_any_update _ _ _ _ faulty_epoch_run)
    as (Hp & Hv & _).
  split; assumption.
Defined.

(** The epoch of 200 episodes of one step. *)
Lemma train_one_epoch_mean_of_rewards_witness :
  train_one_epoch 1 (Toy.start 1 3) = Returned Toy.epoch_mean Toy.epoch_world
  /\ exists tr,
       w_trace Toy.epoch_world = w_trace (Toy.start 1 3) ++ tr /\
       count_events is_reset tr = 200%nat /\
    (200 <= count_events is_step tr)%nat /\
       Toy.epoch_mean == Qsum (rewards_of tr) / 200.
Proof.
  split; [exact toy_epoch_run|].
  exact (train_one_epoch_mean_of_rewards _ _ _ _ toy_epoch_run).
Defined.

(** A critic of two outputs. *)
Lemma train_one_epoch_needs_one_critic_output_witness :
  out_features (layer2 (module (w_value Runs.wide_critic_world))) = 2%nat /\
  forall mean w',
    train_one_epoch 1 Runs.wide_critic_world <> Returned mean w'.
Proof.
  split; [reflexivity|].
  apply (train_one_epoch_needs_one_critic_output 1 Runs.wide_critic_world).
  - discriminate.
  - simpl. lia.
Defined.

(** Two epochs of [train]. *)
Lemma train_call_counts_witness :
  train 1 2 (Toy.start 1 3) = Returned tt Toy.train_world /\
  exists tr,
    w_trace Toy.train_world = w_trace (Toy.start 1 3) ++ tr /\
    count_events is_reset tr = (200 * 2)%nat /\
    count_events (is_optimizer_step Policy) tr = 2%nat /\
    count_events (is_optimizer_step Value) tr = 2%nat.
Proof.
  split; [exact toy_train_run|].
  destruct (train_call_counts _ _ _ _ toy_train_run) as (tr & Htr & Hr & Hu).
  exists tr. split; [exact Htr|]. split; [exact Hr|].
  split; [apply (Hu Policy) | apply (Hu Value)].
Defined.



Lemma train_value_loss_all_pairs_witness :
  epochs_chain 1 0 (initialised (Toy.start 1 3)) []
    (initialised (Toy.start 1 3)) /\
  train_one_epoch 1 (initialised (Toy.start 1 3))
    = Returned Runs.first_epoch_mean Runs.first_epoch_world /\
  exists tr vl,
    w_trace Runs.first_epoch_world
      = w_trace (initialised (Toy.start 1 3)) ++ tr /\
    backpropagated Value tr = [scalar_tensor vl].
Proof.
  assert (Hc : epochs_chain 1 0 (initialised (Toy.start 1 3)) []
                 (initialised (Toy.start 1 3))) by constructor.
  split; [exact Hc|]. split; [exact toy_first_epoch_run|].
  destruct (train_value_loss_all_pairs _ _ _ _ _ _ Hc toy_first_epoch_run)
    as (eps & w' & lq & vq & vl & _ & _ & (tr & Htr & Hb) & _).
  exists tr, vl. split; assumption.
Defined.

(** The episode of three steps, with a critic that says 5. *)
Lemma run_one_episode_ignores_critic_witness :
  run_one_episode 5 Toy.policy_module Toy.value_module (Toy.start 3 3)
    = Returned Toy.episode_result Toy.episode_world /\
  exists ep2,
    run_one_episode 5 Toy.policy_module (Toy.constant_module 1 1 5)
      (Toy.start 3 3) = Returned ep2 Toy.episode_world /\
    ep_action_returns ep2 = ep_action_returns Toy.episode_result /\
    ep_log_probabilities ep2 = ep_log_probabilities Toy.episode_result /\
    ep_return ep2 = ep_return Toy.episode_result.
Proof.
  split; [exact toy_episode_run|].
  exact (run_one_episode_ignores_critic 5 Toy.policy_module Toy.value_module
           (Toy.constant_module 1 1 5) (Toy.start 3 3) _ _
           eq_refl eq_refl toy_episode_run).
Defined.

(** The epoch from a world whose critic says 3 and from one whose critic
    says 5. *)
Lemma train_one_epoch_policy_ignores_critic_witness :
  train_one_epoch 1 (Toy.start 1 3) = Returned Toy.epoch_mean Toy.epoch_world
  /\ exists w2',
       train_one_epoch 1 (Toy.start 1 5) = Returned Toy.epoch_mean w2' /\
       w_policy w2' = w_policy Toy.epoch_world /\
       w_env w2' = w_env Toy.epoch_world /\
       w_rng w2' = w_rng Toy.epoch_world.
Proof.
  split; [exact toy_epoch_run|].
  exact (train_one_epoch_policy_ignores_critic 1 (Toy.start 1 3)
           (Toy.start 1 5) _ _ eq_refl eq_refl eq_refl eq_refl eq_refl
           eq_refl toy_epoch_run).
Defined.

(** *** Runs of the [Toy] collaborators that return *)

Lemma toy_episode_always_returns fuel (pm vm : Sequential)
    (w : @world Toy.env nat Q nat) :
  Toy.horizon (w_env w) = 1%nat ->
  in_features (layer1 pm) = 1%nat ->
  out_features (layer1 pm) = in_features (layer2 pm) ->
  out_features (layer2 pm) <> 0%nat ->
  in_features (layer1 vm) = 1%nat ->
  out_features (layer1 vm) = in_features (layer2 vm) ->
  exists ep w',
    run_one_episode (S fuel) pm vm w = Returned ep w' /\
    Toy.horizon (w_env w') = 1%nat.
Proof.
  intros Hh Hp1 Hp2 Hp3 Hv1 Hv2.
  destruct (forward_accepts vm [0] Hv2) as (ov & Hfv & _);
    [rewrite Hv1; reflexivity|].
  destruct (forward_accepts pm [0] Hp2) as (op & Hfp & Hlp);
    [rewrite Hp1; reflexivity|].
  assert (Hs : categorical_sample (data (as_tensor op)) (w_rng w)
               = inr (0%nat, S (w_rng w))).
  { destruct op as [|x op]; [simpl in Hlp; congruence | reflexivity]. }
  eexists; eexists. split.
  - eapply run_one_episode_first_step_done.
    + reflexivity.
    + exact Hfv.
    + exact Hfp.
    + exact Hs.
    + cbn [env_step Toy.gym Toy.elapsed Toy.horizon]. rewrite Hh. reflexivity.
  - reflexivity.
Qed.

Lemma toy_episodes_always_return fuel (pm vm : Sequential) :
  in_features (layer1 pm) = 1%nat ->
  out_features (layer1 pm) = in_features (layer2 pm) ->
  out_features (layer2 pm) <> 0%nat ->
  in_features (layer1 vm) = 1%nat ->
  out_features (layer1 vm) = in_features (layer2 vm) ->
  forall n (w : @world Toy.env nat Q nat),
    Toy.horizon (w_env w) = 1%nat ->
    exists eps w',
      episodes_chain (S fuel) pm vm w eps w' /\ length eps = n /\
      Toy.horizon (w_env w') = 1%nat.
Proof.
  intros Hp1 Hp2 Hp3 Hv1 Hv2.
  induction n as [|n IH]; intros w Hh.
  - exists [], w. repeat split; [constructor | assumption].
  - destruct (toy_episode_always_returns fuel pm vm w Hh Hp1 Hp2 Hp3 Hv1 Hv2)
      as (ep & w1 & Hrun & Hh1).
    destruct (IH w1 Hh1) as (eps & w' & Hc & Hl & Hh').
    exists (ep :: eps), w'. repeat split; [|simpl; lia | assumption].
    econstructor; eassumption.
Qed.

Lemma toy_epoch_always_returns fuel (w : @world Toy.env nat Q nat) :
  Runs.ready w ->
  exists mean w',
    train_one_epoch (S fuel) w = Returned mean w' /\ Runs.ready w'.
Proof.
  intros (Hh & (Hp1 & Hp2 & Hp3) & (Hv1 & Hv2 & Hv3)).
  destruct (toy_episodes_always_return fuel _ _ Hp1 Hp2 Hp3 Hv1 Hv2 200 w Hh)
    as (eps & w1 & Hc & Hl & Hh1).
  destruct (train_one_epoch_run _ _ _ _ Hc Hl Hv3) as (w' & Hrun).
  exists (np_mean (map ep_return eps)), w'. split; [exact Hrun|].
  apply train_one_epoch_inv in Hrun.
  destruct Hrun as (eps' & w1' & stacked & pl & vl & Hc' & Hl' & _ & _ & _
                    & _ & _ & Hv & Hp & He & _).
  destruct (episodes_chain_functional _ _ _ _ _ _ Hc' _ _ Hc) as [-> ->];
    [congruence|].
  destruct (chain_facts _ _ _ _ _ _ Hc) as (_ & _ & _ & _ & _ & Hpa & Hva & _).
  unfold Runs.ready. rewrite He, Hv, Hp, Hva, Hpa.
  unfold learner_after_update. cbn [module set_parameters layer1 layer2
    in_features out_features].
  repeat split; assumption.
Qed.

Lemma toy_epochs_always_return fuel : forall n k (w : @world Toy.env nat Q nat),
  Runs.ready w ->
  exists means w', epochs_chain (S fuel) k w means w' /\ length means = n.
Proof.
  induction n as [|n IH]; intros k w Hr.
  - exists [], w. split; [constructor | reflexivity].
  - destruct (toy_epoch_always_returns fuel w Hr) as (mean & w1 & Hrun & Hr1).
    destruct (IH (S k)
                (set_stdout
                   (w_stdout w1 ++ format_report k mean ++ newline)%string w1)
                Hr1)
      as (means & w' & Hc & Hl).
    exists (mean :: means), w'. split; [|simpl; lia].
    exact (epochs_cons (S fuel) k w w1 w' mean means Hrun Hc).
Qed.

Lemma toy_initialised_ready (w : @world Toy.env nat Q nat) :
  Runs.ready (initialised w).
Proof.
  unfold Runs.ready, initialised.
  cbn [w_env w_policy w_value module layer1 layer2 in_features out_features].
  repeat split; try reflexivity. discriminate.
Qed.

Lemma toy_train_always_returns fuel epochs (w : @world Toy.env nat Q nat) :
  exists w', train (S fuel) epochs w = Returned tt w'.
Proof.
  destruct (toy_epochs_always_return fuel epochs 0 (initialised w)
              (toy_initialised_ready w))
    as (means & w' & Hc & Hl).
  exists w'. rewrite train_unfold, <- Hl. apply epoch_loop_run. exact Hc.
Qed.

(** The script, with the [Toy] collaborators. *)
Lemma main_trains_30_epochs_witness :
  exists w',
    main 1 (Toy.start 1 3) = Returned tt w' /\
    exists means tr,
      length means = 30%nat /\
      w_stdout w' = (w_stdout (Toy.start 1 3) ++ report 0 means)%string /\
      w_trace w' = w_trace (Toy.start 1 3) ++ tr /\
      count_events is_reset tr = (200 * 30)%nat.
Proof.
  destruct (toy_train_always_returns 0 30 (Toy.start 1 3)) as (w' & Hrun).
  exists w'. split; [exact Hrun|].
  destruct (main_trains_30_epochs _ _ _ Hrun)
    as (means & tr & Hl & Hs & _ & Htr & Hr & _).
  exists means, tr. repeat split; assumption.
Defined.
